(** * Coreference resolution model and character connector: a shallow embedding

    Sources embedded here:
    - [deeppavlov/models/coreference_resolution/model.py] (class [CorefModel]);
    - [deeppavlov/models/preprocessors/char_connector.py] (class [CharConnector]).

    Conventions.
    - Python [int] and numpy integer arrays are [Z] and [list Z]; an index
      produced by [enumerate] is a [nat].
    - A Python exception is a value [Raise e] of the [result] type; the
      [for ... in enumerate(...)] loops are [for_enumerate], a fold that
      threads the loop state and stops at the first exception.
    - A dict is a [gmap]; a numpy array or tensor of rank two is the list of
      its rows, of rank three the list of its matrices.
    - The decoder is given twice: as functions of the contents of its
      arrays, and statement by statement over a heap of objects, where an
      array, a list and a dict are reached through references and changed in
      place.
    - The scores the decoder reads are [float64] values ([spec_float]); the
      values of the graph are real numbers extended with the IEEE special
      values ([xreal]), rounding left out.
    - The collaborators that are not part of these sources (embedder,
      character vocabulary, the feed-forward network and the native
      operations [spans], [extract_mentions], [get_antecedents],
      [distance_bins]) are section variables. *)

From Stdlib Require Import ZArith Reals Lra.
From Stdlib Require Import Floats.SpecFloat.
From stdpp Require Import gmap strings list fin_maps relations sorting.

Local Open Scope Z_scope.

(** ** Exceptions and the loop combinator *)

Inductive exn : Type :=
| IndexError
| ValueError
| AssertionError
| KeyError
| AttributeError
| TypeError
| InvalidArgumentError
| ConfigError (msg : string).

Inductive result (A : Type) : Type :=
| Ok (a : A)
| Raise (e : exn).
Arguments Ok {A} a.
Arguments Raise {A} e.

Definition bind {A B : Type} (r : result A) (k : A → result B) : result B :=
  match r with
  | Ok a => k a
  | Raise e => Raise e
  end.

Notation "x ←! r ; k" := (bind r (λ x, k))
  (at level 20, r at level 100, k at level 200, right associativity,
   format "x  ←!  r ;  '/' k").

(** [for i, x in enumerate(l): s = body(i, x, s)], counting from [i]. *)
Fixpoint for_enumerate {A S : Type} (body : nat → A → S → result S)
    (i : nat) (l : list A) (s : S) : result S :=
  match l with
  | [] => Ok s
  | x :: l' => s' ←! body i x s; for_enumerate body (Datatypes.S i) l' s'
  end.

(** numpy indexing [a[i]] of a one-dimensional array by a Python integer:
    a negative index counts from the end, anything outside
    [-len(a) .. len(a)-1] raises [IndexError]. *)
Definition np_index {A : Type} (a : list A) (i : Z) : result A :=
  let n := Z.of_nat (length a) in
  let j := if i <? 0 then i + n else i in
  if (0 <=? j) && (j <? n) then
    match a !! Z.to_nat j with
    | Some x => Ok x
    | None => Raise IndexError
    end
  else Raise IndexError.

(** [a[i, j]] on a two-dimensional array, [i] coming from [enumerate]. *)
Definition np_index2 {A : Type} (a : list (list A)) (i : nat) (j : Z) : result A :=
  match a !! i with
  | Some row => np_index row j
  | None => Raise IndexError
  end.

(** ** Greedy decoding *)

Section Decode.
(** Scores are [float64] values; the decoder only compares them.  [gt x best]
    is the test by which [np.argmax] replaces its running maximum. *)
Context {score : Type} (gt : score → score → bool).

Fixpoint argmax_from (best : score) (besti i : nat) (l : list score) : nat :=
  match l with
  | [] => besti
  | x :: l' =>
      if gt x best then argmax_from x i (S i) l'
      else argmax_from best besti (S i) l'
  end.

(** [np.argmax] of one row: the first index holding the maximum; an empty
    row raises [ValueError]. *)
Definition np_argmax (row : list score) : result Z :=
  match row with
  | [] => Raise ValueError
  | x :: l => Ok (Z.of_nat (argmax_from x 0 1 l))
  end.

(** [np.argmax(antecedent_scores, axis=1)]. *)
Fixpoint np_argmax_axis1 (m : list (list score)) : result (list Z) :=
  match m with
  | [] => Ok []
  | row :: m' =>
      k ←! np_argmax row;
      ks ←! np_argmax_axis1 m';
      Ok (k :: ks)
  end.

(** Body of the loop of [CorefModel.get_predicted_antecedents]. *)
Definition predicted_antecedents_body (antecedents : list (list Z))
    (i : nat) (index : Z) (predicted_antecedents : list Z) : result (list Z) :=
  if index <? 0 then Ok (predicted_antecedents ++ [-1])
  else
    a ←! np_index2 antecedents i index;
    Ok (predicted_antecedents ++ [a]).

(** [CorefModel.get_predicted_antecedents]. *)
Definition get_predicted_antecedents (antecedents : list (list Z))
    (antecedent_scores : list (list score)) : result (list Z) :=
  am ←! np_argmax_axis1 antecedent_scores;
  for_enumerate (predicted_antecedents_body antecedents) 0
    (map (λ k, k - 1) am) [].
End Decode.

Definition span : Type := Z * Z.

(** The two local variables of [get_predicted_clusters]. *)
Record clustering : Type := Clustering {
  mention_to_predicted : gmap span nat;
  predicted_clusters : list (list span)
}.

(** [predicted_clusters[c].append(mention)]. *)
Definition cluster_append (c : nat) (mention : span)
    (clusters : list (list span)) : result (list (list span)) :=
  match clusters !! c with
  | Some cl => Ok (<[c := cl ++ [mention]]> clusters)
  | None => Raise IndexError
  end.

(** Lines 746-751: the cluster of the predicted antecedent, created with
    the antecedent as its first member when the dict has none for it. *)
Definition antecedent_cluster (st : clustering) (predicted_antecedent : span)
    : nat * clustering :=
  match mention_to_predicted st !! predicted_antecedent with
  | Some predicted_cluster => (predicted_cluster, st)
  | None =>
      let predicted_cluster := length (predicted_clusters st) in
      (predicted_cluster,
       Clustering (<[predicted_antecedent := predicted_cluster]> (mention_to_predicted st))
                  (predicted_clusters st ++ [[predicted_antecedent]]))
  end.

(** Body of the loop of [CorefModel.get_predicted_clusters]. *)
Definition predicted_clusters_body (mention_starts mention_ends : list Z)
    (i : nat) (predicted_index : Z) (st : clustering) : result clustering :=
  if predicted_index <? 0 then Ok st
  else if negb (Z.of_nat i >? predicted_index) then Raise AssertionError
  else
    s ←! np_index mention_starts predicted_index;
    e ←! np_index mention_ends predicted_index;
    let predicted_antecedent : span := (s, e) in
    let predicted_cluster := fst (antecedent_cluster st predicted_antecedent) in
    let st1 := snd (antecedent_cluster st predicted_antecedent) in
    s' ←! np_index mention_starts (Z.of_nat i);
    e' ←! np_index mention_ends (Z.of_nat i);
    let mention : span := (s', e') in
    clusters ←! cluster_append predicted_cluster mention (predicted_clusters st1);
    Ok (Clustering (<[mention := predicted_cluster]> (mention_to_predicted st1)) clusters).

(** The loop of [get_predicted_clusters], from the empty dict and list. *)
Definition predicted_clusters_loop (mention_starts mention_ends : list Z)
    (predicted_antecedents : list Z) : result clustering :=
  for_enumerate (predicted_clusters_body mention_starts mention_ends) 0
    predicted_antecedents (Clustering ∅ []).

(** [{m: predicted_clusters[i] for m, i in mention_to_predicted.items()}]:
    [IndexError] when some id is not an index of [predicted_clusters]. *)
Definition resolve_clusters (clusters : list (list span))
    (m2p : gmap span nat) : result (gmap span (list span)) :=
  if decide (map_Forall (λ _ c, (c < length clusters)%nat) m2p) then
    Ok ((λ c, default [] (clusters !! c)) <$> m2p)
  else Raise IndexError.

(** [CorefModel.get_predicted_clusters]. *)
Definition get_predicted_clusters (mention_starts mention_ends : list Z)
    (predicted_antecedents : list Z)
    : result (list (list span) * gmap span (list span)) :=
  st ←! predicted_clusters_loop mention_starts mention_ends predicted_antecedents;
  m2p ←! resolve_clusters (predicted_clusters st) (mention_to_predicted st);
  Ok (predicted_clusters st, m2p).

(** The decoding half of [CorefModel.__call__]. *)
Definition decode {score : Type} (gt : score → score → bool)
    (mention_starts mention_ends : list Z) (antecedents : list (list Z))
    (antecedent_scores : list (list score))
    : result (list (list span) * gmap span (list span)) :=
  predicted_antecedents ←! get_predicted_antecedents gt antecedents antecedent_scores;
  get_predicted_clusters mention_starts mention_ends predicted_antecedents.

(** [float64] comparison as [np.argmax] uses it: the running maximum [best]
    is replaced when [not (x <= best)], and the scan stops at the first NaN. *)
Definition is_nan (x : spec_float) : bool :=
  match x with S754_nan => true | _ => false end.

Definition np_gt (x best : spec_float) : bool :=
  negb (SFleb x best) && negb (is_nan best).

Definition f_zero : spec_float := S754_zero false.
Definition f_one : spec_float := S754_finite false 4503599627370496 (-52).
Definition f_neg_inf : spec_float := S754_infinity true.

(** ** The decoder on the Python heap

    [get_predicted_antecedents] and [get_predicted_clusters] are handed
    references to numpy arrays, which are mutable, and build their results
    in lists and a dict that they change in place.  Here the two functions
    are written statement by statement over a heap of objects: a reference
    is the position of the object in the heap, and a new object is put at
    the end. *)

Definition loc : Type := nat.

(** The objects the decoder reads or makes: the arrays of the caller, the
    list of predicted antecedents, the dict of cluster ids, the list of
    clusters (with its inner lists, which nothing else refers to), and the
    list of tuples and the dict that are returned. *)
Inductive pyobj (score : Type) : Type :=
| Ndarray1 (a : list Z)
| Ndarray2 (a : list (list Z))
| NdarrayScores (a : list (list score))
| PyInts (l : list Z)
| PyDict (d : gmap span nat)
| PyLists (l : list (list span))
| PyTuples (l : list (list span))
| PyTupleDict (d : gmap span (list span)).
Arguments Ndarray1 {score} a.
Arguments Ndarray2 {score} a.
Arguments NdarrayScores {score} a.
Arguments PyInts {score} l.
Arguments PyDict {score} d.
Arguments PyLists {score} l.
Arguments PyTuples {score} l.
Arguments PyTupleDict {score} d.

Abbreviation heap score := (list (pyobj score)).

(** A statement: it changes the heap and returns a value or raises. *)
Definition heap_run (score A : Type) : Type :=
  heap score → heap score * result A.

Section PythonHeap.
Context {score : Type} (gt : score → score → bool).

Definition hret {A : Type} (a : A) : heap_run score A := λ h, (h, Ok a).

Definition hlift {A : Type} (r : result A) : heap_run score A := λ h, (h, r).

Definition hbind {A B : Type} (m : heap_run score A) (k : A → heap_run score B)
    : heap_run score B :=
  λ h, match m h with
       | (h', Ok a) => k a h'
       | (h', Raise e) => (h', Raise e)
       end.

Notation "x ←@ r ; k" := (hbind r (λ x, k))
  (at level 20, r at level 100, k at level 200, right associativity).

(** A new object. *)
Definition new (o : pyobj score) : heap_run score loc :=
  λ h, (h ++ [o], Ok (length h)).

(** The object a reference points at; an operation applied to an object of
    another kind is a [TypeError]. *)
Definition load (l : loc) : heap_run score (pyobj score) :=
  λ h, (h, match h !! l with Some o => Ok o | None => Raise TypeError end).

(** A change of the object in place. *)
Definition store (l : loc) (o : pyobj score) : heap_run score () :=
  λ h, (<[l := o]> h, Ok ()).

(** [a[i]] on a one-dimensional array. *)
Definition py_index (a : loc) (i : Z) : heap_run score Z :=
  o ←@ load a;
  match o with
  | Ndarray1 xs => hlift (np_index xs i)
  | _ => hlift (Raise TypeError)
  end.

(** [a[i, j]] on a two-dimensional array. *)
Definition py_index2 (a : loc) (i : nat) (j : Z) : heap_run score Z :=
  o ←@ load a;
  match o with
  | Ndarray2 xs => hlift (np_index2 xs i j)
  | _ => hlift (Raise TypeError)
  end.

(** [np.argmax(a, axis=1) - 1]: a new array, kept as a value since no
    reference to it is held. *)
Definition py_argmax_minus_one (a : loc) : heap_run score (list Z) :=
  o ←@ load a;
  match o with
  | NdarrayScores xs =>
      am ←@ hlift (np_argmax_axis1 gt xs);
      hret (map (λ k, k - 1) am)
  | _ => hlift (Raise TypeError)
  end.

(** [l.append(x)] on a list of integers. *)
Definition py_append (l : loc) (x : Z) : heap_run score () :=
  o ←@ load l;
  match o with
  | PyInts xs => store l (PyInts (xs ++ [x]))
  | _ => hlift (Raise AttributeError)
  end.

(** [for i, x in enumerate(l): body(i, x)], counting from [i]. *)
Fixpoint for_enumerate_heap {A : Type} (body : nat → A → heap_run score ())
    (i : nat) (l : list A) : heap_run score () :=
  match l with
  | [] => hret ()
  | x :: l' => _ ←@ body i x; for_enumerate_heap body (S i) l'
  end.

(** [CorefModel.get_predicted_antecedents] on references. *)
Definition py_get_predicted_antecedents (antecedents antecedent_scores : loc)
    : heap_run score loc :=
  predicted_antecedents ←@ new (PyInts []);
  indices ←@ py_argmax_minus_one antecedent_scores;
  _ ←@ for_enumerate_heap
         (λ i index,
            if index <? 0 then py_append predicted_antecedents (-1)
            else
              a ←@ py_index2 antecedents i index;
              py_append predicted_antecedents a)
         0 indices;
  hret predicted_antecedents.

(** [d[k]] when [k in d], on the dict of cluster ids. *)
Definition py_dict_get (d : loc) (k : span) : heap_run score (option nat) :=
  o ←@ load d;
  match o with
  | PyDict m => hret (m !! k)
  | _ => hlift (Raise TypeError)
  end.

(** [d[k] = v]. *)
Definition py_dict_set (d : loc) (k : span) (v : nat) : heap_run score () :=
  o ←@ load d;
  match o with
  | PyDict m => store d (PyDict (<[k := v]> m))
  | _ => hlift (Raise TypeError)
  end.

(** [len(l)] on the list of clusters. *)
Definition py_len (l : loc) : heap_run score nat :=
  o ←@ load l;
  match o with
  | PyLists cl => hret (length cl)
  | _ => hlift (Raise TypeError)
  end.

(** [l.append([x])]. *)
Definition py_append_cluster (l : loc) (x : span) : heap_run score () :=
  o ←@ load l;
  match o with
  | PyLists cl => store l (PyLists (cl ++ [[x]]))
  | _ => hlift (Raise AttributeError)
  end.

(** [l[c].append(x)]. *)
Definition py_cluster_append (l : loc) (c : nat) (x : span) : heap_run score () :=
  o ←@ load l;
  match o with
  | PyLists cl =>
      cl' ←@ hlift (cluster_append c x cl);
      store l (PyLists cl')
  | _ => hlift (Raise TypeError)
  end.

(** The elements of a list of integers, for [enumerate]. *)
Definition py_ints (l : loc) : heap_run score (list Z) :=
  o ←@ load l;
  match o with
  | PyInts xs => hret xs
  | _ => hlift (Raise TypeError)
  end.

(** Lines 757-758: the list of tuples and the dict from spans to tuples,
    two new objects. *)
Definition py_freeze (predicted_clusters mention_to_predicted : loc)
    : heap_run score (loc * loc) :=
  o ←@ load predicted_clusters;
  match o with
  | PyLists cl =>
      tuples ←@ new (PyTuples cl);
      o' ←@ load mention_to_predicted;
      match o' with
      | PyDict m =>
          m2p ←@ hlift (resolve_clusters cl m);
          d ←@ new (PyTupleDict m2p);
          hret (tuples, d)
      | _ => hlift (Raise TypeError)
      end
  | _ => hlift (Raise TypeError)
  end.

(** Body of the loop of [CorefModel.get_predicted_clusters]. *)
Definition py_predicted_clusters_body
    (mention_starts mention_ends mention_to_predicted predicted_clusters : loc)
    (i : nat) (predicted_index : Z) : heap_run score () :=
  if predicted_index <? 0 then hret ()
  else if negb (Z.of_nat i >? predicted_index) then hlift (Raise AssertionError)
  else
    s ←@ py_index mention_starts predicted_index;
    e ←@ py_index mention_ends predicted_index;
    let predicted_antecedent : span := (s, e) in
    known ←@ py_dict_get mention_to_predicted predicted_antecedent;
    predicted_cluster ←@
      match known with
      | Some c => hret c
      | None =>
          c ←@ py_len predicted_clusters;
          _ ←@ py_append_cluster predicted_clusters predicted_antecedent;
          _ ←@ py_dict_set mention_to_predicted predicted_antecedent c;
          hret c
      end;
    s' ←@ py_index mention_starts (Z.of_nat i);
    e' ←@ py_index mention_ends (Z.of_nat i);
    let mention : span := (s', e') in
    _ ←@ py_cluster_append predicted_clusters predicted_cluster mention;
    py_dict_set mention_to_predicted mention predicted_cluster.

(** [CorefModel.get_predicted_clusters] on references. *)
Definition py_get_predicted_clusters
    (mention_starts mention_ends predicted_antecedents : loc)
    : heap_run score (loc * loc) :=
  mention_to_predicted ←@ new (PyDict ∅);
  predicted_clusters ←@ new (PyLists []);
  indices ←@ py_ints predicted_antecedents;
  _ ←@ for_enumerate_heap
         (py_predicted_clusters_body mention_starts mention_ends
            mention_to_predicted predicted_clusters)
         0 indices;
  py_freeze predicted_clusters mention_to_predicted.

(** The decoding half of [CorefModel.__call__], on the references to the
    four arrays the session returned. *)
Definition py_decode (mention_starts mention_ends antecedents antecedent_scores : loc)
    : heap_run score (loc * loc) :=
  predicted_antecedents ←@
    py_get_predicted_antecedents antecedents antecedent_scores;
  py_get_predicted_clusters mention_starts mention_ends predicted_antecedents.

(** What the caller finds at the two references a run returned. *)
Definition py_result (h : heap score) (r : result (loc * loc))
    : result (list (list span) * gmap span (list span)) :=
  match r with
  | Raise e => Raise e
  | Ok (tuples, d) =>
      match h !! tuples, h !! d with
      | Some (PyTuples cl), Some (PyTupleDict m2p) => Ok (cl, m2p)
      | _, _ => Raise TypeError
      end
  end.
End PythonHeap.

(** ** Python list helpers *)

(** [sum(l)] over integers. *)
Definition py_sum (l : list Z) : Z := foldr Z.add 0 l.

(** [max(l)]: [ValueError] on an empty sequence. *)
Definition py_max (l : list Z) : result Z :=
  match l with
  | [] => Raise ValueError
  | x :: l' => Ok (foldl Z.max x l')
  end.

(** One bound of a slice, clipped as Python does: a negative bound counts
    from the end, and the result is kept inside [0 .. len]. *)
Definition slice_bound (n : nat) (k : Z) : nat :=
  if k <? 0 then Z.to_nat (Z.max 0 (k + Z.of_nat n))
  else Z.to_nat (Z.min k (Z.of_nat n)).

(** [l[lo:hi]]. *)
Definition py_slice {A : Type} (l : list A) (lo hi : Z) : list A :=
  let a := slice_bound (length l) lo in
  let b := slice_bound (length l) hi in
  take (b - a) (drop a l).

(** [a[mask]] for a boolean numpy mask: the shapes must agree. *)
Definition np_mask {A : Type} (a : list A) (mask : list bool) : result (list A) :=
  if decide (length a = length mask) then
    Ok (map fst (filter (λ p, snd p = true) (zip a mask)))
  else Raise IndexError.

(** Modelled from the spec: [custom_layers.flatten] is not among the sources.
    The clusters are "nested sequences of (start,end) integer pairs" and the
    gold mentions are the spans of all of them, so [flatten] removes one
    level of nesting and keeps the order. *)
Definition flatten {A : Type} (l : list (list A)) : list A := concat l.

(** Tuples of integers compare lexicographically. *)
Definition span_le (a b : span) : Prop :=
  a.1 < b.1 ∨ (a.1 = b.1 ∧ a.2 <= b.2).

#[global] Instance span_le_dec (a b : span) : Decision (span_le a b).
Proof. unfold span_le. apply _. Defined.

(** [sorted(...)] on spans. *)
Definition sorted (l : list span) : list span := merge_sort span_le l.

(** [{x: i for i, x in enumerate(l)}]: a later position of the same key
    replaces an earlier one. *)
Definition enumerate_map {K : Type} `{Countable K} (l : list K) : gmap K nat :=
  foldl (λ m p, <[snd p := fst p]> m) ∅ (zip (seq 0 (length l)) l).

(** [for x in l: s = body(x, s)]. *)
Definition for_each {A S : Type} (body : A → S → result S)
    (l : list A) (s : S) : result S :=
  for_enumerate (λ _, body) 0 l s.

(** ** [tensorize_example] and [truncate_example] *)

(** The nine values [tensorize_example] returns, in its order.  [E] is one
    sentence's slab of the embedding tensor. *)
Record tensors (E : Type) : Type := Tensors {
  word_emb : list E;
  char_index : list (list (list Z));
  text_len : list Z;
  speaker_ids : list Z;
  genre : nat;
  is_training : bool;
  gold_starts : list Z;
  gold_ends : list Z;
  cluster_ids : list Z
}.
Arguments Tensors {E}.
Arguments word_emb {E}.
Arguments char_index {E}.
Arguments text_len {E}.
Arguments speaker_ids {E}.
Arguments genre {E}.
Arguments is_training {E}.
Arguments gold_starts {E}.
Arguments gold_ends {E}.
Arguments cluster_ids {E}.

(** The batch dictionary, with the one-document wrappers removed. *)
Record example : Type := MkExample {
  ex_sentences : list (list string);
  ex_speakers : list (list string);
  ex_doc_key : string;
  ex_clusters : list (list span)
}.

(** What the embedder collaborator is called with. *)
Inductive embedder_arg : Type :=
| EmbSentences (sentences : list (list string))
| EmbDocKey (doc_key : string).

(** The attributes of [CorefModel] read by the tensorisation and by the
    choice of the mention set. *)
Record model_config : Type := ModelConfig {
  emb_lowercase : bool;
  emb_format : string;
  filter_widths : list Z;
  max_training_sentences : Z;
  genres : gmap string nat;
  train_on_gold : bool
}.

(** Inner statement of the cluster-id loop:
    [cluster_ids[gold_mention_map[tuple(mention)]] = cluster_id]. *)
Definition assign_cluster_id (gold_mention_map : gmap span nat)
    (cluster_id : nat) (mention : span) (cluster_ids : list Z) : result (list Z) :=
  match gold_mention_map !! mention with
  | Some k => Ok (<[k := Z.of_nat cluster_id]> cluster_ids)
  | None => Raise KeyError
  end.

(** Lines 232-238 of [tensorize_example]: the sorted gold mentions and the
    cluster id of each. *)
Definition gold_cluster_ids (clusters : list (list span))
    : result (list span * list Z) :=
  let gold_mentions := sorted (flatten clusters) in
  let gold_mention_map := enumerate_map gold_mentions in
  ids ←! for_enumerate
           (λ cluster_id cluster ids,
              for_each (assign_cluster_id gold_mention_map cluster_id) cluster ids)
           0 clusters (replicate (length gold_mentions) 0);
  Ok (gold_mentions, ids).

(** [CorefModel.tensorize_mentions]. *)
Definition tensorize_mentions (mentions : list span) : list Z * list Z :=
  (map fst mentions, map snd mentions).

(** One word's row of [char_index]: its character ids, then zeros. *)
Definition pad_to {A : Type} (n : nat) (x : A) (l : list A) : list A :=
  l ++ replicate (n - length l) x.

Definition string_length (w : string) : Z := Z.of_nat (String.length w).

(** Position of [s] in the enumeration of the set of speakers. *)
Fixpoint index_of (s : string) (l : list string) : result Z :=
  match l with
  | [] => Raise KeyError
  | x :: l' => if decide (x = s) then Ok 0 else k ←! index_of s l'; Ok (k + 1)
  end.

Fixpoint mapM {A B : Type} (f : A → result B) (l : list A) : result (list B) :=
  match l with
  | [] => Ok []
  | x :: l' => y ←! f x; ys ←! mapM f l'; Ok (y :: ys)
  end.

Section Tensorize.
(** Collaborators: the embedder, the character vocabulary, [str.lower] and
    the iteration order of [set(speakers)], an enumeration without
    repetition. *)
Context {E : Type}.
Context (embedder : embedder_arg → list E).
Context (char_dict : Ascii.ascii → result Z).
Context (lower : string → string).
Context (set_order : list string → list string).

(** [CorefModel.truncate_example]; [sentence_offset] is the value drawn by
    [random.randint(0, num_sentences - max_training_sentences)]. *)
Definition truncate_example (cfg : model_config) (sentence_offset : Z)
    (t : tensors E) : result (tensors E) :=
  let max_training_sentences := max_training_sentences cfg in
  let num_sentences := Z.of_nat (length (word_emb t)) in
  if negb (num_sentences >? max_training_sentences) then Raise AssertionError
  else
    let word_offset := py_sum (py_slice (text_len t) 0 sentence_offset) in
    let hi := sentence_offset + max_training_sentences in
    let num_words := py_sum (py_slice (text_len t) sentence_offset hi) in
    let word_emb' := py_slice (word_emb t) sentence_offset hi in
    let char_index' := py_slice (char_index t) sentence_offset hi in
    let text_len' := py_slice (text_len t) sentence_offset hi in
    let speaker_ids' :=
      py_slice (speaker_ids t) word_offset (word_offset + num_words) in
    if negb (bool_decide (length (gold_ends t) = length (gold_starts t)))
    then Raise AssertionError
    else
      let gold_spans :=
        zip_with (λ e s, (e >=? word_offset) && (s <? word_offset + num_words))
          (gold_ends t) (gold_starts t) in
      gs ←! np_mask (gold_starts t) gold_spans;
      ge ←! np_mask (gold_ends t) gold_spans;
      ids ←! np_mask (cluster_ids t) gold_spans;
      Ok (Tensors word_emb' char_index' text_len' speaker_ids' (genre t)
            (is_training t)
            (map (λ s, s - word_offset) gs)
            (map (λ e, e - word_offset) ge)
            ids).

(** The range [random.randint(a, b)] draws from. *)
Definition randint_range (a b r : Z) : Prop := a <= r <= b.

(** [tensorize_example] up to its last statement: the untruncated tuple. *)
Definition tensorize_full (cfg : model_config) (ex : example)
    (is_training : bool) : result (tensors E) :=
  gm ←! gold_cluster_ids (ex_clusters ex);
  let gold_mentions := fst gm in
  let cluster_ids := snd gm in
  let sentences := ex_sentences ex in
  let sentence_len := λ s : list string, Z.of_nat (length s) in
  let num_words := py_sum (map sentence_len sentences) in
  let speakers := flatten (ex_speakers ex) in
  if negb (num_words =? Z.of_nat (length speakers)) then Raise AssertionError
  else
    max_sentence_length ←! py_max (map sentence_len sentences);
    longest ←! mapM (λ s : list string, py_max (map string_length s)) sentences;
    max_word ←! py_max longest;
    max_width ←! py_max (filter_widths cfg);
    let max_word_length := Z.max max_word max_width in
    let text_len := map sentence_len sentences in
    let doc_key := ex_doc_key ex in
    let sentences :=
      if emb_lowercase cfg then map (map lower) sentences else sentences in
    char_index ←!
      mapM (λ sentence : list string,
              rows ←! mapM (λ word : string,
                              ids ←! mapM char_dict (String.list_ascii_of_string word);
                              if Z.of_nat (length ids) <=? max_word_length
                              then Ok (pad_to (Z.to_nat max_word_length) 0 ids)
                              else Raise ValueError)
                       sentence;
              Ok (pad_to (Z.to_nat max_sentence_length)
                    (replicate (Z.to_nat max_word_length) 0) rows))
           sentences;
    let word_emb :=
      if decide (emb_format cfg = "std_emb") then embedder (EmbSentences sentences)
      else embedder (EmbDocKey doc_key) in
    let speaker_dict := set_order speakers in
    speaker_ids ←! mapM (λ s, index_of s speaker_dict) speakers;
    match genres cfg !! String.substring 0 2 doc_key with
    | None => Raise KeyError
    | Some genre =>
        let mentions := tensorize_mentions gold_mentions in
        Ok (Tensors word_emb char_index text_len speaker_ids genre is_training
              (fst mentions) (snd mentions) cluster_ids)
    end.

(** [CorefModel.tensorize_example]. *)
Definition tensorize_example (cfg : model_config) (sentence_offset : Z)
    (ex : example) (is_training : bool) : result (tensors E) :=
  t ←! tensorize_full cfg ex is_training;
  if is_training
     && (Z.of_nat (length (ex_sentences ex)) >? max_training_sentences cfg)
  then truncate_example cfg sentence_offset t
  else Ok t.
End Tensorize.

(** ** Graph values

    A [tf.float64] is idealised as a real number, with the IEEE special
    values kept: the masks of the model are built from [log 0 = -inf]. *)

Inductive xreal : Type :=
| NegInf
| Fin (r : R)
| PosInf
| NaN.

Definition xadd (a b : xreal) : xreal :=
  match a, b with
  | NaN, _ | _, NaN => NaN
  | PosInf, NegInf | NegInf, PosInf => NaN
  | PosInf, _ | _, PosInf => PosInf
  | NegInf, _ | _, NegInf => NegInf
  | Fin x, Fin y => Fin (x + y)
  end.

Definition xopp (a : xreal) : xreal :=
  match a with
  | NegInf => PosInf
  | Fin x => Fin (- x)
  | PosInf => NegInf
  | NaN => NaN
  end.

Definition xsub (a b : xreal) : xreal := xadd a (xopp b).

(** Sign of a real number: [-1], [0] or [1]. *)
Definition Rsign (x : R) : Z :=
  if Rlt_dec 0 x then 1 else if Rlt_dec x 0 then -1 else 0.

Definition xsign (a : xreal) : option Z :=
  match a with
  | NegInf => Some (-1)
  | Fin x => Some (Rsign x)
  | PosInf => Some 1
  | NaN => None
  end.

Definition xmul (a b : xreal) : xreal :=
  match a, b with
  | Fin x, Fin y => Fin (x * y)
  | _, _ =>
      match xsign a, xsign b with
      | Some sa, Some sb =>
          if sa * sb =? 0 then NaN else if 0 <? sa * sb then PosInf else NegInf
      | _, _ => NaN
      end
  end.

Definition xexp (a : xreal) : xreal :=
  match a with
  | NegInf => Fin 0
  | Fin x => Fin (exp x)
  | PosInf => PosInf
  | NaN => NaN
  end.

Definition xlog (a : xreal) : xreal :=
  match a with
  | Fin x => if Rlt_dec 0 x then Fin (ln x) else if Rlt_dec x 0 then NaN else NegInf
  | PosInf => PosInf
  | NegInf | NaN => NaN
  end.

Definition xsum (l : list xreal) : xreal := foldr xadd (Fin 0) l.

(** [tf.cast(b, tf.float64)]. *)
Definition cast_bool (b : bool) : xreal := if b then Fin 1 else Fin 0.

(** A score as the network produces it: a real number or a masked [-inf]. *)
Definition is_score (a : xreal) : Prop :=
  match a with
  | NegInf | Fin _ => True
  | PosInf | NaN => False
  end.

Abbreviation vec := (list xreal).
Abbreviation tensor2 := (list (list xreal)).
Abbreviation tensor3 := (list (list (list xreal))).

(** ** Tensor operations *)

(** Elementwise binary operation with broadcasting along one axis: equal
    sizes pair up, a size of one is stretched, anything else is an error. *)
Definition tf_broadcast {A B C : Type} (f : A → B → result C)
    (xs : list A) (ys : list B) : result (list C) :=
  if decide (length xs = length ys) then mapM (λ p, f (fst p) (snd p)) (zip xs ys)
  else
    match xs, ys with
    | [x], _ => mapM (f x) ys
    | _, [y] => mapM (λ x, f x y) xs
    | _, _ => Raise InvalidArgumentError
    end.

Definition tf_map2_1 {A B C : Type} (f : A → B → C) : list A → list B → result (list C) :=
  tf_broadcast (λ a b, Ok (f a b)).

Definition tf_map2_2 {A B C : Type} (f : A → B → C)
    : list (list A) → list (list B) → result (list (list C)) :=
  tf_broadcast (tf_map2_1 f).

Definition tf_map2_3 {A B C : Type} (f : A → B → C)
    : list (list (list A)) → list (list (list B)) → result (list (list (list C))) :=
  tf_broadcast (tf_map2_2 f).

(** [tf.gather(params, i)] for one index: outside [0 .. len-1] is an error. *)
Definition tf_gather {A : Type} (params : list A) (i : Z) : result A :=
  if (0 <=? i) && (i <? Z.of_nat (length params)) then
    match params !! Z.to_nat i with
    | Some x => Ok x
    | None => Raise InvalidArgumentError
    end
  else Raise InvalidArgumentError.

(** [tf.gather(params, indices)] for a matrix of indices. *)
Definition tf_gather2 {A : Type} (params : list A) (indices : list (list Z))
    : result (list (list A)) :=
  mapM (mapM (tf_gather params)) indices.

(** [tf.sequence_mask(lengths, maxlen)]. *)
Definition tf_sequence_mask (lengths : list Z) (maxlen : nat) : list (list bool) :=
  map (λ len, map (λ j, Z.of_nat j <? len) (seq 0 maxlen)) lengths.

(** Modelled from the spec: [custom_layers.shape] is not among the sources.
    [shape(x, 1)] is the size of axis 1, the number of columns of a matrix
    given by its rows: the score row has one slot per column of the
    antecedents tensor, after the "no antecedent" slot. *)
Definition ncols {A : Type} (m : list (list A)) : nat :=
  match m with
  | [] => 0
  | row :: _ => length row
  end.

(** [tf.concat([a, b], axis)] on the last axis of a rank-3 tensor and on
    axis 1 of a matrix: the leading sizes must agree. *)
Definition zip_exact {A B C : Type} (f : A → B → result C)
    (xs : list A) (ys : list B) : result (list C) :=
  if decide (length xs = length ys) then mapM (λ p, f (fst p) (snd p)) (zip xs ys)
  else Raise InvalidArgumentError.

Definition tf_concat_axis1 {A : Type} : list (list A) → list (list A) → result (list (list A)) :=
  zip_exact (λ a b, Ok (a ++ b)).

Definition tf_concat_axis2 {A : Type}
    : list (list (list A)) → list (list (list A)) → result (list (list (list A))) :=
  zip_exact tf_concat_axis1.

(** [tf.concat(ts, 2)] for a Python list of tensors; an empty list is an
    error. *)
Fixpoint tf_concat_list_axis2 {A : Type} (ts : list (list (list (list A))))
    : result (list (list (list A))) :=
  match ts with
  | [] => Raise ValueError
  | [t] => Ok t
  | t :: ts' => r ←! tf_concat_list_axis2 ts'; tf_concat_axis2 t r
  end.

(** [tf.squeeze(x, 2)]: the last axis must have size one. *)
Definition tf_squeeze2 {A : Type} (t : list (list (list A))) : result (list (list A)) :=
  mapM (mapM (λ v, match v with [x] => Ok x | _ => Raise InvalidArgumentError end)) t.

(** [tf.reduce_logsumexp(x, [1])] on one row: [log(sum(exp(row)))]. *)
Definition reduce_logsumexp (row : list xreal) : xreal :=
  xlog (xsum (map xexp row)).

(** ** Loss *)

(** [CorefModel.softmax_loss]. *)
Definition softmax_loss (antecedent_scores : tensor2)
    (antecedent_labels : list (list bool)) : result (list xreal) :=
  gold_scores ←! tf_map2_2 xadd antecedent_scores
                   (map (map (λ b, xlog (cast_bool b))) antecedent_labels);
  let marginalized_gold_scores := map reduce_logsumexp gold_scores in
  let log_norm := map reduce_logsumexp antecedent_scores in
  tf_map2_1 xsub log_norm marginalized_gold_scores.

(** Lines 716-717 of [get_predictions_and_loss]. *)
Definition document_loss (antecedent_scores : tensor2)
    (antecedent_labels : list (list bool)) : result xreal :=
  loss ←! softmax_loss antecedent_scores antecedent_labels;
  Ok (xsum loss).

(** ** Antecedent scoring *)

(** The switches and learned tables [get_antecedent_scores] reads.  The
    two-row table [same_speaker_emb] is the pair of its rows. *)
Record scoring_params : Type := ScoringParams {
  use_metadata : bool;
  use_features : bool;
  same_speaker_emb : vec * vec;
  mention_distance_emb : list vec
}.

Section AntecedentScores.
(** Collaborators: the feed-forward network of [custom_layers], the
    [distance_bins] operation (applied entry by entry) and the dropout
    applied to each entry of the feature tensor. *)
Context (ffnn : tensor3 → tensor3).
Context (distance_bins : Z → Z).
Context (dropout : nat → nat → nat → xreal → xreal).

Definition tf_dropout (t : tensor3) : tensor3 :=
  imap (λ i, imap (λ j, imap (λ k x, dropout i j k x))) t.

(** Lines 443-469 of [get_antecedent_scores]: the feature embeddings of
    every pair, after dropout. *)
Definition pair_feature_emb (p : scoring_params) (num_mentions max_antecedents : nat)
    (antecedents : list (list Z)) (mention_speaker_ids : list Z)
    (genre_emb : vec) : result tensor3 :=
  metadata ←!
    (if use_metadata p then
       antecedent_speaker_ids ←! tf_gather2 mention_speaker_ids antecedents;
       same_speaker ←! tf_map2_2 (λ a b : Z, bool_decide (a = b))
                         (map (λ s, [s]) mention_speaker_ids)
                         antecedent_speaker_ids;
       let speaker_pair_emb :=
         map (map (λ b : bool,
                     if b then snd (same_speaker_emb p)
                     else fst (same_speaker_emb p))) same_speaker in
       let tiled_genre_emb :=
         replicate num_mentions (replicate max_antecedents genre_emb) in
       Ok [speaker_pair_emb; tiled_genre_emb]
     else Ok []);
  features ←!
    (if use_features p then
       let target_indices := map Z.of_nat (seq 0 num_mentions) in
       mention_distance ←! tf_map2_2 Z.sub (map (λ t, [t]) target_indices)
                             antecedents;
       let mention_distance_bins := map (map distance_bins) mention_distance in
       mention_distance_emb ←!
         tf_gather2 (mention_distance_emb p) mention_distance_bins;
       Ok [mention_distance_emb]
     else Ok []);
  feature_emb ←! tf_concat_list_axis2 (metadata ++ features);
  Ok (tf_dropout feature_emb).

(** [CorefModel.get_antecedent_scores]. *)
Definition get_antecedent_scores (p : scoring_params)
    (mention_emb : list vec) (mention_scores : list xreal)
    (antecedents : list (list Z)) (antecedents_len : list Z)
    (mention_speaker_ids : list Z) (genre_emb : vec) : result tensor2 :=
  let num_mentions := length mention_emb in
  let max_antecedents := ncols antecedents in
  feature_emb ←! pair_feature_emb p num_mentions max_antecedents antecedents
                   mention_speaker_ids genre_emb;
  antecedent_emb ←! tf_gather2 mention_emb antecedents;
  let target_emb_tiled :=
    map (λ e, replicate max_antecedents e) mention_emb in
  similarity_emb ←! tf_map2_3 xmul antecedent_emb target_emb_tiled;
  pair_emb ←! tf_concat_list_axis2
                [target_emb_tiled; antecedent_emb; similarity_emb; feature_emb];
  antecedent_scores ←! tf_squeeze2 (ffnn pair_emb);
  let antecedent_mask :=
    map (map (λ b, xlog (cast_bool b)))
      (tf_sequence_mask antecedents_len max_antecedents) in
  antecedent_scores ←! tf_map2_2 xadd antecedent_scores antecedent_mask;
  gathered ←! tf_gather2 mention_scores antecedents;
  pair_scores ←! tf_map2_2 xadd (map (λ s, [s]) mention_scores) gathered;
  antecedent_scores ←! tf_map2_2 xadd antecedent_scores pair_scores;
  tf_concat_axis1 (replicate (length mention_scores) [Fin 0]) antecedent_scores.
End AntecedentScores.

(** ** The graph of [get_predictions_and_loss] *)

(** The mention set handed to the antecedent module. *)
Record mentions : Type := Mentions {
  candidate_mention_scores : list xreal;
  mention_starts : list Z;
  mention_ends : list Z;
  mention_emb : list vec;
  mention_scores : list xreal
}.

Record graph_config : Type := GraphConfig {
  max_mention_width : Z;
  max_antecedents : Z;
  scoring : scoring_params;
  genre_embeddings : list vec
}.

(** [tf.squeeze(x, 1)]. *)
Definition tf_squeeze1 {A : Type} (t : list (list A)) : result (list A) :=
  mapM (λ v, match v with [x] => Ok x | _ => Raise InvalidArgumentError end) t.

(** The sentence number of every word, as [flatten_emb_by_sentence] leaves
    it after masking by [text_len]. *)
Definition flattened_sentence_indices (text_len : list Z) : list Z :=
  concat (imap (λ i len, replicate (Z.to_nat len) (Z.of_nat i)) text_len).

Section Graph.
Context {E : Type}.
(** Collaborators: the encoder and mention embedding ([get_mention_emb]
    over the encoded text of the document), the mention scorer, the native
    operations [spans], [extract_mentions] and [get_antecedents], the
    mention budget [floor(num_words * mention_ratio)], and those of
    [get_antecedent_scores]. *)
Context (get_mention_emb : tensors E → list Z → list Z → list vec).
Context (get_mention_scores : list vec → tensor2).
Context (spans : list Z → Z → list Z * list Z).
Context (extract_mentions : list xreal → list Z → list Z → Z → list Z).
Context (mention_budget : Z → Z).
Context (get_antecedents :
  list Z → list Z → list Z → list Z → list Z → Z
  → list (list Z) * list (list bool) * list Z).
Context (ffnn : tensor3 → tensor3).
Context (distance_bins : Z → Z).
Context (dropout : nat → nat → nat → xreal → xreal).

(** Lines 661-696: the mention set, from the gold spans or from span
    enumeration, scoring and pruning. *)
Definition mention_module (train_on_gold : bool) (g : graph_config)
    (t : tensors E) : result mentions :=
  if train_on_gold then
    let candidate_mention_emb := get_mention_emb t (gold_starts t) (gold_ends t) in
    let candidate_mention_scores := replicate (length (gold_ends t)) (Fin 1) in
    Ok (Mentions candidate_mention_scores (gold_starts t) (gold_ends t)
          candidate_mention_emb candidate_mention_scores)
  else
    let candidates :=
      spans (flattened_sentence_indices (text_len t)) (max_mention_width g) in
    let candidate_starts := fst candidates in
    let candidate_ends := snd candidates in
    let candidate_mention_emb := get_mention_emb t candidate_starts candidate_ends in
    candidate_mention_scores ←! tf_squeeze1 (get_mention_scores candidate_mention_emb);
    let k := mention_budget (py_sum (text_len t)) in
    let predicted_mention_indices :=
      extract_mentions candidate_mention_scores candidate_starts candidate_ends k in
    mention_starts ←! mapM (tf_gather candidate_starts) predicted_mention_indices;
    mention_ends ←! mapM (tf_gather candidate_ends) predicted_mention_indices;
    mention_emb ←! mapM (tf_gather candidate_mention_emb) predicted_mention_indices;
    mention_scores ←! mapM (tf_gather candidate_mention_scores) predicted_mention_indices;
    Ok (Mentions candidate_mention_scores mention_starts mention_ends
          mention_emb mention_scores).

(** Lines 700-722: the antecedent module and the loss, for the mention set
    [m]. *)
Definition antecedent_module (g : graph_config) (t : tensors E) (genre_emb : vec)
    (m : mentions)
    : result ((list xreal * list Z * list Z * list (list Z) * tensor2) * xreal) :=
  mention_speaker_ids ←! mapM (tf_gather (speaker_ids t)) (mention_starts m);
  let a := get_antecedents (mention_starts m) (mention_ends m)
             (gold_starts t) (gold_ends t) (cluster_ids t) (max_antecedents g) in
  let antecedents := fst (fst a) in
  let antecedent_labels := snd (fst a) in
  let antecedents_len := snd a in
  antecedent_scores ←!
    get_antecedent_scores ffnn distance_bins dropout (scoring g)
      (mention_emb m) (mention_scores m) antecedents antecedents_len
      mention_speaker_ids genre_emb;
  loss ←! document_loss antecedent_scores antecedent_labels;
  Ok ((candidate_mention_scores m, mention_starts m, mention_ends m,
       antecedents, antecedent_scores), loss).

(** [CorefModel.get_predictions_and_loss], from the genre embedding on. *)
Definition get_predictions_and_loss (train_on_gold : bool) (g : graph_config)
    (t : tensors E)
    : result ((list xreal * list Z * list Z * list (list Z) * tensor2) * xreal) :=
  genre_emb ←! tf_gather (genre_embeddings g) (Z.of_nat (genre t));
  m ←! mention_module train_on_gold g t;
  antecedent_module g t genre_emb m.
End Graph.

(** ** Construction *)

(** The arguments of [CorefModel.__init__] that decide how far it gets;
    [arg_embedder] is [None] for the default [embedder=None], otherwise the
    [dim] attribute of the embedder; [arg_char_vocab] is [None] for the
    default [char_vocab=None], otherwise the number of its entries. *)
Record init_args : Type := InitArgs {
  arg_embedder : option Z;
  arg_emb_lowercase : bool;
  arg_emb_format : string;
  arg_char_vocab : option nat;
  arg_char_embedding_size : Z;
  arg_filter_widths : list Z;
  arg_max_training_sentences : Z;
  arg_genres : list string;
  arg_optimizer : string;
  arg_use_metadata : bool;
  arg_use_features : bool;
  arg_train_on_gold : bool;
  arg_random_seed : Z
}.

(** What the constructor does to the graph and the session, in order. *)
Inductive tf_effect : Type :=
| CreatePlaceholders
| CreateQueue
| BuildGraph
| CreateGlobalStep
| ComputeGradients
| ApplyGradients (optimizer : string)
| SetRandomSeed (seed : Z)
| CreateSession
| RunInitializer
| ReadCheckpoint.

Record coref_model : Type := CorefModel {
  embedding_size : Z;
  config : model_config
}.

Definition emb_format_error (fmt : string) : exn :=
  ConfigError ("Embedding format must be 'std_emb' or 'cached', but '"
               +:+ fmt +:+ "' was found.").

(** [CorefModel.__init__]: the effects performed and the outcome.  The
    graph is built by [get_predictions_and_loss] on the dequeued tensors:
    [len(self.char_dict)] is a [TypeError] for the default [char_vocab=None]
    when character embeddings are on, and the concatenation of the feature
    embeddings is a [ValueError] when both feature switches are off; the
    other steps of the construction are library calls, taken to succeed. *)
Definition init (a : init_args) : list tf_effect * result coref_model :=
  match arg_embedder a with
  | None => ([], Raise AttributeError)
  | Some dim =>
      if negb (bool_decide (arg_emb_format a ∈ ["std_emb"; "cached"])) then
        ([], Raise (emb_format_error (arg_emb_format a)))
      else
        let cfg :=
          ModelConfig (arg_emb_lowercase a) (arg_emb_format a)
            (arg_filter_widths a) (arg_max_training_sentences a)
            (enumerate_map (arg_genres a)) (arg_train_on_gold a) in
        let built :=
          [CreatePlaceholders; CreateQueue; BuildGraph; CreateGlobalStep;
           ComputeGradients] in
        if (0 <? arg_char_embedding_size a)
           && bool_decide (arg_char_vocab a = None)
        then ([CreatePlaceholders; CreateQueue], Raise TypeError)
        else if negb (arg_use_metadata a || arg_use_features a)
        then ([CreatePlaceholders; CreateQueue], Raise ValueError)
        else if bool_decide (arg_optimizer a ∈ ["adam"; "sgd"]) then
          (built ++ [ApplyGradients (arg_optimizer a);
                     SetRandomSeed (arg_random_seed a);
                     CreateSession; RunInitializer; ReadCheckpoint],
           Ok (CorefModel dim cfg))
        else (built, Raise KeyError)
  end.

(** ** [CharConnector] *)

(** [CharConnector.__call__]: every sample joined on the empty separator. *)
Definition char_connector_call (batch : list (list string)) : list string :=
  map (String.concat EmptyString) batch.

(** ** Flattening by sentence *)

(** The positions at which a mask holds: [tf.where(mask)]. *)
Definition mask_positions (mask : list bool) : list Z :=
  map (λ p : nat * bool, Z.of_nat (fst p))
    (filter (λ p : nat * bool, snd p = true) (zip (seq 0 (length mask)) mask)).

(** [tf.boolean_mask(x, mask)] along the first axis, for a mask whose size
    is computed when the graph runs (here it is reshaped to
    [num_sentences * max_sentence_length]): the entries of [x] at the
    positions where the mask holds are gathered.  A position past the end of
    [x] is the error of [tf.gather]; a mask shorter than [x] selects among
    the first entries of [x]. *)
Definition tf_boolean_mask {A : Type} (x : list A) (mask : list bool)
    : result (list A) :=
  mapM (tf_gather x) (mask_positions mask).

(** [CorefModel.flatten_emb_by_sentence] on a tensor given by its rows, one
    row per sentence: the reshape puts the rows one after the other, then the
    mask picks the entries.  The entries are numbers for rank 2 and vectors
    for rank 3; other ranks do not have this type. *)
Definition flatten_emb_by_sentence {A : Type} (emb : list (list A))
    (text_len_mask : list bool) : result (list A) :=
  tf_boolean_mask (concat emb) text_len_mask.

(** Lines 648-649: the mask of the true words of every sentence, reshaped
    to one row. *)
Definition text_len_mask (text_len : list Z) (max_sentence_length : nat)
    : list bool :=
  concat (tf_sequence_mask text_len max_sentence_length).

(** Lines 672-673: the number of the sentence, tiled along the words. *)
Definition sentence_indices (num_sentences max_sentence_length : nat)
    : list (list Z) :=
  map (λ i, replicate max_sentence_length (Z.of_nat i)) (seq 0 num_sentences).

(** ** [__call__] *)

(** [x <= y] on graph values. *)
Definition xle (x y : xreal) : bool :=
  match x, y with
  | NaN, _ | _, NaN => false
  | NegInf, _ => true
  | _, PosInf => true
  | Fin a, Fin b => if Rle_dec a b then true else false
  | _, _ => false
  end.

(** The comparison of [np.argmax] on the scores the session returns. *)
Definition xreal_gt (x best : xreal) : bool :=
  negb (xle x best) && negb (match best with NaN => true | _ => false end).

(** The positional arguments of [__call__]: three, or four with the gold
    clusters. *)
Inductive call_args : Type :=
| Args3 (sentences speakers : list (list string)) (doc_key : string)
| Args4 (sentences speakers : list (list string)) (doc_key : string)
        (clusters : list (list span)).

(** The tuple assignment at the head of [__call__] and the batch built from
    it: a wrong number of arguments is a [ValueError]. *)
Definition call_batch (train_on_gold : bool) (args : call_args) : result example :=
  match train_on_gold, args with
  | true, Args4 sentences speakers doc_key clusters =>
      Ok (MkExample sentences speakers doc_key clusters)
  | false, Args3 sentences speakers doc_key =>
      Ok (MkExample sentences speakers doc_key [])
  | _, _ => Raise ValueError
  end.

Section Call.
Context {E : Type}.
Context (embedder : embedder_arg → list E).
Context (char_dict : Ascii.ascii → result Z).
Context (lower : string → string).
Context (set_order : list string → list string).
Context (get_mention_emb : tensors E → list Z → list Z → list vec).
Context (get_mention_scores : list vec → tensor2).
Context (spans : list Z → Z → list Z * list Z).
Context (extract_mentions : list xreal → list Z → list Z → Z → list Z).
Context (mention_budget : Z → Z).
Context (get_antecedents :
  list Z → list Z → list Z → list Z → list Z → Z
  → list (list Z) * list (list bool) * list Z).
Context (ffnn : tensor3 → tensor3).
Context (distance_bins : Z → Z).
Context (dropout : nat → nat → nat → xreal → xreal).

(** [CorefModel.__call__]: the batch is tensorised with [is_training] false
    (no offset is drawn), the graph is run and its output decoded. *)
Definition call (cfg : model_config) (g : graph_config) (args : call_args)
    : result (list (list (list span)) * list (gmap span (list span))) :=
  batch ←! call_batch (train_on_gold cfg) args;
  t ←! tensorize_example embedder char_dict lower set_order cfg 0 batch false;
  p ←! get_predictions_and_loss get_mention_emb get_mention_scores spans
         extract_mentions mention_budget get_antecedents ffnn distance_bins
         dropout (train_on_gold cfg) g t;
  let mention_starts := snd (fst (fst (fst (fst p)))) in
  let mention_ends := snd (fst (fst (fst p))) in
  let antecedents := snd (fst (fst p)) in
  let antecedent_scores := snd (fst p) in
  out ←! decode xreal_gt mention_starts mention_ends antecedents antecedent_scores;
  Ok ([fst out], [snd out]).
End Call.

(** * Specification vocabulary *)

(** ** Decoding *)

(** [a] is a matrix of [n] rows and [m] columns. *)
Definition has_shape {A : Type} (a : list (list A)) (n m : nat) : Prop :=
  length a = n ∧ Forall (λ row, length row = m) a.

(** Row [i] of the antecedents matrix holds only indices below [i]. *)
Definition rows_earlier (antecedents : list (list Z)) : Prop :=
  ∀ (i : nat) row v, antecedents !! i = Some row → v ∈ row → v < Z.of_nat i.

(** Mention [i] points at mention [j] as its antecedent. *)
Definition antecedent_edge (predicted_antecedents : list Z) (i j : nat) : Prop :=
  predicted_antecedents !! i = Some (Z.of_nat j).

(** The cluster ids of the dict are indices of the cluster list. *)
Definition ids_in_range (st : clustering) : Prop :=
  map_Forall (λ _ c, (c < length (predicted_clusters st))%nat)
    (mention_to_predicted st).

(** What [get_predicted_antecedents] stores for mention [i]: [-1] when the
    best slot is slot 0, otherwise the candidate of the best slot. *)
Definition greedy_choice {score : Type} (gt : score → score → bool)
    (antecedents : list (list Z))
    (antecedent_scores : list (list score)) (i : nat) (p : Z) : Prop :=
  ∃ row k,
    antecedent_scores !! i = Some row ∧ np_argmax gt row = Ok k
    ∧ ((k = 0 ∧ p = -1)
       ∨ (0 < k ∧ ∃ arow, antecedents !! i = Some arow
                          ∧ arow !! Z.to_nat (k - 1) = Some p)).

(** Mention [x] is a member of cluster number [c]. *)
Definition in_cluster (clusters : list (list span)) (x : span) (c : nat) : Prop :=
  ∃ l, clusters !! c = Some l ∧ x ∈ l.






(** The run returned [r] on the heap [h] and the caller finds the value [v]
    there: the two references point at the list of tuples and at the dict,
    or the run raised the exception [v] is. *)
Definition returns_as {score : Type} (h : heap score)
    (r : result (loc * loc))
    (v : result (list (list span) * gmap span (list span))) : Prop :=
  match r, v with
  | Ok (tuples, d), Ok (cl, m2p) =>
      h !! tuples = Some (PyTuples cl) ∧ h !! d = Some (PyTupleDict m2p)
  | Raise e, Raise e' => e = e'
  | _, _ => False
  end.

(** A heap with the four arrays of a two-mention document, as the caller of
    the decoder holds them: starts, ends, antecedents, scores. *)
Definition two_mention_heap : heap spec_float :=
  [Ndarray1 [0; 2]; Ndarray1 [0; 2]; Ndarray2 [[0]; [0]];
   NdarrayScores [[f_zero; f_neg_inf]; [f_zero; f_one]]].

(** ** Documents *)

(** The two-sentence document of the end-to-end scenario. *)
Definition john_he : example :=
  MkExample [["John"; "arrived"]; ["He"; "smiled"]] [["A"; "A"]; ["A"; "A"]]
    "bc/john_he" [[(0, 0); (2, 2)]].

(** The default configuration: no lowercasing, direct embeddings, filter
    widths 3, 4, 5, at most 50 training sentences, one genre. *)
Definition john_he_config : model_config :=
  ModelConfig false "std_emb" [3; 4; 5] 50 {[ "bc" := 0%nat ]} true.

(** A character vocabulary: the code of the character. *)
Definition char_code (c : Ascii.ascii) : result Z :=
  Ok (Z.of_nat (Ascii.nat_of_ascii c)).

(** Every span processed so far has, at its position in the sorted gold
    mentions, the number of a cluster that holds it. *)
Definition ids_assigned (clusters : list (list span)) (gold_mentions : list span)
    (done : list span) (ids : list Z) : Prop :=
  length ids = length gold_mentions
  ∧ ∀ k x, gold_mentions !! k = Some x → x ∈ done →
           ∃ c cl, ids !! k = Some (Z.of_nat c) ∧ clusters !! c = Some cl ∧ x ∈ cl.

(** The claim of the specification: a mention of a gold cluster has a
    cluster id other than 0. *)
Definition gold_ids_nonzero (clusters : list (list span))
    (gold_mentions : list span) (ids : list Z) : Prop :=
  ∀ (k : nat) x, gold_mentions !! k = Some x → x ∈ flatten clusters →
    ∃ cid, ids !! k = Some cid ∧ cid ≠ 0.

(** A three-sentence document and a configuration that keeps two
    sentences. *)
Definition three_sentences : example :=
  MkExample [["a"]; ["b"; "c"]; ["d"]] [["A"]; ["A"; "B"]; ["B"]]
    "bc/three" [[(0, 0); (3, 3)]; [(1, 2)]].

Definition cap_two : model_config :=
  ModelConfig false "std_emb" [3; 4; 5] 2 {[ "bc" := 0%nat ]} true.

Definition embed_unit (a : embedder_arg) : list () :=
  match a with
  | EmbSentences sentences => map (λ _, ()) sentences
  | EmbDocKey _ => []
  end.

(** The untruncated tuple of [three_sentences]. *)
Definition three_tensors : tensors () :=
  Eval vm_compute in
    match tensorize_full embed_unit char_code (λ w, w) remove_dups cap_two
            three_sentences true with
    | Ok t => t
    | Raise _ => Tensors [] [] [] [] 0%nat false [] [] []
    end.

(** ** Loss and antecedent scores *)

(** The scores of a row that carry a gold label. *)
Definition gold_scores_of (row : list xreal) (labels : list bool) : list xreal :=
  map fst (filter (λ p, p.2 = true) (zip row labels)).

(** The matrix with entry [F i j] at row [i < n], column [j < m]. *)
Definition tab {A : Type} (n m : nat) (F : nat → nat → A) : list (list A) :=
  map (λ i, map (λ j, F i j) (seq 0 m)) (seq 0 n).

(** The feature vector of the pair (mention [i], candidate [a]) before
    dropout: same-speaker and genre embeddings, then the embedding of the
    distance bucket. *)
Definition pair_features (distance_bins : Z → Z) (p : scoring_params)
    (mention_speaker_ids : list Z) (genre_emb : vec) (i : nat) (a : Z) : vec :=
  (if use_metadata p then
     (if bool_decide (nth i mention_speaker_ids 0
                      = nth (Z.to_nat a) mention_speaker_ids 0)
      then snd (same_speaker_emb p) else fst (same_speaker_emb p))
     ++ genre_emb
   else [])
  ++ (if use_features p then
        nth (Z.to_nat (distance_bins (Z.of_nat i - a))) (mention_distance_emb p) []
      else []).

(** The input of the feed-forward network for slot [j] of mention [i], whose
    candidate is mention [a]: target embedding, candidate embedding, their
    elementwise product, feature embeddings. *)
Definition pair_emb_entry (distance_bins : Z → Z)
    (dropout : nat → nat → nat → xreal → xreal) (p : scoring_params)
    (mention_emb : list vec) (mention_speaker_ids : list Z) (genre_emb : vec)
    (i j : nat) (a : Z) : vec :=
  nth i mention_emb []
  ++ nth (Z.to_nat a) mention_emb []
  ++ zip_with xmul (nth (Z.to_nat a) mention_emb []) (nth i mention_emb [])
  ++ imap (dropout i j)
       (pair_features distance_bins p mention_speaker_ids genre_emb i a).

(** The score of slot [j + 1] of mention [i]. *)
Definition antecedent_score_entry (out : list (list R)) (ms : list R)
    (antecedents : list (list Z)) (antecedents_len : list Z) (i j : nat) : xreal :=
  if Z.of_nat j <? nth i antecedents_len 0 then
    Fin (nth j (nth i out []) 0%R
         + nth i ms 0%R
         + nth (Z.to_nat (nth j (nth i antecedents []) 0%Z)) ms 0%R)%R
  else NegInf.

(** A network that scores every pair 0, a clipping bucket function and no
    dropout, for a two-mention document. *)
Definition ffnn_zero (t : tensor3) : tensor3 := map (map (λ _, [Fin 0])) t.
Definition clip_bins (z : Z) : Z := Z.min 9 (Z.max 0 z).
Definition no_dropout (_ _ _ : nat) (x : xreal) : xreal := x.
Definition toy_params : scoring_params :=
  ScoringParams true true ([Fin 0], [Fin 1]) (replicate 10 [Fin 0]).

(** ** Construction *)

(** The claim of the specification: an [emb_format] other than the two
    supported ones makes the constructor raise the configuration error,
    whatever the other arguments are. *)
Definition emb_format_rejected (a : init_args) : Prop :=
  arg_emb_format a ∉ ["std_emb"; "cached"] →
  snd (init a) = Raise (emb_format_error (arg_emb_format a)).

(** ** Clusters, gold ids and tensors, for the further properties *)

(** Cluster [l] lists the spans of the mentions [js], which are in document
    order and among the first [i] mentions; every mention after the first
    has a predicted antecedent whose span is an earlier member of [l]. *)
Definition antecedent_chain (M : list span) (preds : list Z) (i : nat)
    (js : list nat) (l : list span) : Prop :=
  Forall2 (λ j x, M !! j = Some x) js l
  ∧ StronglySorted lt js
  ∧ Forall (λ j, (j < i)%nat) js
  ∧ ∀ (k j : nat), (0 < k)%nat → js !! k = Some j →
      ∃ p y, preds !! j = Some p ∧ 0 <= p < Z.of_nat j
             ∧ M !! Z.to_nat p = Some y ∧ y ∈ take k l.

(** The state of the clustering loop after the first [i] mentions, whatever
    the spans are: a key of the dict is a member of the cluster the dict
    gives for it, a member of a cluster is a key, and a cluster is a chain of
    at least two mentions. *)
Definition decoded_upto (M : list span) (preds : list Z) (i : nat)
    (st : clustering) : Prop :=
  (∀ x c, mention_to_predicted st !! x = Some c
          → in_cluster (predicted_clusters st) x c)
  ∧ (∀ x, x ∈ concat (predicted_clusters st)
          → is_Some (mention_to_predicted st !! x))
  ∧ (∀ c l, predicted_clusters st !! c = Some l →
       (2 ≤ length l)%nat ∧ ∃ js, antecedent_chain M preds i js l).

(** [k] is the last position of [x] in [l]. *)
Definition last_position {A : Type} (l : list A) (x : A) (k : nat) : Prop :=
  l !! k = Some x ∧ ∀ k' : nat, (k < k')%nat → l !! k' ≠ Some x.

(** [c] is the last cluster of [clusters] that lists [x]. *)
Definition last_cluster (clusters : list (list span)) (x : span) (c : nat) : Prop :=
  ∃ cl, clusters !! c = Some cl ∧ x ∈ cl
        ∧ ∀ (c' : nat) cl', (c < c')%nat → clusters !! c' = Some cl' → x ∉ cl'.

(** The cluster-id array after the clusters [done] have been gone through:
    the last position of a span in the sorted gold mentions holds the id of
    the last cluster that lists the span, every other position holds 0. *)
Definition ids_written (gm : list span) (done : list (list span))
    (ids : list Z) : Prop :=
  length ids = length gm
  ∧ ∀ (k : nat) x, gm !! k = Some x →
      (last_position gm x k →
         (∀ c, last_cluster done x c → ids !! k = Some (Z.of_nat c))
         ∧ (x ∉ concat done → ids !! k = Some 0))
      ∧ (¬ last_position gm x k → ids !! k = Some 0).

(** The sentences whose characters are looked up: lowercased when the
    configuration says so. *)
Definition cased_sentences (cfg : model_config) (lower : string → string)
    (ex : example) : list (list string) :=
  if emb_lowercase cfg then map (map lower) (ex_sentences ex) else ex_sentences ex.

(** [char_index] is a block of [N] sentences of [L] words of [W] ids. *)
Definition has_shape3 {A : Type} (a : list (list (list A))) (N L W : nat) : Prop :=
  length a = N ∧ Forall (λ s, has_shape s L W) a.

(** Collaborators for a run of [__call__] on the two-mention document:
    every mention embedded as one zero, and the later mention given the
    earlier one as its only candidate. *)
Definition embed_zero {E : Type} (_ : tensors E) (starts _ : list Z) : list vec :=
  map (λ _, [Fin 0]) starts.
Definition no_scores (_ : list vec) : tensor2 := [].
Definition no_spans (_ : list Z) (_ : Z) : list Z * list Z := ([], []).
Definition no_extraction (_ : list xreal) (_ _ : list Z) (_ : Z) : list Z := [].
Definition earlier_candidate (_ _ _ _ _ : list Z) (_ : Z)
    : list (list Z) * list (list bool) * list Z :=
  ([[0]; [0]], [[true; false]; [false; true]], [0; 1]).
Definition toy_graph : graph_config := GraphConfig 10 1 toy_params [[Fin 0]].

(** The tuple of the two-sentence document, not in training. *)
Definition john_he_tensors : tensors () :=
  Eval vm_compute in
    match tensorize_example embed_unit char_code (λ w, w) remove_dups
            john_he_config 0 john_he false with
    | Ok t => t
    | Raise _ => Tensors [] [] [] [] 0%nat false [] [] []
    end.

(** The truncated tuple of [three_sentences], for the offset 1. *)
Definition three_truncated : tensors () :=
  Eval vm_compute in
    match truncate_example cap_two 1 three_tensors with
    | Ok t => t
    | Raise _ => Tensors [] [] [] [] 0%nat false [] [] []
    end.

(** A mention scorer, a span enumeration and an extraction for a run of the
    mention module without gold mentions: two candidates, extracted in the
    reverse order. *)
Definition score_zero (embs : list vec) : tensor2 := map (λ _, [Fin 0]) embs.
Definition two_spans (_ : list Z) (_ : Z) : list Z * list Z := ([0; 2], [1; 3]).
Definition extract_reversed (_ : list xreal) (_ _ : list Z) (_ : Z) : list Z :=
  [1; 0].
Definition two_mentions : mentions :=
  Mentions [Fin 0; Fin 0] [2; 0] [3; 1] [[Fin 0]; [Fin 0]] [Fin 0; Fin 0].

(** * Properties *)

(** ** The result monad and the loops *)

Lemma bind_Ok {A B : Type} (r : result A) (k : A → result B) (b : B) :
  bind r k = Ok b → ∃ a, r = Ok a ∧ k a = Ok b.
Proof. destruct r as [a|e]; simpl; [eauto | discriminate]. Qed.

Lemma mapM_pure {A B : Type} (f : A → B) (l : list A) :
  mapM (λ x, Ok (f x)) l = Ok (map f l).
Proof. induction l as [|x l IH]; simpl; [done | by rewrite IH]. Qed.

Lemma mapM_ext_in {A B : Type} (f g : A → result B) (l : list A) :
  (∀ x, x ∈ l → f x = g x) → mapM f l = mapM g l.
Proof.
  induction l as [|x l IH]; intros Hfg; simpl; [done |].
  rewrite (Hfg x) by left. rewrite IH; [done |].
  intros y Hy. apply Hfg. by right.
Qed.

(** Total correctness of a loop: an invariant that every iteration
    re-establishes, without raising, holds at the end. *)
Lemma for_enumerate_inv {A S : Type} (body : nat → A → S → result S)
    (P : nat → S → Prop) (l : list A) :
  ∀ (i : nat) (s : S),
    P i s →
    (∀ k x s0, l !! k = Some x → P (i + k)%nat s0 →
       ∃ s1, body (i + k)%nat x s0 = Ok s1 ∧ P (Datatypes.S (i + k)) s1) →
    ∃ s', for_enumerate body i l s = Ok s' ∧ P (i + length l)%nat s'.
Proof.
  induction l as [|x l IH]; intros i s HP Hstep; simpl.
  - exists s. by rewrite Nat.add_0_r.
  - destruct (Hstep 0%nat x s) as (s1 & Hb & HP1); [done | by rewrite Nat.add_0_r |].
    rewrite Nat.add_0_r in Hb, HP1. rewrite Hb. simpl.
    destruct (IH (Datatypes.S i) s1 HP1) as (s' & Hs' & HP').
    + intros k y s0 Hy HP0.
      specialize (Hstep (Datatypes.S k) y s0 Hy).
      rewrite Nat.add_succ_r in Hstep. by apply Hstep.
    + exists s'. split; [done |]. by rewrite Nat.add_succ_r.
Qed.

(** Partial correctness: when the loop returns, the invariant holds. *)
Lemma for_enumerate_inv_ok {A S : Type} (body : nat → A → S → result S)
    (P : nat → S → Prop) (l : list A) :
  ∀ (i : nat) (s s' : S),
    P i s →
    (∀ k x s0 s1, l !! k = Some x → P (i + k)%nat s0 →
       body (i + k)%nat x s0 = Ok s1 → P (Datatypes.S (i + k)) s1) →
    for_enumerate body i l s = Ok s' → P (i + length l)%nat s'.
Proof.
  induction l as [|x l IH]; intros i s s' HP Hstep; simpl.
  - intros [= <-]. by rewrite Nat.add_0_r.
  - intros (s1 & Hb & Hrest)%bind_Ok.
    rewrite Nat.add_succ_r. apply (IH (Datatypes.S i) s1 s'); [| | done].
    + specialize (Hstep 0%nat x s s1). rewrite Nat.add_0_r in Hstep. by apply Hstep.
    + intros k y s0 s2 Hy HP0 Hb2.
      specialize (Hstep (Datatypes.S k) y s0 s2 Hy).
      rewrite Nat.add_succ_r in Hstep. by apply Hstep.
Qed.

(** A loop whose iterations never raise [e] does not raise [e]. *)
Lemma for_enumerate_no_raise {A S : Type} (body : nat → A → S → result S)
    (e : exn) (l : list A) :
  ∀ (i : nat) (s : S),
    (∀ k x s0, l !! k = Some x → body (i + k)%nat x s0 ≠ Raise e) →
    for_enumerate body i l s ≠ Raise e.
Proof.
  induction l as [|x l IH]; intros i s Hstep; simpl; [done |].
  destruct (body i x s) as [s1|e1] eqn:Hb; simpl.
  - apply IH. intros k y s0 Hy.
    specialize (Hstep (Datatypes.S k) y s0 Hy). by rewrite Nat.add_succ_r in Hstep.
  - intros [= ->]. apply (Hstep 0%nat x s); [done |]. by rewrite Nat.add_0_r.
Qed.

Lemma np_index_nat {A : Type} (a : list A) (i : nat) (x : A) :
  a !! i = Some x → np_index a (Z.of_nat i) = Ok x.
Proof.
  intros Hx. pose proof (lookup_lt_Some _ _ _ Hx) as Hlt. unfold np_index.
  replace (Z.of_nat i <? 0) with false by (symmetry; apply Z.ltb_ge; lia).
  replace (0 <=? Z.of_nat i) with true by (symmetry; apply Z.leb_le; lia).
  replace (Z.of_nat i <? Z.of_nat (length a)) with true
    by (symmetry; apply Z.ltb_lt; lia).
  simpl. by rewrite Nat2Z.id, Hx.
Qed.

(** ** [CharConnector] *)

Lemma append_empty_r (x : string) : x +:+ EmptyString = x.
Proof.
  induction x as [|c x IHx]; [done |].
  change (String c (x +:+ EmptyString) = String c x). by rewrite IHx.
Qed.

Lemma concat_empty_sep (l : list string) :
  String.concat EmptyString l = foldr String.append EmptyString l.
Proof.
  induction l as [|x [|y l] IH]; simpl in *.
  - done.
  - by rewrite append_empty_r.
  - by rewrite IH.
Qed.

(** C10.  [CharConnector.__call__] keeps the length of the batch, its i-th
    output is the concatenation, in order, of the strings of the i-th
    input sequence (for one-character strings: the string of those
    characters), an empty sequence gives the empty string and an empty batch
    the empty list. *)
Theorem char_connector_call_spec :
  (∀ batch : list (list string),
     length (char_connector_call batch) = length batch
     ∧ ∀ i : nat,
         char_connector_call batch !! i
         = (λ sample, foldr String.append EmptyString sample) <$> batch !! i)
  ∧ (∀ chars : list Ascii.ascii,
       char_connector_call [map (λ c, String c EmptyString) chars]
       = [String.string_of_list_ascii chars])
  ∧ char_connector_call [[]] = [EmptyString]
  ∧ char_connector_call [] = [].
Proof.
  split; [| split; [| done]].
  - intros batch. unfold char_connector_call. split; [by rewrite length_map |].
    intros i. rewrite list_lookup_fmap.
    destruct (batch !! i) as [sample|]; simpl; [| done].
    by rewrite concat_empty_sep.
  - intros chars. unfold char_connector_call. simpl. f_equal.
    rewrite concat_empty_sep.
    induction chars as [|c chars IH]; simpl; [done | by rewrite IH].
Qed.

(** ** Construction *)

(** C9, as stated, fails: the constructor reads [self.embedder.dim] before
    it checks the format, so with the default [embedder=None] an unsupported
    format is not reported: the constructor raises [AttributeError]. *)
Lemma init_without_embedder :
  init (InitArgs None false "elmo" None 8 [3; 4; 5] 50 ["bc"] "adam" true true
          true 42)
  = ([], Raise AttributeError)
  ∧ ¬ emb_format_rejected
        (InitArgs None false "elmo" None 8 [3; 4; 5] 50 ["bc"] "adam" true true
           true 42).
Proof.
  split; [reflexivity |]. intros Hrej.
  assert (@Raise coref_model AttributeError = Raise (emb_format_error "elmo"))
    as Heq; [| done].
  apply Hrej. simpl. compute_done.
Qed.

(** C9, amended.  With an embedder supplied, an [emb_format] other than
    ["std_emb"] and ["cached"] makes the constructor raise the configuration
    error before any placeholder, queue, graph or session exists; with either
    supported value the constructor raises no configuration error. *)
Theorem init_emb_format (a : init_args) :
  (arg_embedder a ≠ None →
   arg_emb_format a ∉ ["std_emb"; "cached"] →
   init a = ([], Raise (emb_format_error (arg_emb_format a))))
  ∧ (arg_emb_format a ∈ ["std_emb"; "cached"] →
     ∀ msg, snd (init a) ≠ Raise (ConfigError msg)).
Proof.
  unfold init. split.
  - intros Hemb Hfmt. destruct (arg_embedder a) as [dim|]; [| done].
    by rewrite bool_decide_eq_false_2.
  - intros Hfmt msg. destruct (arg_embedder a) as [dim|]; [| done].
    rewrite bool_decide_eq_true_2 by done. simpl.
    destruct (_ && _); [done |]. destruct (negb _); [done |].
    by destruct (bool_decide (arg_optimizer a ∈ ["adam"; "sgd"])).
Qed.

Lemma init_emb_format_witness :
  init (InitArgs (Some 300) false "elmo" (Some 128%nat) 8 [3; 4; 5] 50 ["bc"]
              "adam" true true true 42)
  = ([], Raise (emb_format_error "elmo"))
  ∧ ∀ msg,
      snd (init (InitArgs (Some 300) false "cached" (Some 128%nat) 8 [3; 4; 5] 50 ["bc"]
                   "adam" true true true 42))
      ≠ Raise (ConfigError msg).
Proof.
  split.
  - apply (init_emb_format
             (InitArgs (Some 300) false "elmo" (Some 128%nat) 8 [3; 4; 5] 50 ["bc"]
              "adam" true true true 42));
      simpl; [done | compute_done].
  - apply (init_emb_format
             (InitArgs (Some 300) false "cached" (Some 128%nat) 8 [3; 4; 5] 50 ["bc"]
                   "adam" true true true 42)).
    simpl. compute_done.
Defined.

(** ** Decoding *)

Section DecodeFacts.
Context {score : Type} (gt : score → score → bool).

Lemma argmax_from_bound (l : list score) :
  ∀ best besti i, (besti < i)%nat →
    (argmax_from gt best besti i l < i + length l)%nat.
Proof.
  induction l as [|x l IH]; intros best besti i Hlt; simpl; [lia |].
  destruct (gt x best).
  - specialize (IH x i (S i)). lia.
  - specialize (IH best besti (S i)). lia.
Qed.

Lemma np_argmax_bound (row : list score) (k : Z) :
  np_argmax gt row = Ok k → 0 <= k < Z.of_nat (length row).
Proof.
  destruct row as [|x l]; simpl; [done |]. intros [= <-].
  pose proof (argmax_from_bound l x 0%nat 1%nat). lia.
Qed.

(** For a comparison that is the strict part of a total preorder, the slot
    chosen by [np.argmax] holds a score that no score of the row exceeds. *)
Lemma argmax_from_maximal (l : list score) :
  (∀ x, gt x x = false) →
  (∀ x y, gt x y = true → gt y x = false) →
  (∀ x y z, gt x y = false → gt y z = false → gt x z = false) →
  ∀ best besti i, (besti < i)%nat →
    ∃ v, ((argmax_from gt best besti i l = besti ∧ v = best)
          ∨ ((i ≤ argmax_from gt best besti i l)%nat
             ∧ l !! (argmax_from gt best besti i l - i)%nat = Some v))
         ∧ gt best v = false
         ∧ ∀ y, y ∈ l → gt y v = false.
Proof.
  intros Hrefl Hasym Htrans.
  induction l as [|x l IH]; intros best besti i Hlt; simpl.
  - exists best. split; [by left |]. split; [done |]. by intros y ?%elem_of_nil.
  - destruct (gt x best) eqn:Hx.
    + destruct (IH x i (S i)) as (v & Hv & Hxv & Hall); [lia |].
      exists v. split; [| split].
      * right. destruct Hv as [[-> ->]|[Hle Hv]].
        -- split; [lia |]. by rewrite Nat.sub_diag.
        -- split; [lia |].
           by replace (argmax_from gt x i (S i) l - i)%nat
             with (S (argmax_from gt x i (S i) l - S i)) by lia.
      * eapply Htrans; [| exact Hxv]. by apply Hasym.
      * intros y [->|Hy]%elem_of_cons; [done | by apply Hall].
    + destruct (IH best besti (S i)) as (v & Hv & Hbv & Hall); [lia |].
      exists v. split; [| split].
      * destruct Hv as [[-> ->]|[Hle Hv]]; [by left |].
        right. split; [lia |].
        by replace (argmax_from gt best besti (S i) l - i)%nat
          with (S (argmax_from gt best besti (S i) l - S i)) by lia.
      * done.
      * intros y [->|Hy]%elem_of_cons; [| by apply Hall].
        by eapply Htrans.
Qed.

Lemma np_argmax_maximal (row : list score) (k : Z) :
  (∀ x, gt x x = false) →
  (∀ x y, gt x y = true → gt y x = false) →
  (∀ x y z, gt x y = false → gt y z = false → gt x z = false) →
  np_argmax gt row = Ok k →
  ∃ v, row !! Z.to_nat k = Some v ∧ ∀ y, y ∈ row → gt y v = false.
Proof.
  intros Hrefl Hasym Htrans. destruct row as [|x l]; simpl; [done |].
  intros [= <-]. rewrite Nat2Z.id.
  destruct (argmax_from_maximal l Hrefl Hasym Htrans x 0%nat 1%nat)
    as (v & Hv & Hxv & Hall); [lia |].
  exists v. split.
  - destruct Hv as [[-> ->]|[Hle Hv]]; [done |].
    destruct (argmax_from gt x 0 1 l) as [|r]; [lia |].
    simpl in *. by rewrite Nat.sub_0_r in Hv.
  - intros y [->|Hy]%elem_of_cons; [done | by apply Hall].
Qed.

Lemma np_argmax_axis1_total (m : list (list score)) :
  Forall (λ row, row ≠ []) m →
  ∃ ks, np_argmax_axis1 gt m = Ok ks
        ∧ Forall2 (λ row k, np_argmax gt row = Ok k) m ks.
Proof.
  induction 1 as [|row m Hrow _ (ks & Hks & Hall)]; simpl.
  - by exists [].
  - destruct row as [|x l]; [done |]. simpl. rewrite Hks. simpl.
    eexists. split; [done |]. by constructor.
Qed.

Lemma get_predicted_antecedents_total (n m : nat)
    (antecedents : list (list Z)) (antecedent_scores : list (list score)) :
  has_shape antecedents n m →
  has_shape antecedent_scores n (S m) →
  ∃ preds,
    get_predicted_antecedents gt antecedents antecedent_scores = Ok preds
    ∧ length preds = n
    ∧ ∀ i p, preds !! i = Some p →
             greedy_choice gt antecedents antecedent_scores i p.
Proof.
  intros [Han Ham] [Hsn Hsm]. unfold get_predicted_antecedents.
  destruct (np_argmax_axis1_total antecedent_scores) as (ks & -> & Hks).
  { eapply Forall_impl; [exact Hsm |]. intros row Hrow ->. done. }
  simpl. pose proof (Forall2_length _ _ _ Hks) as Hlen.
  destruct (for_enumerate_inv (predicted_antecedents_body antecedents)
              (λ i acc, length acc = i
                        ∧ ∀ j p, acc !! j = Some p →
                                 greedy_choice gt antecedents antecedent_scores j p)
              (map (λ k, k - 1) ks) 0%nat []) as (preds & Hpreds & Hlenp & Hall).
  - split; [done |]. intros j p. by rewrite lookup_nil.
  - intros j idx acc Hidx [Hacc Hinv]. simpl in *.
    apply list_lookup_fmap_Some in Hidx as (k & -> & Hk).
    destruct (Forall2_lookup_r _ _ _ _ _ Hks Hk) as (row & Hrow & Hmax).
    pose proof (np_argmax_bound _ _ Hmax) as Hbound.
    assert (length row = S m) as Hrowlen.
    { eapply (Forall_lookup_1 _ _ _ _ Hsm Hrow). }
    assert (∀ p, ((k = 0 ∧ p = -1)
                  ∨ (0 < k ∧ ∃ arow, antecedents !! j = Some arow
                                     ∧ arow !! Z.to_nat (k - 1) = Some p)) →
                 length (acc ++ [p]) = S j
                 ∧ ∀ j' p', (acc ++ [p]) !! j' = Some p' →
                            greedy_choice gt antecedents antecedent_scores j' p')
      as Hpush.
    { intros p Hp. split; [rewrite length_app; simpl; lia |].
      intros j' p' Hj'. apply lookup_app_Some in Hj' as [Hj'|[Hge Hj']].
      - by apply Hinv.
      - apply list_lookup_singleton_Some in Hj' as [Hj' <-].
        replace j' with j by lia. by exists row, k. }
    unfold predicted_antecedents_body.
    destruct (k - 1 <? 0) eqn:Hneg.
    + apply Z.ltb_lt in Hneg. eexists. split; [done |].
      apply Hpush. left. lia.
    + apply Z.ltb_ge in Hneg.
      destruct (lookup_lt_is_Some_2 antecedents j) as [arow Harow].
      { apply lookup_lt_Some in Hrow. lia. }
      assert (length arow = m) as Harowlen.
      { eapply (Forall_lookup_1 _ _ _ _ Ham Harow). }
      destruct (lookup_lt_is_Some_2 arow (Z.to_nat (k - 1))) as [a Ha]; [lia |].
      unfold np_index2. rewrite Harow.
      replace (np_index arow (k - 1))
        with (np_index arow (Z.of_nat (Z.to_nat (k - 1))))
        by (by rewrite Z2Nat.id by lia).
      rewrite (np_index_nat _ _ _ Ha). simpl.
      eexists. split; [done |]. apply Hpush. right. split; [lia |]. eauto.
  - exists preds. simpl in *. rewrite Hpreds. split; [done |].
    rewrite length_map in Hlenp. split; [lia | done].
Qed.
Lemma np_index_elem {A : Type} (a : list A) (i : Z) (x : A) :
  np_index a i = Ok x → x ∈ a.
Proof.
  unfold np_index. destruct (_ && _); [| done].
  destruct (a !! _) eqn:Hx; [| done]. intros [= <-].
  by eapply list_elem_of_lookup_2.
Qed.

(** Whatever [get_predicted_antecedents] returns for mention [i] is [-1] or
    an entry of row [i] of the antecedents matrix. *)
Lemma get_predicted_antecedents_entries (antecedents : list (list Z))
    (antecedent_scores : list (list score)) (preds : list Z) :
  get_predicted_antecedents gt antecedents antecedent_scores = Ok preds →
  ∀ (i : nat) p, preds !! i = Some p →
    p = -1 ∨ ∃ row, antecedents !! i = Some row ∧ p ∈ row.
Proof.
  unfold get_predicted_antecedents. intros (ks & _ & Hloop)%bind_Ok.
  apply (for_enumerate_inv_ok _
           (λ i acc, length acc = i
                     ∧ ∀ (j : nat) p, acc !! j = Some p →
                         p = -1 ∨ ∃ row, antecedents !! j = Some row ∧ p ∈ row))
    in Hloop as [_ Hall]; [done | |].
  - split; [done |]. intros j p. by rewrite lookup_nil.
  - intros j idx acc acc' _ [Hlen Hacc] Hbody. simpl in *.
    assert (∃ p, acc' = acc ++ [p]
                 ∧ (p = -1 ∨ ∃ row, antecedents !! j = Some row ∧ p ∈ row))
      as (p & -> & Hp).
    { unfold predicted_antecedents_body in Hbody.
      destruct (idx <? 0); [injection Hbody as <-; eauto |].
      apply bind_Ok in Hbody as (a & Ha & [= <-]). exists a. split; [done |].
      right. unfold np_index2 in Ha.
      destruct (antecedents !! j) as [row|]; [| done].
      exists row. split; [done |]. by eapply np_index_elem. }
    split; [rewrite length_app; simpl; lia |].
    intros j' p' [Hj'|[Hge Hj']]%lookup_app_Some; [by apply Hacc |].
    apply list_lookup_singleton_Some in Hj' as [Hj' <-].
    by replace j' with j by lia.
Qed.

End DecodeFacts.

Lemma np_index_raises {A : Type} (a : list A) (i : Z) (e : exn) :
  np_index a i = Raise e → e = IndexError.
Proof.
  unfold np_index. destruct (_ && _); [| by intros [= <-]].
  destruct (a !! _); [done | by intros [= <-]].
Qed.

Lemma cluster_append_raises (c : nat) (x : span) (cl : list (list span)) (e : exn) :
  cluster_append c x cl = Raise e → e = IndexError.
Proof. unfold cluster_append. destruct (cl !! c); [done | by intros [= <-]]. Qed.

(** The assertion is the only source of [AssertionError] in the loop body. *)
Lemma predicted_clusters_body_assertion (ms me : list Z) (i : nat) (p : Z)
    (st : clustering) :
  predicted_clusters_body ms me i p st = Raise AssertionError →
  0 <= p ∧ Z.of_nat i <= p.
Proof.
  unfold predicted_clusters_body. destruct (p <? 0) eqn:Hneg; [done |].
  apply Z.ltb_ge in Hneg. destruct (Z.of_nat i >? p) eqn:Hgt; simpl.
  - intros Hraise. exfalso.
    destruct (np_index ms p) eqn:H1; simpl in Hraise;
      [| by apply np_index_raises in H1; congruence].
    destruct (np_index me p) eqn:H2; simpl in Hraise;
      [| by apply np_index_raises in H2; congruence].
    destruct (np_index ms (Z.of_nat i)) eqn:H3; simpl in Hraise;
      [| by apply np_index_raises in H3; congruence].
    destruct (np_index me (Z.of_nat i)) eqn:H4; simpl in Hraise;
      [| by apply np_index_raises in H4; congruence].
    destruct (cluster_append _ _ _) eqn:H5; simpl in Hraise;
      [done | by apply cluster_append_raises in H5; congruence].
  - intros _. rewrite Z.gtb_ltb in Hgt. apply Z.ltb_ge in Hgt. lia.
Qed.

Lemma antecedent_cluster_ids (st : clustering) (ant : span) :
  ids_in_range st →
  ids_in_range (snd (antecedent_cluster st ant))
  ∧ (fst (antecedent_cluster st ant)
     < length (predicted_clusters (snd (antecedent_cluster st ant))))%nat.
Proof.
  intros Hids. unfold antecedent_cluster.
  destruct (mention_to_predicted st !! ant) as [c|] eqn:Hant; simpl.
  - split; [done |]. exact (Hids _ _ Hant).
  - unfold ids_in_range. simpl. rewrite length_app. simpl. split; [| lia].
    apply map_Forall_insert_2; [lia |].
    eapply map_Forall_impl; [exact Hids |]. simpl. intros. lia.
Qed.

(** One iteration on a mention that has a predicted antecedent. *)
Lemma predicted_clusters_body_step (ms me : list Z) (i : nat) (p : Z)
    (st : clustering) (ant mention : span) :
  0 <= p < Z.of_nat i →
  zip ms me !! Z.to_nat p = Some ant →
  zip ms me !! i = Some mention →
  ids_in_range st →
  let c := fst (antecedent_cluster st ant) in
  let st1 := snd (antecedent_cluster st ant) in
  ∃ l, predicted_clusters st1 !! c = Some l
       ∧ predicted_clusters_body ms me i p st
         = Ok (Clustering (<[mention := c]> (mention_to_predicted st1))
                          (<[c := l ++ [mention]]> (predicted_clusters st1))).
Proof.
  intros Hp Hant Hmention Hids c st1.
  destruct (antecedent_cluster_ids st ant Hids) as [_ Hc].
  destruct (lookup_lt_is_Some_2 _ _ Hc) as [l Hl]. exists l. split; [done |].
  destruct ant as [s e], mention as [s' e'].
  apply lookup_zip_with_Some in Hant as (? & ? & [= <- <-] & Hs & He).
  apply lookup_zip_with_Some in Hmention as (? & ? & [= <- <-] & Hs' & He').
  unfold predicted_clusters_body.
  replace (p <? 0) with false by (symmetry; apply Z.ltb_ge; lia).
  replace (Z.of_nat i >? p) with true by (symmetry; apply Z.gtb_lt; lia).
  simpl. rewrite <- (Z2Nat.id p) by lia.
  rewrite (np_index_nat _ _ _ Hs), (np_index_nat _ _ _ He). simpl.
  rewrite (np_index_nat _ _ _ Hs'), (np_index_nat _ _ _ He'). simpl.
  unfold cluster_append. subst c st1. by rewrite Hl.
Qed.

Lemma predicted_clusters_body_skip (ms me : list Z) (i : nat) (p : Z)
    (st : clustering) :
  p < 0 → predicted_clusters_body ms me i p st = Ok st.
Proof.
  intros Hp. unfold predicted_clusters_body.
  by replace (p <? 0) with true by (symmetry; apply Z.ltb_lt; lia).
Qed.

Lemma ids_in_range_step (st1 : clustering) (c : nat) (l : list span) (x : span) :
  ids_in_range st1 →
  predicted_clusters st1 !! c = Some l →
  ids_in_range (Clustering (<[x := c]> (mention_to_predicted st1))
                           (<[c := l ++ [x]]> (predicted_clusters st1))).
Proof.
  intros Hids Hl. unfold ids_in_range. simpl. rewrite length_insert.
  apply map_Forall_insert_2; [by eapply lookup_lt_Some | done].
Qed.

Lemma resolve_clusters_total (st : clustering) :
  ids_in_range st →
  resolve_clusters (predicted_clusters st) (mention_to_predicted st)
  = Ok ((λ c, default [] (predicted_clusters st !! c)) <$> mention_to_predicted st).
Proof. intros Hids. unfold resolve_clusters. by rewrite decide_True. Qed.

(** With every antecedent earlier than its mention, and spans for every
    mention, the clustering loop runs to its end. *)
Lemma predicted_clusters_loop_total (ms me preds : list Z) :
  length ms = length preds →
  length me = length preds →
  (∀ (i : nat) p, preds !! i = Some p → p < Z.of_nat i) →
  ∃ st, predicted_clusters_loop ms me preds = Ok st ∧ ids_in_range st.
Proof.
  intros Hms Hme Hearlier. unfold predicted_clusters_loop.
  destruct (for_enumerate_inv (predicted_clusters_body ms me)
              (λ _ st, ids_in_range st) preds 0%nat (Clustering ∅ []))
    as (st & Hst & Hids); [| | by exists st].
  - unfold ids_in_range. simpl. apply map_Forall_empty.
  - intros i p st Hp Hids. simpl in *.
    pose proof (lookup_lt_Some _ _ _ Hp) as Hi.
    pose proof (Hearlier i p Hp) as Hlt.
    destruct (decide (p < 0)) as [Hneg|Hnonneg].
    { exists st. by rewrite predicted_clusters_body_skip. }
    destruct (lookup_lt_is_Some_2 (zip ms me) (Z.to_nat p)) as [ant Hant].
    { rewrite length_zip_with. lia. }
    destruct (lookup_lt_is_Some_2 (zip ms me) i) as [mention Hmention].
    { rewrite length_zip_with. lia. }
    destruct (predicted_clusters_body_step ms me i p st ant mention)
      as (l & Hl & ->); [lia | done | done | done |].
    eexists. split; [done |].
    apply ids_in_range_step; [| done].
    by apply antecedent_cluster_ids.
Qed.

Lemma antecedent_edge_earlier (preds : list Z) :
  (∀ (i : nat) p, preds !! i = Some p → p < Z.of_nat i) →
  ∀ i j, tc (antecedent_edge preds) i j → (j < i)%nat.
Proof.
  intros Hearlier i j Htc.
  induction Htc as [i j Hij|i j k Hij _ IH].
  - specialize (Hearlier i _ Hij). lia.
  - specialize (Hearlier i _ Hij). lia.
Qed.

(** C1.  When every row [i] of the antecedents matrix holds only indices
    below [i], every antecedent that [get_predicted_antecedents] returns for
    a mention [i] is [-1] or an index below [i]; [get_predicted_clusters]
    then never fails its assertion, returns a clustering when it has a span
    for every mention, and the antecedent links contain no cycle.  On an
    antecedents matrix of [n] rows and a score matrix of [n] rows, one
    column wider, [get_predicted_antecedents] does return [n] antecedents. *)
Theorem predicted_antecedents_earlier {score : Type} (gt : score → score → bool)
    (antecedents : list (list Z)) (antecedent_scores : list (list score)) :
  rows_earlier antecedents →
  (∀ preds,
     get_predicted_antecedents gt antecedents antecedent_scores = Ok preds →
     (∀ (i : nat) p, preds !! i = Some p → p = -1 ∨ p < Z.of_nat i)
     ∧ (∀ ms me, get_predicted_clusters ms me preds ≠ Raise AssertionError)
     ∧ (∀ ms me, length ms = length preds → length me = length preds →
                 ∃ out, get_predicted_clusters ms me preds = Ok out)
     ∧ (∀ i, ¬ tc (antecedent_edge preds) i i))
  ∧ (∀ n m, has_shape antecedents n m → has_shape antecedent_scores n (S m) →
            ∃ preds,
              get_predicted_antecedents gt antecedents antecedent_scores = Ok preds
              ∧ length preds = n).
Proof.
  intros Hrows. split.
  - intros preds Hpreds.
    assert (∀ (i : nat) p, preds !! i = Some p → p = -1 ∨ p < Z.of_nat i) as Hlt.
    { intros i p Hp.
      destruct (get_predicted_antecedents_entries gt _ _ _ Hpreds i p Hp)
        as [->|(row & Hrow & Hin)]; [by left | right]. by eapply Hrows. }
    assert (∀ (i : nat) p, preds !! i = Some p → p < Z.of_nat i) as Hlt'.
    { intros i p Hp. destruct (Hlt i p Hp); lia. }
    split; [done |]. split; [| split].
    + intros ms me Hraise. unfold get_predicted_clusters in Hraise.
      destruct (predicted_clusters_loop ms me preds) as [st|e] eqn:Hloop;
        simpl in Hraise.
      * unfold resolve_clusters in Hraise. by destruct (decide _).
      * injection Hraise as ->. revert Hloop.
        apply for_enumerate_no_raise. intros i p st Hp Hbody. simpl in Hbody.
        apply predicted_clusters_body_assertion in Hbody.
        specialize (Hlt' i p Hp). lia.
    + intros ms me Hms Hme.
      destruct (predicted_clusters_loop_total ms me preds) as (st & Hst & Hids);
        [done | done | done |].
      unfold get_predicted_clusters. rewrite Hst. simpl.
      rewrite resolve_clusters_total by done. simpl. eauto.
    + intros i Hcycle. apply (antecedent_edge_earlier preds Hlt') in Hcycle. lia.
  - intros n m Hants Hscores.
    destruct (get_predicted_antecedents_total gt n m antecedents antecedent_scores)
      as (preds & Hpreds & Hlen & _); [done | done |].
    by exists preds.
Qed.

Lemma rows_earlier_example : rows_earlier [[-1]; [0]].
Proof.
  intros i row v Hrow Hv. destruct i as [|[|i]]; simpl in Hrow; [| | done].
  - injection Hrow as <-. apply list_elem_of_singleton in Hv. lia.
  - injection Hrow as <-. apply list_elem_of_singleton in Hv. lia.
Qed.

Lemma predicted_antecedents_earlier_witness :
  rows_earlier [[-1]; [0]]
  ∧ get_predicted_antecedents np_gt [[-1]; [0]]
      [[f_zero; f_neg_inf]; [f_zero; f_one]] = Ok [-1; 0]
  ∧ (∀ (i : nat) p, [-1; 0] !! i = Some p → p = -1 ∨ p < Z.of_nat i)
  ∧ (∀ ms me, get_predicted_clusters ms me [-1; 0] ≠ Raise AssertionError)
  ∧ (∀ ms me, length ms = 2%nat → length me = 2%nat →
              ∃ out, get_predicted_clusters ms me [-1; 0] = Ok out)
  ∧ (∀ i, ¬ tc (antecedent_edge [-1; 0]) i i).
Proof.
  split; [exact rows_earlier_example |].
  split; [vm_compute; reflexivity |].
  apply (proj1 (predicted_antecedents_earlier np_gt [[-1]; [0]]
                  [[f_zero; f_neg_inf]; [f_zero; f_one]] rows_earlier_example)
           [-1; 0]).
  vm_compute. reflexivity.
Defined.

(** *** Two runs of the decoder on the heap *)

Section PythonHeapFacts.
Context {score : Type} (gt : score → score → bool).
Implicit Types (h X : heap score) (o : pyobj score).

Lemma load_old (h X : heap score) (l : loc) (o : pyobj score) :
  h !! l = Some o → load l (h ++ X) = (h ++ X, Ok o).
Proof. intros Hl. unfold load. by rewrite (lookup_app_l_Some _ _ _ _ Hl). Qed.

Lemma load_first (h X : heap score) (o : pyobj score) :
  load (length h) (h ++ o :: X) = (h ++ o :: X, Ok o).
Proof. unfold load. by rewrite list_lookup_middle by done. Qed.

Lemma load_second (h X : heap score) (o o' : pyobj score) :
  load (S (length h)) (h ++ o :: o' :: X) = (h ++ o :: o' :: X, Ok o').
Proof.
  unfold load. rewrite lookup_app_r by lia.
  by replace (S (length h) - length h)%nat with 1%nat by lia.
Qed.

Lemma store_first (h X : heap score) (o new_o : pyobj score) :
  store (length h) new_o (h ++ o :: X) = (h ++ new_o :: X, Ok ()).
Proof. unfold store. by rewrite insert_app_r_alt, Nat.sub_diag by lia. Qed.

Lemma store_second (h X : heap score) (o o' new_o : pyobj score) :
  store (S (length h)) new_o (h ++ o :: o' :: X) = (h ++ o :: new_o :: X, Ok ()).
Proof.
  unfold store. rewrite insert_app_r_alt by lia.
  by replace (S (length h) - length h)%nat with 1%nat by lia.
Qed.

Lemma py_index_old (h X : heap score) (a : loc) (xs : list Z) (i : Z) :
  h !! a = Some (Ndarray1 xs) →
  py_index a i (h ++ X) = (h ++ X, np_index xs i).
Proof. intros Ha. unfold py_index, hbind. by rewrite (load_old _ _ _ _ Ha). Qed.

Lemma py_index2_old (h X : heap score) (a : loc) (xs : list (list Z)) (i : nat) (j : Z) :
  h !! a = Some (Ndarray2 xs) →
  py_index2 a i j (h ++ X) = (h ++ X, np_index2 xs i j).
Proof. intros Ha. unfold py_index2, hbind. by rewrite (load_old _ _ _ _ Ha). Qed.

Lemma py_append_first (h : heap score) (acc : list Z) (x : Z) :
  py_append (length h) x (h ++ [PyInts acc]) = (h ++ [PyInts (acc ++ [x])], Ok ()).
Proof. unfold py_append, hbind. by rewrite load_first, store_first. Qed.

(** The loop of [get_predicted_antecedents] changes the list it was given
    and nothing else, as the loop on values does. *)
Lemma py_predicted_antecedents_loop (h : heap score) (antecedents : loc)
    (A : list (list Z)) (indices : list Z) :
  h !! antecedents = Some (Ndarray2 A) →
  ∀ (i : nat) (acc : list Z),
    ∃ acc' r,
      for_enumerate_heap
        (λ i index,
           if index <? 0 then py_append (length h) (-1)
           else hbind (py_index2 antecedents i index)
                  (λ a, py_append (length h) a))
        i indices (h ++ [PyInts acc])
      = (h ++ [PyInts acc'], r)
      ∧ ((r = Ok ()
          ∧ for_enumerate (predicted_antecedents_body A) i indices acc = Ok acc')
         ∨ ∃ e, r = Raise e
                ∧ for_enumerate (predicted_antecedents_body A) i indices acc
                  = Raise e).
Proof.
  intros Hants. induction indices as [|index indices IH]; intros i acc.
  - exists acc, (Ok ()). split; [done |]. by left.
  - cbn [for_enumerate_heap for_enumerate]. unfold hbind at 1.
    destruct (index <? 0) eqn:Hneg.
    + assert (predicted_antecedents_body A i index acc = Ok (acc ++ [-1])) as ->
        by (unfold predicted_antecedents_body; by rewrite Hneg).
      rewrite py_append_first. cbn [bind]. apply IH.
    + unfold hbind at 1. rewrite (py_index2_old _ _ _ _ _ _ Hants).
      assert (predicted_antecedents_body A i index acc
              = bind (np_index2 A i index) (λ a, Ok (acc ++ [a]))) as ->
        by (unfold predicted_antecedents_body; by rewrite Hneg).
      destruct (np_index2 A i index) as [a|e]; cbn [bind].
      * rewrite py_append_first. apply IH.
      * exists acc, (Raise e). split; [done |]. right. by exists e.
Qed.

Lemma hbind_run {A B : Type} (m : heap_run score A) (k : A → heap_run score B)
    h h' (r : result A) :
  m h = (h', r) →
  hbind m k h = match r with Ok a => k a h' | Raise e => (h', Raise e) end.
Proof. intros Hm. unfold hbind. by rewrite Hm. Qed.

Lemma py_argmax_minus_one_old h X (a : loc) (Sc : list (list score)) :
  h !! a = Some (NdarrayScores Sc) →
  py_argmax_minus_one gt a (h ++ X)
  = (h ++ X, bind (np_argmax_axis1 gt Sc) (λ am, Ok (map (λ k, k - 1) am))).
Proof.
  intros Ha. unfold py_argmax_minus_one.
  rewrite (hbind_run _ _ _ _ _ (load_old _ _ _ _ Ha)).
  unfold hbind, hlift, hret. by destruct (np_argmax_axis1 gt Sc).
Qed.

Lemma py_get_predicted_antecedents_refines h
    (antecedents antecedent_scores : loc) (A : list (list Z))
    (Sc : list (list score)) :
  h !! antecedents = Some (Ndarray2 A) →
  h !! antecedent_scores = Some (NdarrayScores Sc) →
  ∃ acc r,
    py_get_predicted_antecedents gt antecedents antecedent_scores h
    = (h ++ [PyInts acc], r)
    ∧ ((r = Ok (length h) ∧ get_predicted_antecedents gt A Sc = Ok acc)
       ∨ ∃ e, r = Raise e ∧ get_predicted_antecedents gt A Sc = Raise e).
Proof.
  intros Hants Hscores.
  unfold py_get_predicted_antecedents, get_predicted_antecedents.
  rewrite (hbind_run _ _ h (h ++ [PyInts []]) (Ok (length h))) by done.
  rewrite (hbind_run _ _ _ _ _ (py_argmax_minus_one_old _ _ _ _ Hscores)).
  destruct (np_argmax_axis1 gt Sc) as [am|e]; cbn [bind].
  2: { exists [], (Raise e). split; [done |]. right. by exists e. }
  destruct (py_predicted_antecedents_loop h antecedents A
              (map (λ k, k - 1) am) Hants 0%nat [])
    as (acc & r & Hloop & [[-> Hpure]|(e & -> & Hpure)]);
    rewrite (hbind_run _ _ _ _ _ Hloop).
  - exists acc, (Ok (length h)). split; [done |]. by left.
  - exists acc, (Raise e). split; [done |]. right. by exists e.
Qed.
Lemma py_dict_get_first h X (d : gmap span nat) (k : span) :
  py_dict_get (length h) k (h ++ PyDict d :: X)
  = (h ++ PyDict d :: X, Ok (d !! k)).
Proof. unfold py_dict_get. by rewrite (hbind_run _ _ _ _ _ (load_first _ _ _)). Qed.

Lemma py_dict_set_first h X (d : gmap span nat) (k : span) (v : nat) :
  py_dict_set (length h) k v (h ++ PyDict d :: X)
  = (h ++ PyDict (<[k := v]> d) :: X, Ok ()).
Proof.
  unfold py_dict_set. rewrite (hbind_run _ _ _ _ _ (load_first _ _ _)).
  apply store_first.
Qed.

Lemma py_len_second h X o (cl : list (list span)) :
  py_len (S (length h)) (h ++ o :: PyLists cl :: X)
  = (h ++ o :: PyLists cl :: X, Ok (length cl)).
Proof. unfold py_len. by rewrite (hbind_run _ _ _ _ _ (load_second _ _ _ _)). Qed.

Lemma py_append_cluster_second h X o (cl : list (list span)) (x : span) :
  py_append_cluster (S (length h)) x (h ++ o :: PyLists cl :: X)
  = (h ++ o :: PyLists (cl ++ [[x]]) :: X, Ok ()).
Proof.
  unfold py_append_cluster. rewrite (hbind_run _ _ _ _ _ (load_second _ _ _ _)).
  apply store_second.
Qed.

Lemma py_cluster_append_second h X o (cl : list (list span)) (c : nat) (x : span) :
  py_cluster_append (S (length h)) c x (h ++ o :: PyLists cl :: X)
  = match cluster_append c x cl with
    | Ok cl' => (h ++ o :: PyLists cl' :: X, Ok ())
    | Raise e => (h ++ o :: PyLists cl :: X, Raise e)
    end.
Proof.
  unfold py_cluster_append. rewrite (hbind_run _ _ _ _ _ (load_second _ _ _ _)).
  unfold hbind, hlift. destruct (cluster_append c x cl); [apply store_second | done].
Qed.

(** One iteration of the loop of [get_predicted_clusters] changes the dict
    and the list of clusters of the call and nothing else, as the iteration
    on values does. *)
Lemma py_predicted_clusters_body_refines h (mention_starts mention_ends : loc)
    (Ms Me : list Z) (i : nat) (p : Z) (d : gmap span nat)
    (cl : list (list span)) :
  h !! mention_starts = Some (Ndarray1 Ms) →
  h !! mention_ends = Some (Ndarray1 Me) →
  ∃ d' cl' r,
    py_predicted_clusters_body mention_starts mention_ends (length h)
      (S (length h)) i p (h ++ [PyDict d; PyLists cl])
    = (h ++ [PyDict d'; PyLists cl'], r)
    ∧ ((r = Ok ()
        ∧ predicted_clusters_body Ms Me i p (Clustering d cl)
          = Ok (Clustering d' cl'))
       ∨ ∃ e, r = Raise e
              ∧ predicted_clusters_body Ms Me i p (Clustering d cl) = Raise e).
Proof.
  intros Hms Hme. unfold py_predicted_clusters_body, predicted_clusters_body.
  destruct (p <? 0).
  { exists d, cl, (Ok ()). split; [done |]. by left. }
  destruct (negb (Z.of_nat i >? p)).
  { exists d, cl, (Raise AssertionError). split; [done |]. right. by eexists. }
  rewrite (hbind_run _ _ _ _ _ (py_index_old _ _ _ _ _ Hms)).
  destruct (np_index Ms p) as [s|e0]; cbn [bind].
  2: { exists d, cl, (Raise e0). split; [done |]. right. by eexists. }
  rewrite (hbind_run _ _ _ _ _ (py_index_old _ _ _ _ _ Hme)).
  destruct (np_index Me p) as [e|e0]; cbn [bind].
  2: { exists d, cl, (Raise e0). split; [done |]. right. by eexists. }
  rewrite (hbind_run _ _ _ _ _ (py_dict_get_first _ _ _ _)).
  unfold antecedent_cluster. cbn [mention_to_predicted predicted_clusters].
  assert (∀ (c : nat) d1 cl1,
            ∃ d' cl' r,
              hbind (py_index mention_starts (Z.of_nat i))
                (λ s', hbind (py_index mention_ends (Z.of_nat i))
                   (λ e', hbind (py_cluster_append (S (length h)) c (s', e'))
                      (λ _, py_dict_set (length h) (s', e') c)))
                (h ++ [PyDict d1; PyLists cl1])
              = (h ++ [PyDict d'; PyLists cl'], r)
              ∧ ((r = Ok ()
                  ∧ bind (np_index Ms (Z.of_nat i))
                      (λ s', bind (np_index Me (Z.of_nat i))
                         (λ e', bind (cluster_append c (s', e') cl1)
                            (λ clusters,
                               Ok (Clustering (<[(s', e') := c]> d1) clusters))))
                    = Ok (Clustering d' cl'))
                 ∨ ∃ e0, r = Raise e0
                         ∧ bind (np_index Ms (Z.of_nat i))
                             (λ s', bind (np_index Me (Z.of_nat i))
                                (λ e', bind (cluster_append c (s', e') cl1)
                                   (λ clusters,
                                      Ok (Clustering (<[(s', e') := c]> d1)
                                            clusters))))
                           = Raise e0)) as Hrest.
  { intros c d1 cl1.
    rewrite (hbind_run _ _ _ _ _ (py_index_old _ _ _ _ _ Hms)).
    destruct (np_index Ms (Z.of_nat i)) as [s'|e0]; cbn [bind].
    2: { exists d1, cl1, (Raise e0). split; [done |]. right. by eexists. }
    rewrite (hbind_run _ _ _ _ _ (py_index_old _ _ _ _ _ Hme)).
    destruct (np_index Me (Z.of_nat i)) as [e'|e0]; cbn [bind].
    2: { exists d1, cl1, (Raise e0). split; [done |]. right. by eexists. }
    destruct (cluster_append c (s', e') cl1) as [cl2|e0] eqn:Happ; cbn [bind].
    - rewrite (hbind_run _ _ _ (h ++ [PyDict d1; PyLists cl2]) (Ok ()))
        by (by rewrite py_cluster_append_second, Happ).
      rewrite py_dict_set_first. eexists _, _, _. split; [done |]. by left.
    - rewrite (hbind_run _ _ _ (h ++ [PyDict d1; PyLists cl1]) (Raise e0))
        by (by rewrite py_cluster_append_second, Happ).
      exists d1, cl1, (Raise e0). split; [done |]. right. by eexists. }
  destruct (lookup _ d) as [c|];
    cbn [fst snd mention_to_predicted predicted_clusters].
  - rewrite (hbind_run _ _ _ _ (Ok c) eq_refl). apply Hrest.
  - rewrite (hbind_run _ _ (h ++ [PyDict d; PyLists cl])
               (h ++ [PyDict (<[(s, e) := length cl]> d); PyLists (cl ++ [[(s, e)]])])
               (Ok (length cl))).
    + apply Hrest.
    + rewrite (hbind_run _ _ _ _ _ (py_len_second _ _ _ _)).
      rewrite (hbind_run _ _ _ _ _ (py_append_cluster_second _ _ _ _ _)).
      by rewrite (hbind_run _ _ _ _ _ (py_dict_set_first _ _ _ _ _)).
Qed.
Lemma py_predicted_clusters_loop h (mention_starts mention_ends : loc)
    (Ms Me : list Z) (indices : list Z) :
  h !! mention_starts = Some (Ndarray1 Ms) →
  h !! mention_ends = Some (Ndarray1 Me) →
  ∀ (i : nat) (d : gmap span nat) (cl : list (list span)),
    ∃ d' cl' r,
      for_enumerate_heap
        (py_predicted_clusters_body mention_starts mention_ends (length h)
           (S (length h)))
        i indices (h ++ [PyDict d; PyLists cl])
      = (h ++ [PyDict d'; PyLists cl'], r)
      ∧ ((r = Ok ()
          ∧ for_enumerate (predicted_clusters_body Ms Me) i indices
              (Clustering d cl) = Ok (Clustering d' cl'))
         ∨ ∃ e, r = Raise e
                ∧ for_enumerate (predicted_clusters_body Ms Me) i indices
                    (Clustering d cl) = Raise e).
Proof.
  intros Hms Hme. induction indices as [|p indices IH]; intros i d cl.
  - exists d, cl, (Ok ()). split; [done |]. by left.
  - cbn [for_enumerate_heap for_enumerate].
    destruct (py_predicted_clusters_body_refines h mention_starts mention_ends
                Ms Me i p d cl Hms Hme)
      as (d1 & cl1 & r & Hbody & [[-> Hpure]|(e & -> & Hpure)]);
      rewrite (hbind_run _ _ _ _ _ Hbody), Hpure; cbn [bind].
    + apply IH.
    + exists d1, cl1, (Raise e). split; [done |]. right. by eexists.
Qed.

(** A run of [get_predicted_clusters] leaves the objects it finds as they
    are, puts four new ones after them, and returns what the function on
    values returns for the contents of the arrays and of the list. *)
Lemma py_get_predicted_clusters_refines h
    (mention_starts mention_ends predicted_antecedents : loc)
    (Ms Me preds : list Z) :
  h !! mention_starts = Some (Ndarray1 Ms) →
  h !! mention_ends = Some (Ndarray1 Me) →
  h !! predicted_antecedents = Some (PyInts preds) →
  ∃ X r,
    py_get_predicted_clusters mention_starts mention_ends predicted_antecedents h
    = (h ++ X, r)
    ∧ returns_as (h ++ X) r (get_predicted_clusters Ms Me preds).
Proof.
  intros Hms Hme Hpa.
  unfold py_get_predicted_clusters, get_predicted_clusters, predicted_clusters_loop.
  rewrite (hbind_run _ _ h (h ++ [PyDict ∅]) (Ok (length h))) by done.
  rewrite (hbind_run _ _ (h ++ [PyDict ∅]) (h ++ [PyDict ∅; PyLists []])
             (Ok (S (length h)))).
  2: { unfold new. rewrite length_app, <- app_assoc. simpl.
       by rewrite Nat.add_1_r. }
  rewrite (hbind_run _ _ _ (h ++ [PyDict ∅; PyLists []]) (Ok preds)).
  2: { unfold py_ints. by rewrite (hbind_run _ _ _ _ _ (load_old _ _ _ _ Hpa)). }
  destruct (py_predicted_clusters_loop h mention_starts mention_ends Ms Me
              preds Hms Hme 0%nat ∅ [])
    as (d & cl & r & Hloop & [[-> Hpure]|(e & -> & Hpure)]);
    rewrite (hbind_run _ _ _ _ _ Hloop), Hpure; cbn [bind].
  2: { eexists _, (Raise e). split; [done |]. done. }
  cbn [predicted_clusters mention_to_predicted].
  unfold py_freeze.
  rewrite (hbind_run _ _ _ _ _ (load_second _ _ _ _)).
  rewrite (hbind_run _ _ (h ++ [PyDict d; PyLists cl])
             (h ++ [PyDict d; PyLists cl; PyTuples cl])
             (Ok (S (S (length h))))).
  2: { unfold new. rewrite length_app, <- app_assoc. simpl.
       by rewrite Nat.add_comm. }
  rewrite (hbind_run _ _ _ (h ++ [PyDict d; PyLists cl; PyTuples cl])
             (Ok (PyDict d))) by apply load_first.
  unfold hbind at 1, hlift.
  destruct (resolve_clusters cl d) as [m2p|e]; cbn [bind].
  2: { eexists _, (Raise e). split; [done |]. done. }
  unfold hbind, new, hret. rewrite length_app, <- app_assoc. simpl.
  eexists _, (Ok _). split; [done |]. simpl. split.
  - rewrite lookup_app_r by lia.
    by replace (S (S (length h)) - length h)%nat with 2%nat by lia.
  - rewrite lookup_app_r by lia.
    by replace (length h + 3 - length h)%nat with 3%nat by lia.
Qed.

(** A run of the decoder leaves the heap it finds as it is, puts its own
    objects after it, and returns what [decode] returns for the contents of
    the four arrays. *)
Lemma py_decode_refines h
    (mention_starts mention_ends antecedents antecedent_scores : loc)
    (Ms Me : list Z) (A : list (list Z)) (Sc : list (list score)) :
  h !! mention_starts = Some (Ndarray1 Ms) →
  h !! mention_ends = Some (Ndarray1 Me) →
  h !! antecedents = Some (Ndarray2 A) →
  h !! antecedent_scores = Some (NdarrayScores Sc) →
  ∃ X r,
    py_decode gt mention_starts mention_ends antecedents antecedent_scores h
    = (h ++ X, r)
    ∧ returns_as (h ++ X) r (decode gt Ms Me A Sc).
Proof.
  intros Hms Hme Hants Hscores. unfold py_decode, decode.
  destruct (py_get_predicted_antecedents_refines h antecedents
              antecedent_scores A Sc Hants Hscores)
    as (preds & r & Hrun & [[-> Hpure]|(e & -> & Hpure)]);
    rewrite (hbind_run _ _ _ _ _ Hrun), Hpure; cbn [bind].
  2: { by exists [PyInts preds], (Raise e). }
  destruct (py_get_predicted_clusters_refines (h ++ [PyInts preds])
              mention_starts mention_ends (length h) Ms Me preds)
    as (X & r & Hrun2 & Hret).
  - by apply lookup_app_l_Some.
  - by apply lookup_app_l_Some.
  - by rewrite list_lookup_middle.
  - exists ([PyInts preds] ++ X), r. rewrite app_assoc. done.
Qed.

Lemma returns_as_result h (r : result (loc * loc))
    (v : result (list (list span) * gmap span (list span))) :
  returns_as h r v → py_result h r = v.
Proof.
  unfold returns_as, py_result.
  destruct r as [[tuples d]|e], v as [[cl m2p]|e']; try done.
  - by intros [-> ->].
  - by intros ->.
Qed.

Lemma returns_as_later h X (r : result (loc * loc))
    (v : result (list (list span) * gmap span (list span))) :
  returns_as h r v → returns_as (h ++ X) r v.
Proof.
  unfold returns_as.
  destruct r as [[tuples d]|e], v as [[cl m2p]|e']; try done.
  intros [Ht Hd]. split; by apply lookup_app_l_Some.
Qed.

(** C7.  Two runs of the decoder on the same four arrays return equal
    clusterings and equal mappings, or raise the same exception: a run reads
    the arrays and changes only objects it has made itself, so the second
    run finds the arrays as the first one did, and what the first run
    returned is still there after the second.  What a run returns is what
    [decode] gives for the contents of the arrays. *)
Theorem decode_rerun (h : heap score)
    (mention_starts mention_ends antecedents antecedent_scores : loc)
    (Ms Me : list Z) (A : list (list Z)) (Sc : list (list score)) :
  h !! mention_starts = Some (Ndarray1 Ms) →
  h !! mention_ends = Some (Ndarray1 Me) →
  h !! antecedents = Some (Ndarray2 A) →
  h !! antecedent_scores = Some (NdarrayScores Sc) →
  ∃ (made1 made2 : heap score) (r1 r2 : result (loc * loc)),
    py_decode gt mention_starts mention_ends antecedents antecedent_scores h
    = (h ++ made1, r1)
    ∧ py_decode gt mention_starts mention_ends antecedents antecedent_scores
        (h ++ made1)
      = ((h ++ made1) ++ made2, r2)
    ∧ py_result (h ++ made1) r1 = decode gt Ms Me A Sc
    ∧ py_result ((h ++ made1) ++ made2) r2 = py_result (h ++ made1) r1
    ∧ py_result ((h ++ made1) ++ made2) r1 = py_result (h ++ made1) r1.
Proof.
  intros Hms Hme Hants Hscores.
  destruct (py_decode_refines h mention_starts mention_ends antecedents
              antecedent_scores Ms Me A Sc Hms Hme Hants Hscores)
    as (made1 & r1 & Hrun1 & Hret1).
  destruct (py_decode_refines (h ++ made1) mention_starts mention_ends
              antecedents antecedent_scores Ms Me A Sc)
    as (made2 & r2 & Hrun2 & Hret2); try by apply lookup_app_l_Some.
  exists made1, made2, r1, r2. split; [done |]. split; [done |].
  rewrite (returns_as_result _ _ _ Hret1), (returns_as_result _ _ _ Hret2).
  split; [done |]. split; [done |].
  apply returns_as_result. by apply returns_as_later.
Qed.
End PythonHeapFacts.

(** The two runs on the two-mention heap: the second run puts its five
    objects after those of the first and returns references to equal
    values. *)
Example decode_rerun_two_mentions :
  ∃ h1,
    py_decode np_gt 0%nat 1%nat 2%nat 3%nat two_mention_heap = (h1, Ok (7%nat, 8%nat))
    ∧ py_result h1 (Ok (7%nat, 8%nat))
      = Ok ([[(0, 0); (2, 2)]],
            {[ (0, 0) := [(0, 0); (2, 2)]; (2, 2) := [(0, 0); (2, 2)] ]})
    ∧ ∃ h2,
        py_decode np_gt 0%nat 1%nat 2%nat 3%nat h1 = (h2, Ok (12%nat, 13%nat))
        ∧ take 9 h2 = h1
        ∧ py_result h2 (Ok (12%nat, 13%nat)) = py_result h1 (Ok (7%nat, 8%nat)).
Proof.
  eexists. split; [vm_compute; reflexivity |]. split; [vm_compute; reflexivity |].
  eexists. split; [vm_compute; reflexivity |]. split; vm_compute; reflexivity.
Qed.

Lemma decode_rerun_witness :
  ∃ (made1 made2 : heap spec_float) (r1 r2 : result (loc * loc)),
    py_decode np_gt 0%nat 1%nat 2%nat 3%nat two_mention_heap
    = (two_mention_heap ++ made1, r1)
    ∧ py_decode np_gt 0%nat 1%nat 2%nat 3%nat (two_mention_heap ++ made1)
      = ((two_mention_heap ++ made1) ++ made2, r2)
    ∧ py_result (two_mention_heap ++ made1) r1
      = decode np_gt [0; 2] [0; 2] [[0]; [0]]
          [[f_zero; f_neg_inf]; [f_zero; f_one]]
    ∧ py_result ((two_mention_heap ++ made1) ++ made2) r2
      = py_result (two_mention_heap ++ made1) r1
    ∧ py_result ((two_mention_heap ++ made1) ++ made2) r1
      = py_result (two_mention_heap ++ made1) r1.
Proof.
  apply (decode_rerun np_gt two_mention_heap 0%nat 1%nat 2%nat 3%nat);
    reflexivity.
Defined.

(** *** The clustering invariant *)

Lemma elem_of_concat {A : Type} (ls : list (list A)) (x : A) :
  x ∈ concat ls ↔ ∃ l, x ∈ l ∧ l ∈ ls.
Proof.
  induction ls as [|l0 ls IH]; simpl.
  - split; [by intros ?%elem_of_nil | by intros (l & _ & ?%elem_of_nil)].
  - rewrite elem_of_app, IH. split.
    + intros [Hx|(l & Hx & Hl)]; [exists l0 | exists l]; split; try done.
      * by left.
      * by right.
    + intros (l & Hx & [->|Hl]%elem_of_cons); [by left | right; eauto].
Qed.

Lemma in_cluster_concat (clusters : list (list span)) (x : span) :
  x ∈ concat clusters ↔ ∃ c, in_cluster clusters x c.
Proof.
  unfold in_cluster. rewrite elem_of_concat. split.
  - intros (l & Hx & Hl). apply list_elem_of_lookup in Hl as [c Hc]. eauto.
  - intros (c & l & Hc & Hx). exists l. split; [done |].
    by eapply list_elem_of_lookup_2.
Qed.



Lemma concat_insert_snoc (clusters : list (list span)) (c : nat)
    (l : list span) (x : span) :
  clusters !! c = Some l →
  concat (<[c := l ++ [x]]> clusters) ≡ₚ x :: concat clusters.
Proof.
  revert c. induction clusters as [|l0 clusters IH]; intros c Hc; [done |].
  destruct c as [|c]; simpl in *.
  - injection Hc as ->. rewrite <- app_assoc. simpl.
    by rewrite <- Permutation_middle.
  - rewrite (IH c Hc). by rewrite <- Permutation_middle.
Qed.









(** ** Train-on-gold mentions *)

(** C8.  With [train_on_gold] set, the mention set is the gold spans, every
    mention score is 1, and the span enumeration, the mention scorer and the
    pruning play no part; for the two-sentence document with gold clusters
    [[(0,0),(2,2)]] the mention set is [(0,0), (2,2)]. *)
Theorem mention_module_train_on_gold :
  (∀ (E : Type) (get_mention_emb : tensors E → list Z → list Z → list vec)
     (get_mention_scores get_mention_scores' : list vec → tensor2)
     (spans spans' : list Z → Z → list Z * list Z)
     (extract_mentions extract_mentions' : list xreal → list Z → list Z → Z → list Z)
     (mention_budget mention_budget' : Z → Z)
     (g : graph_config) (t : tensors E),
     ∃ m,
       mention_module get_mention_emb get_mention_scores spans extract_mentions
         mention_budget true g t = Ok m
       ∧ mention_module get_mention_emb get_mention_scores' spans' extract_mentions'
           mention_budget' true g t = Ok m
       ∧ mention_starts m = gold_starts t
       ∧ mention_ends m = gold_ends t
       ∧ mention_scores m = replicate (length (gold_ends t)) (Fin 1)
       ∧ candidate_mention_scores m = mention_scores m
       ∧ mention_emb m = get_mention_emb t (gold_starts t) (gold_ends t)
       ∧ ∀ get_antecedents ffnn distance_bins dropout,
           get_predictions_and_loss get_mention_emb get_mention_scores spans
             extract_mentions mention_budget get_antecedents ffnn distance_bins
             dropout true g t
           = (genre_emb ←! tf_gather (genre_embeddings g) (Z.of_nat (genre t));
              antecedent_module get_antecedents ffnn distance_bins dropout g t
                genre_emb m))
  ∧ (∀ (E : Type) (embedder : embedder_arg → list E) (lower : string → string)
       (sentence_offset : Z) (training : bool)
       (get_mention_emb : tensors E → list Z → list Z → list vec)
       (get_mention_scores : list vec → tensor2)
       (spans : list Z → Z → list Z * list Z)
       (extract_mentions : list xreal → list Z → list Z → Z → list Z)
       (mention_budget : Z → Z) (g : graph_config),
       ∃ t m,
         tensorize_example embedder char_code lower remove_dups john_he_config
           sentence_offset john_he training = Ok t
         ∧ mention_module get_mention_emb get_mention_scores spans extract_mentions
             mention_budget (train_on_gold john_he_config) g t = Ok m
         ∧ zip (mention_starts m) (mention_ends m) = [(0, 0); (2, 2)]
         ∧ mention_scores m = [Fin 1; Fin 1]).
Proof.
  split.
  - intros. eexists. unfold get_predictions_and_loss, mention_module.
    repeat split; reflexivity.
  - intros. eexists. eexists. split; [| split; [| split]].
    + destruct training; vm_compute; reflexivity.
    + reflexivity.
    + reflexivity.
    + reflexivity.
Qed.

(** ** Gold cluster ids *)

#[global] Instance span_le_total : Total span_le.
Proof. intros [a1 a2] [b1 b2]. unfold span_le. simpl. lia. Qed.

#[global] Instance span_le_trans : Transitive span_le.
Proof. intros [a1 a2] [b1 b2] [c1 c2]. unfold span_le. simpl. lia. Qed.

Lemma sorted_Permutation (l : list span) : sorted l ≡ₚ l.
Proof. apply merge_sort_Permutation. Qed.

Lemma sorted_StronglySorted (l : list span) : StronglySorted span_le (sorted l).
Proof. apply StronglySorted_merge_sort; apply _. Qed.

Lemma enumerate_map_snoc {K : Type} `{Countable K} (l : list K) (x : K) :
  enumerate_map (l ++ [x]) = <[x := length l]> (enumerate_map l).
Proof.
  unfold enumerate_map. rewrite length_app. simpl.
  rewrite Nat.add_1_r, seq_S. simpl.
  rewrite zip_with_app by by rewrite length_seq.
  by rewrite foldl_app.
Qed.

(** Without repeated keys the dict of [enumerate] inverts the list. *)
Lemma enumerate_map_lookup {K : Type} `{Countable K} (l : list K) :
  NoDup l → ∀ x k, enumerate_map l !! x = Some k ↔ l !! k = Some x.
Proof.
  induction l as [|y l IH] using rev_ind; intros Hnodup x k.
  - unfold enumerate_map. simpl. by rewrite lookup_empty, lookup_nil.
  - apply NoDup_app in Hnodup as (Hnodup & Hfresh & _).
    rewrite enumerate_map_snoc. destruct (decide (x = y)) as [->|Hne].
    + rewrite lookup_insert_eq. split.
      * intros [= <-]. by rewrite lookup_app_r, Nat.sub_diag by lia.
      * intros [Hk|[Hge Hk]]%lookup_app_Some.
        -- exfalso. eapply Hfresh; [by eapply list_elem_of_lookup_2 |].
           by apply list_elem_of_singleton.
        -- apply list_lookup_singleton_Some in Hk as [Hk _]. f_equal. lia.
    + rewrite lookup_insert_ne by done. rewrite (IH Hnodup). split.
      * intros Hk. by apply lookup_app_l_Some.
      * intros [Hk|[_ Hk]]%lookup_app_Some; [done |].
        by apply list_lookup_singleton_Some in Hk as [_ ?].
Qed.

Lemma assign_cluster_id_spec (clusters : list (list span)) (gm : list span)
    (done : list span) (ids : list Z) (c : nat) (cl : list span) (y : span) :
  NoDup gm →
  clusters !! c = Some cl → y ∈ cl → y ∈ gm →
  ids_assigned clusters gm done ids →
  ∃ ids', assign_cluster_id (enumerate_map gm) c y ids = Ok ids'
          ∧ ids_assigned clusters gm (done ++ [y]) ids'.
Proof.
  intros Hnodup Hcl Hy Hgm [Hlen Hdone].
  apply list_elem_of_lookup in Hgm as [ky Hky].
  pose proof (proj2 (enumerate_map_lookup gm Hnodup y ky) Hky) as Hmap.
  unfold assign_cluster_id. rewrite Hmap. eexists. split; [done |].
  split; [by rewrite length_insert |].
  intros k x Hk Hx. destruct (decide (k = ky)) as [->|Hne].
  - exists c, cl. rewrite list_lookup_insert_eq
      by (rewrite Hlen; by eapply lookup_lt_Some).
    split; [done |]. split; [done |]. congruence.
  - rewrite list_lookup_insert_ne by done. apply Hdone; [done |].
    apply elem_of_app in Hx as [Hx|Hx%list_elem_of_singleton]; [done |].
    subst x. by pose proof (NoDup_lookup _ _ _ _ Hnodup Hk Hky).
Qed.

Lemma gold_cluster_ids_total (clusters : list (list span)) :
  NoDup (flatten clusters) →
  ∃ ids,
    gold_cluster_ids clusters = Ok (sorted (flatten clusters), ids)
    ∧ ids_assigned clusters (sorted (flatten clusters)) (flatten clusters) ids.
Proof.
  intros Hnodup. unfold gold_cluster_ids.
  set (gm := sorted (flatten clusters)).
  assert (NoDup gm) as Hgm by (unfold gm; by rewrite sorted_Permutation).
  destruct (for_enumerate_inv
              (λ cluster_id cluster ids,
                 for_each (assign_cluster_id (enumerate_map gm) cluster_id)
                   cluster ids)
              (λ c ids, ids_assigned clusters gm (concat (take c clusters)) ids)
              clusters 0%nat (replicate (length gm) 0))
    as (ids & Hids & Hinv).
  - split; [by rewrite length_replicate |]. simpl. by intros k x _ ?%elem_of_nil.
  - intros c cl ids Hcl Hinv. simpl in *. unfold for_each.
    destruct (for_enumerate_inv
                (λ _, assign_cluster_id (enumerate_map gm) c)
                (λ j ids, ids_assigned clusters gm
                            (concat (take c clusters) ++ take j cl) ids)
                cl 0%nat ids) as (ids' & Hids' & Hinv').
    + simpl. by rewrite app_nil_r.
    + intros j y ids0 Hy Hinv0. simpl in *.
      destruct (assign_cluster_id_spec clusters gm
                  (concat (take c clusters) ++ take j cl) ids0 c cl y)
        as (ids1 & Hids1 & Hinv1); try done.
      * by eapply list_elem_of_lookup_2.
      * unfold gm. rewrite sorted_Permutation. apply elem_of_concat.
        exists cl. split; by eapply list_elem_of_lookup_2.
      * exists ids1. split; [done |].
        by rewrite (take_S_r _ _ _ Hy), app_assoc.
    + exists ids'. split; [done |]. simpl in Hinv'.
      rewrite firstn_all in Hinv'.
      by rewrite (take_S_r _ _ _ Hcl), concat_app, concat_cons, concat_nil, app_nil_r.
  - exists ids. simpl in *. rewrite Hids. simpl. split; [done |].
    by rewrite firstn_all in Hinv.
Qed.

Ltac inv_bind H :=
  repeat match type of H with
         | bind _ _ = Ok _ =>
             let a := fresh "a" in
             let Ha := fresh "Ha" in
             apply bind_Ok in H as (a & Ha & H)
         end.

Lemma mapM_length {A B : Type} (f : A → result B) (l : list A) (l' : list B) :
  mapM f l = Ok l' → length l' = length l.
Proof.
  revert l'. induction l as [|x l IH]; intros l'; simpl.
  - by intros [= <-].
  - intros (y & _ & (ys & Hys & [= <-])%bind_Ok)%bind_Ok. simpl.
    by rewrite (IH ys).
Qed.

(** What the untruncated tuple holds. *)
Lemma tensorize_full_fields {E : Type} (embedder : embedder_arg → list E)
    (char_dict : Ascii.ascii → result Z) (lower : string → string)
    (set_order : list string → list string) (cfg : model_config) (ex : example)
    (training : bool) (t : tensors E) :
  tensorize_full embedder char_dict lower set_order cfg ex training = Ok t →
  ∃ gm ids,
    gold_cluster_ids (ex_clusters ex) = Ok (gm, ids)
    ∧ cluster_ids t = ids
    ∧ gold_starts t = map fst gm
    ∧ gold_ends t = map snd gm
    ∧ text_len t = map (λ s : list string, Z.of_nat (length s)) (ex_sentences ex)
    ∧ is_training t = training
    ∧ length (char_index t) = length (ex_sentences ex).
Proof.
  unfold tensorize_full. intros Ht.
  apply bind_Ok in Ht as ([gm ids] & Hgold & Ht). exists gm, ids.
  split; [done |]. simpl in Ht.
  destruct (negb _); [done |]. inv_bind Ht.
  destruct (genres cfg !! _); [| done].
  injection Ht as <-. simpl. do 5 (split; [done |]).
  match goal with
  | H : mapM _ (if emb_lowercase cfg then _ else _) = Ok _ |- _ =>
      apply mapM_length in H; rewrite H
  end.
  destruct (emb_lowercase cfg); [by rewrite length_map | done].
Qed.

(** C3, as stated, fails: cluster ids are the positions given by
    [enumerate], so the mentions of the first gold cluster get id 0. *)
Lemma first_cluster_id_zero :
  bind (tensorize_example (λ _, [(); ()]) char_code (λ w, w) remove_dups
          john_he_config 0 john_he true)
       (λ t, Ok (gold_starts t, gold_ends t, cluster_ids t))
  = Ok ([0; 2], [0; 2], [0; 0])
  ∧ ¬ gold_ids_nonzero [[(0, 0); (2, 2)]] [(0, 0); (2, 2)] [0; 0].
Proof.
  split; [vm_compute; reflexivity |].
  intros Hall. destruct (Hall 0%nat (0, 0)) as (cid & Hid & Hne); [done | |].
  - apply elem_of_concat. exists [(0, 0); (2, 2)]. split; by left.
  - simpl in Hid. congruence.
Qed.

(** C3, amended.  When the gold spans are pairwise distinct, the cluster-id
    array gives every gold mention, at its position in the sorted list of
    gold mentions, the position of its gold cluster in the list of clusters,
    counted from 0: the mentions of the first cluster get id 0, which is not
    reserved, and mentions of different clusters get different ids. *)
Theorem gold_cluster_ids_spec (clusters : list (list span)) :
  NoDup (flatten clusters) →
  ∃ gm ids,
    gold_cluster_ids clusters = Ok (gm, ids)
    ∧ gm ≡ₚ flatten clusters
    ∧ StronglySorted span_le gm
    ∧ length ids = length gm
    ∧ (∀ (k : nat) x, gm !! k = Some x →
         ∃ c cl, ids !! k = Some (Z.of_nat c) ∧ clusters !! c = Some cl ∧ x ∈ cl)
    ∧ (∀ (k c : nat) x cl, gm !! k = Some x → clusters !! c = Some cl → x ∈ cl →
         ids !! k = Some (Z.of_nat c))
    ∧ (∀ (E : Type) (embedder : embedder_arg → list E)
         (char_dict : Ascii.ascii → result Z) (lower : string → string)
         (set_order : list string → list string) (cfg : model_config)
         (ex : example) (training : bool) (t : tensors E),
         ex_clusters ex = clusters →
         tensorize_full embedder char_dict lower set_order cfg ex training = Ok t →
         cluster_ids t = ids ∧ zip (gold_starts t) (gold_ends t) = gm).
Proof.
  intros Hnodup.
  destruct (gold_cluster_ids_total clusters Hnodup) as (ids & Hids & Hlen & Hdone).
  exists (sorted (flatten clusters)), ids.
  assert (∀ (k : nat) x, sorted (flatten clusters) !! k = Some x →
            ∃ c cl, ids !! k = Some (Z.of_nat c) ∧ clusters !! c = Some cl ∧ x ∈ cl)
    as Hsome.
  { intros k x Hk. apply Hdone; [done |].
    rewrite <- (sorted_Permutation (flatten clusters)).
    by eapply list_elem_of_lookup_2. }
  split; [done |]. split; [apply sorted_Permutation |].
  split; [apply sorted_StronglySorted |]. split; [done |]. split; [done |]. split.
  - intros k c x cl Hk Hcl Hx.
    destruct (Hsome k x Hk) as (c' & cl' & Hid & Hcl' & Hx').
    replace c with c'; [done |].
    (* the cluster of a span is unique, the spans being distinct *)
    clear -Hnodup Hcl Hx Hcl' Hx'. revert c c' Hcl Hcl'.
    unfold flatten in Hnodup.
    induction clusters as [|cl0 clusters IH]; intros c c' Hcl Hcl'; [done |].
    simpl in Hnodup. apply NoDup_app in Hnodup as (_ & Hdisj & Hrest).
    assert (∀ d l, clusters !! d = Some l → x ∈ l → x ∉ cl0) as Hnot.
    { intros d l Hl Hxl Hx0. apply (Hdisj x Hx0). apply elem_of_concat.
      exists l. split; [done |]. by eapply list_elem_of_lookup_2. }
    destruct c as [|c], c' as [|c']; simpl in *; simplify_eq.
    + done.
    + exfalso. by eapply Hnot.
    + exfalso. by eapply Hnot.
    + f_equal. by apply IH.
  - intros E embedder char_dict lower set_order cfg ex training t Hex Ht.
    apply tensorize_full_fields in Ht
      as (gm' & ids' & Hgold & Hcids & Hgs & Hge & _ & _ & _).
    rewrite Hex, Hids in Hgold. injection Hgold as <- <-.
    split; [done |]. rewrite Hgs, Hge.
    clear. induction (sorted (flatten clusters)) as [|[s e] l IH]; simpl; [done |].
    by rewrite IH.
Qed.

Lemma gold_cluster_ids_spec_witness :
  ∃ gm ids,
    gold_cluster_ids [[(5, 6)]; [(0, 0); (2, 2)]] = Ok (gm, ids)
    ∧ gm ≡ₚ flatten [[(5, 6)]; [(0, 0); (2, 2)]]
    ∧ StronglySorted span_le gm
    ∧ length ids = length gm
    ∧ (∀ (k : nat) x, gm !! k = Some x →
         ∃ c cl, ids !! k = Some (Z.of_nat c)
                 ∧ [[(5, 6)]; [(0, 0); (2, 2)]] !! c = Some cl ∧ x ∈ cl)
    ∧ (∀ (k c : nat) x cl, gm !! k = Some x →
         [[(5, 6)]; [(0, 0); (2, 2)]] !! c = Some cl → x ∈ cl →
         ids !! k = Some (Z.of_nat c))
    ∧ (∀ (E : Type) (embedder : embedder_arg → list E)
         (char_dict : Ascii.ascii → result Z) (lower : string → string)
         (set_order : list string → list string) (cfg : model_config)
         (ex : example) (training : bool) (t : tensors E),
         ex_clusters ex = [[(5, 6)]; [(0, 0); (2, 2)]] →
         tensorize_full embedder char_dict lower set_order cfg ex training = Ok t →
         cluster_ids t = ids ∧ zip (gold_starts t) (gold_ends t) = gm).
Proof.
  apply (gold_cluster_ids_spec [[(5, 6)]; [(0, 0); (2, 2)]]).
  compute_done.
Defined.

(** ** Truncation *)

Lemma py_slice_inner {A : Type} (l : list A) (lo hi : Z) :
  0 <= lo <= hi → hi <= Z.of_nat (length l) →
  py_slice l lo hi = take (Z.to_nat (hi - lo)) (drop (Z.to_nat lo) l).
Proof.
  intros Hlo Hhi. unfold py_slice, slice_bound.
  replace (lo <? 0) with false by (symmetry; apply Z.ltb_ge; lia).
  replace (hi <? 0) with false by (symmetry; apply Z.ltb_ge; lia).
  rewrite !Z.min_l by lia. f_equal. lia.
Qed.

Lemma py_slice_inner_length {A : Type} (l : list A) (lo hi : Z) :
  0 <= lo <= hi → hi <= Z.of_nat (length l) →
  length (py_slice l lo hi) = Z.to_nat (hi - lo).
Proof.
  intros Hlo Hhi. rewrite py_slice_inner by done.
  rewrite length_take, length_drop. lia.
Qed.

Lemma assign_cluster_id_length (m : gmap span nat) (c : nat) (x : span)
    (ids ids' : list Z) :
  assign_cluster_id m c x ids = Ok ids' → length ids' = length ids.
Proof.
  unfold assign_cluster_id. destruct (m !! x); [| done].
  intros [= <-]. by rewrite length_insert.
Qed.

Lemma gold_cluster_ids_length (clusters : list (list span)) (gm : list span)
    (ids : list Z) :
  gold_cluster_ids clusters = Ok (gm, ids) → length ids = length gm.
Proof.
  unfold gold_cluster_ids. intros (ids' & Hloop & [= <- <-])%bind_Ok.
  revert Hloop.
  apply (for_enumerate_inv_ok _
           (λ _ ids0, length ids0 = length (sorted (flatten clusters)))).
  - by rewrite length_replicate.
  - intros c cl ids0 ids1 _ Hlen. unfold for_each.
    apply (for_enumerate_inv_ok _
             (λ _ ids2, length ids2 = length (sorted (flatten clusters))));
      [done |].
    intros j y ids2 ids3 _ Hlen2 Hassign.
    apply assign_cluster_id_length in Hassign. congruence.
Qed.

(** The boolean mask selects the same positions of the three gold arrays. *)
Lemma np_mask_spans (f : Z → Z → bool) (gs ge ids : list Z) :
  length ge = length gs → length ids = length gs →
  ∃ gs' ge' ids',
    np_mask gs (zip_with f ge gs) = Ok gs'
    ∧ np_mask ge (zip_with f ge gs) = Ok ge'
    ∧ np_mask ids (zip_with f ge gs) = Ok ids'
    ∧ zip (zip gs' ge') ids'
      = filter (λ x, f x.1.2 x.1.1 = true) (zip (zip gs ge) ids).
Proof.
  intros Hge Hids. unfold np_mask.
  rewrite !decide_True by (rewrite length_zip_with; lia).
  do 3 eexists. do 3 (split; [reflexivity |]).
  revert ge ids Hge Hids.
  induction gs as [|s gs IH]; intros [|e ge] [|c ids] Hge Hids;
    simpl in *; try done.
  rewrite !filter_cons. simpl.
  destruct (f e s) eqn:Hf; simpl.
  - f_equal. apply IH; lia.
  - apply IH; lia.
Qed.

Lemma zip_shift (wo : Z) (gs ge ids : list Z) :
  zip (zip (map (λ s, s - wo) gs) (map (λ e, e - wo) ge)) ids
  = map (λ x, (x.1.1 - wo, x.1.2 - wo, x.2)) (zip (zip gs ge) ids).
Proof.
  revert ge ids. induction gs as [|s gs IH]; intros [|e ge] [|c ids];
    simpl; try done.
  by rewrite IH.
Qed.

(** [truncate_example] on a tuple with more than [M] sentences and a drawn
    offset in range. *)
Lemma truncate_example_total {E : Type} (cfg : model_config) (r : Z) (t : tensors E) :
  let M := max_training_sentences cfg in
  let wo := py_sum (take (Z.to_nat r) (text_len t)) in
  let nw := py_sum (take (Z.to_nat M) (drop (Z.to_nat r) (text_len t))) in
  0 <= M < Z.of_nat (length (word_emb t)) →
  length (text_len t) = length (word_emb t) →
  length (gold_ends t) = length (gold_starts t) →
  length (cluster_ids t) = length (gold_starts t) →
  randint_range 0 (Z.of_nat (length (word_emb t)) - M) r →
  ∃ t',
    truncate_example cfg r t = Ok t'
    ∧ text_len t' = take (Z.to_nat M) (drop (Z.to_nat r) (text_len t))
    ∧ word_emb t' = take (Z.to_nat M) (drop (Z.to_nat r) (word_emb t))
    ∧ char_index t' = py_slice (char_index t) r (r + M)
    ∧ speaker_ids t' = py_slice (speaker_ids t) wo (wo + nw)
    ∧ length (text_len t') = Z.to_nat M
    ∧ length (word_emb t') = Z.to_nat M
    ∧ genre t' = genre t
    ∧ is_training t' = is_training t
    ∧ zip (zip (gold_starts t') (gold_ends t')) (cluster_ids t')
      = map (λ x, (x.1.1 - wo, x.1.2 - wo, x.2))
          (filter (λ x, wo <= x.1.2 ∧ x.1.1 < wo + nw)
             (zip (zip (gold_starts t) (gold_ends t)) (cluster_ids t))).
Proof.
  intros M wo nw HM Htl Hge Hids [Hr0 Hr1].
  unfold truncate_example. fold M.
  replace (Z.of_nat (length (word_emb t)) >? M) with true
    by (symmetry; apply Z.gtb_lt; lia).
  simpl. rewrite bool_decide_eq_true_2 by done. simpl.
  assert (py_slice (text_len t) 0 r = take (Z.to_nat r) (text_len t)) as ->.
  { rewrite py_slice_inner by lia. by rewrite Z.sub_0_r. }
  assert (py_slice (text_len t) r (r + M)
          = take (Z.to_nat M) (drop (Z.to_nat r) (text_len t))) as Htl'.
  { rewrite py_slice_inner by lia. f_equal. lia. }
  assert (py_slice (word_emb t) r (r + M)
          = take (Z.to_nat M) (drop (Z.to_nat r) (word_emb t))) as Hwe'.
  { rewrite py_slice_inner by lia. f_equal. lia. }
  rewrite Htl', Hwe'. fold wo nw.
  destruct (np_mask_spans (λ e s, (e >=? wo) && (s <? wo + nw))
              (gold_starts t) (gold_ends t) (cluster_ids t) Hge Hids)
    as (gs' & ge' & ids' & -> & -> & -> & Hzip).
  simpl. eexists. split; [reflexivity |]. simpl.
  do 4 (split; [done |]).
  split; [rewrite length_take, length_drop; lia |].
  split; [rewrite length_take, length_drop; lia |].
  do 2 (split; [done |]).
  rewrite zip_shift, Hzip. f_equal. apply list_filter_iff.
  intros [[s e] c]. simpl. rewrite andb_true_iff, Z.geb_le, Z.ltb_lt. done.
Qed.

(** C4.  [tensorize_example] returns the untruncated tuple unless the call is
    a training call on more sentences than the cap; on a training document
    with [N] sentences and cap [M < N], for any offset [r] that
    [random.randint(0, N - M)] can draw, it returns what [truncate_example]
    returns: the [M] sentences from position [r] on, and the gold spans that
    meet the retained words, moved back by the word offset of the window,
    each with its cluster id; the other gold spans and their cluster ids are
    dropped. *)
Theorem tensorize_example_truncation {E : Type} (embedder : embedder_arg → list E)
    (char_dict : Ascii.ascii → result Z) (lower : string → string)
    (set_order : list string → list string) (cfg : model_config) (ex : example)
    (training : bool) (r : Z) (t : tensors E) :
  tensorize_full embedder char_dict lower set_order cfg ex training = Ok t →
  let N := Z.of_nat (length (ex_sentences ex)) in
  let M := max_training_sentences cfg in
  let wo := py_sum (take (Z.to_nat r) (text_len t)) in
  let nw := py_sum (take (Z.to_nat M) (drop (Z.to_nat r) (text_len t))) in
  (training && (N >? M) = false →
   tensorize_example embedder char_dict lower set_order cfg r ex training = Ok t)
  ∧ (training = true → 0 <= M < N →
     length (word_emb t) = length (ex_sentences ex) →
     randint_range 0 (N - M) r →
     ∃ t',
       tensorize_example embedder char_dict lower set_order cfg r ex training = Ok t'
       ∧ truncate_example cfg r t = Ok t'
       ∧ text_len t' = take (Z.to_nat M) (drop (Z.to_nat r) (text_len t))
       ∧ word_emb t' = take (Z.to_nat M) (drop (Z.to_nat r) (word_emb t))
       ∧ char_index t' = take (Z.to_nat M) (drop (Z.to_nat r) (char_index t))
       ∧ speaker_ids t' = py_slice (speaker_ids t) wo (wo + nw)
       ∧ length (text_len t') = Z.to_nat M
       ∧ length (word_emb t') = Z.to_nat M
       ∧ length (char_index t') = Z.to_nat M
       ∧ zip (zip (gold_starts t') (gold_ends t')) (cluster_ids t')
         = map (λ x, (x.1.1 - wo, x.1.2 - wo, x.2))
             (filter (λ x, wo <= x.1.2 ∧ x.1.1 < wo + nw)
                (zip (zip (gold_starts t) (gold_ends t)) (cluster_ids t)))).
Proof.
  intros Ht N M wo nw. unfold tensorize_example. rewrite Ht. simpl. fold N M.
  split; [by intros -> |].
  intros -> HM Hwe Hr. simpl.
  replace (N >? M) with true by (symmetry; apply Z.gtb_lt; lia).
  apply tensorize_full_fields in Ht
    as (gm & ids & Hgold & Hcids & Hgs & Hge & Htl & _ & Hci).
  apply gold_cluster_ids_length in Hgold.
  destruct (truncate_example_total cfg r t)
    as (t' & Ht' & Htl' & Hwe' & Hci' & Hsp' & Hl1 & Hl2 & _ & _ & Hzip).
  - fold M. unfold N in HM. lia.
  - by rewrite Htl, length_map, Hwe.
  - by rewrite Hgs, Hge, !length_map.
  - rewrite Hcids, Hgs, length_map. done.
  - by rewrite Hwe.
  - destruct Hr as [Hr0 Hr1].
    assert (char_index t' = take (Z.to_nat M) (drop (Z.to_nat r) (char_index t)))
      as Hci''.
    { rewrite Hci'. rewrite py_slice_inner by (unfold N in *; lia).
      f_equal. fold M. lia. }
    exists t'. do 5 (split; [done |]). split; [done |].
    do 2 (split; [done |]). split; [| done].
    rewrite Hci'', length_take, length_drop. unfold N in *. lia.
Qed.

Example truncate_three_sentences :
  bind (tensorize_example embed_unit char_code (λ w, w) remove_dups cap_two 1
          three_sentences true)
       (λ t, Ok (text_len t, speaker_ids t, gold_starts t, gold_ends t, cluster_ids t))
  = Ok ([2; 1], [0; 1; 1], [0; 2], [1; 2], [1; 0]).
Proof. vm_compute. reflexivity. Qed.

Lemma tensorize_example_truncation_witness :
  tensorize_full embed_unit char_code (λ w, w) remove_dups cap_two
    three_sentences true = Ok three_tensors
  ∧ ∃ t',
      tensorize_example embed_unit char_code (λ w, w) remove_dups cap_two 1
        three_sentences true = Ok t'
      ∧ truncate_example cap_two 1 three_tensors = Ok t'
      ∧ length (text_len t') = 2%nat
      ∧ zip (zip (gold_starts t') (gold_ends t')) (cluster_ids t')
        = [(0, 1, 1); (2, 2, 0)].
Proof.
  assert (tensorize_full embed_unit char_code (λ w, w) remove_dups cap_two
            three_sentences true = Ok three_tensors) as Ht
    by (vm_compute; reflexivity).
  split; [exact Ht |].
  destruct (tensorize_example_truncation embed_unit char_code (λ w, w) remove_dups
              cap_two three_sentences true 1 three_tensors Ht) as [_ Htrunc].
  destruct Htrunc as (t' & H1 & H2 & _ & _ & _ & _ & H3 & _ & _ & H4).
  - reflexivity.
  - vm_compute. split; [discriminate | reflexivity].
  - reflexivity.
  - vm_compute. split; discriminate.
  - exists t'. split; [exact H1 |]. split; [exact H2 |]. split; [exact H3 |].
    rewrite H4. vm_compute. reflexivity.
Defined.

(** ** Tensor operations on equal shapes *)

Lemma mapM_zip_pure {A B C : Type} (f : A → B → C) (xs : list A) (ys : list B) :
  mapM (λ p, Ok (f p.1 p.2)) (zip xs ys) = Ok (zip_with f xs ys).
Proof.
  revert ys. induction xs as [|x xs IH]; intros [|y ys]; simpl; try done.
  by rewrite IH.
Qed.

Lemma tf_map2_1_same {A B C : Type} (f : A → B → C) (xs : list A) (ys : list B) :
  length xs = length ys → tf_map2_1 f xs ys = Ok (zip_with f xs ys).
Proof.
  intros Hlen. unfold tf_map2_1, tf_broadcast. rewrite decide_True by done.
  apply mapM_zip_pure.
Qed.

Lemma mapM_zip_rows {A B C : Type} (f : A → B → C)
    (xs : list (list A)) (ys : list (list B)) :
  Forall2 (λ r1 r2, length r1 = length r2) xs ys →
  mapM (λ p, tf_map2_1 f p.1 p.2) (zip xs ys) = Ok (zip_with (zip_with f) xs ys).
Proof.
  induction 1 as [|r1 r2 xs ys Hr _ IH]; simpl; [done |].
  by rewrite tf_map2_1_same, IH.
Qed.

Lemma tf_map2_2_same {A B C : Type} (f : A → B → C)
    (xs : list (list A)) (ys : list (list B)) :
  Forall2 (λ r1 r2, length r1 = length r2) xs ys →
  tf_map2_2 f xs ys = Ok (zip_with (zip_with f) xs ys).
Proof.
  intros Hrows. unfold tf_map2_2, tf_broadcast.
  rewrite decide_True by by eapply Forall2_length.
  by apply mapM_zip_rows.
Qed.

Lemma has_shape_rows {A B : Type} (xs : list (list A)) (ys : list (list B))
    (n m : nat) :
  has_shape xs n m → has_shape ys n m →
  Forall2 (λ r1 r2, length r1 = length r2) xs ys.
Proof.
  intros [Hn Hx] [Hn' Hy]. apply Forall2_same_length_lookup_2; [lia |].
  intros i r1 r2 H1 H2.
  rewrite (Forall_lookup_1 _ _ _ _ Hx H1), (Forall_lookup_1 _ _ _ _ Hy H2). done.
Qed.

(** ** Loss *)

Lemma xlog_cast_true : xlog (cast_bool true) = Fin 0.
Proof.
  simpl. destruct (Rlt_dec 0 1) as [_|Hn]; [by rewrite ln_1 | exfalso; lra].
Qed.

Lemma xlog_cast_false : xlog (cast_bool false) = NegInf.
Proof.
  simpl. destruct (Rlt_dec 0 0) as [Hlt|_]; [exfalso; lra | done].
Qed.

(** Adding the log of the labels removes the unlabelled scores from the sum
    of exponentials. *)
Lemma gold_row_sum (row : list xreal) (labels : list bool) :
  Forall is_score row →
  ∃ r, xsum (map xexp (zip_with xadd row
                          (map (λ b, xlog (cast_bool b)) labels))) = Fin r
       ∧ xsum (map xexp (gold_scores_of row labels)) = Fin r.
Proof.
  intros Hrow. revert labels.
  induction Hrow as [|x row Hx _ IH]; intros [|b labels];
    try (by exists 0%R).
  destruct (IH labels) as (r & Hsum & Hgold).
  unfold gold_scores_of in *. cbn [map zip_with zip xsum foldr].
  rewrite filter_cons. cbn [snd]. fold (xsum (map xexp
    (zip_with xadd row (map (λ b, xlog (cast_bool b)) labels)))).
  rewrite Hsum. destruct b.
  - rewrite xlog_cast_true, decide_True by done.
    cbn [map fst xsum foldr].
    fold (xsum (map xexp (map fst (filter (λ p : xreal * bool, p.2 = true)
                                     (zip row labels))))).
    rewrite Hgold. destruct x as [|v| |]; try done; simpl.
    + by eexists.
    + rewrite Rplus_0_r. by eexists.
  - rewrite xlog_cast_false, decide_False by done. rewrite Hgold.
    exists r. split; [| done].
    destruct x as [|v| |]; try done; simpl; by rewrite Rplus_0_l.
Qed.

Lemma gold_row_logsumexp (row : list xreal) (labels : list bool) :
  Forall is_score row →
  reduce_logsumexp (zip_with xadd row (map (λ b, xlog (cast_bool b)) labels))
  = reduce_logsumexp (gold_scores_of row labels).
Proof.
  intros Hrow. unfold reduce_logsumexp.
  destruct (gold_row_sum row labels Hrow) as (r & -> & ->). done.
Qed.

(** C5.  On a score matrix and a 0/1 label matrix of the same shape, the
    scores being real numbers or [-inf], the loss of mention [i] is the
    log-sum-exp of its row of scores minus the log-sum-exp of the
    gold-labelled scores of that row, and the document loss is the sum of
    these. *)
Theorem softmax_loss_spec (n m : nat) (antecedent_scores : tensor2)
    (antecedent_labels : list (list bool)) :
  has_shape antecedent_scores n m →
  has_shape antecedent_labels n m →
  Forall (Forall is_score) antecedent_scores →
  ∃ loss,
    softmax_loss antecedent_scores antecedent_labels = Ok loss
    ∧ length loss = n
    ∧ (∀ (i : nat) row labels,
         antecedent_scores !! i = Some row →
         antecedent_labels !! i = Some labels →
         loss !! i = Some (xsub (reduce_logsumexp row)
                             (reduce_logsumexp (gold_scores_of row labels))))
    ∧ document_loss antecedent_scores antecedent_labels = Ok (xsum loss).
Proof.
  intros Hs Hl Hscore.
  pose proof (has_shape_rows _ _ _ _ Hs Hl) as Hrows.
  assert (softmax_loss antecedent_scores antecedent_labels
          = Ok (zip_with (λ row labels,
                            xsub (reduce_logsumexp row)
                              (reduce_logsumexp (gold_scores_of row labels)))
                  antecedent_scores antecedent_labels)) as Hloss.
  { unfold softmax_loss. rewrite tf_map2_2_same.
    2: { apply Forall2_fmap_r. eapply Forall2_impl; [exact Hrows |].
         intros r1 r2 Hr. simpl. by rewrite length_map. }
    simpl. rewrite tf_map2_1_same.
    2: { rewrite !length_map, length_zip_with, length_map.
         apply Forall2_length in Hrows. lia. }
    f_equal. clear Hs Hl. revert Hscore.
    induction Hrows as [|row labels ss ls Hr _ IH]; intros Hscore; [done |].
    apply Forall_cons in Hscore as [Hrow Hscore]. simpl.
    rewrite gold_row_logsumexp by done. f_equal. by apply IH. }
  eexists. split; [exact Hloss |]. split; [| split].
  - rewrite length_zip_with. destruct Hs as [<- _].
    apply Forall2_length in Hrows. lia.
  - intros i row labels Hrow Hlab. apply lookup_zip_with_Some.
    by exists row, labels.
  - unfold document_loss. by rewrite Hloss.
Qed.

Lemma softmax_loss_spec_witness :
  ∃ loss,
    softmax_loss [[Fin 0; Fin 1]; [Fin 0; NegInf]] [[false; true]; [true; false]]
    = Ok loss
    ∧ length loss = 2%nat
    ∧ (∀ (i : nat) row labels,
         [[Fin 0; Fin 1]; [Fin 0; NegInf]] !! i = Some row →
         [[false; true]; [true; false]] !! i = Some labels →
         loss !! i = Some (xsub (reduce_logsumexp row)
                             (reduce_logsumexp (gold_scores_of row labels))))
    ∧ document_loss [[Fin 0; Fin 1]; [Fin 0; NegInf]]
        [[false; true]; [true; false]] = Ok (xsum loss).
Proof.
  apply (softmax_loss_spec 2 2).
  - split; [reflexivity | repeat constructor].
  - split; [reflexivity | repeat constructor].
  - repeat constructor.
Defined.

(** ** Antecedent scores *)

Lemma list_as_map_seq {A : Type} (d : A) (l : list A) :
  l = map (λ i, nth i l d) (seq 0 (length l)).
Proof.
  apply list_eq. intros i. rewrite list_lookup_fmap.
  destruct (decide (i < length l)%nat) as [Hlt|Hge].
  - rewrite lookup_seq_lt by done. simpl.
    destruct (lookup_lt_is_Some_2 l i Hlt) as [x Hx].
    by rewrite Hx, (nth_lookup_Some _ _ _ _ Hx).
  - rewrite lookup_seq_ge by lia. by rewrite lookup_ge_None_2 by lia.
Qed.

Lemma matrix_as_tab {A : Type} (d : A) (a : list (list A)) (n m : nat) :
  has_shape a n m → a = tab n m (λ i j, nth j (nth i a []) d).
Proof.
  intros [Hn Hrows]. unfold tab. rewrite (list_as_map_seq [] a) at 1.
  rewrite Hn. apply map_ext_in. intros i Hi%in_seq.
  assert (length (nth i a []) = m) as Hlen.
  { destruct (lookup_lt_is_Some_2 a i) as [row Hrow]; [lia |].
    rewrite (nth_lookup_Some _ _ _ _ Hrow).
    by apply (Forall_lookup_1 _ _ _ _ Hrows Hrow). }
  rewrite (list_as_map_seq d (nth i a [])) at 1. by rewrite Hlen.
Qed.

Lemma tab_shape {A : Type} (n m : nat) (F : nat → nat → A) :
  has_shape (tab n m F) n m.
Proof.
  unfold tab. split; [by rewrite length_map, length_seq |].
  apply Forall_fmap, Forall_forall. intros i _. simpl.
  by rewrite length_map, length_seq.
Qed.

Lemma tab_ext {A : Type} (n m : nat) (F G : nat → nat → A) :
  (∀ i j, (i < n)%nat → (j < m)%nat → F i j = G i j) → tab n m F = tab n m G.
Proof.
  intros HFG. unfold tab. apply map_ext_in. intros i Hi%in_seq.
  apply map_ext_in. intros j Hj%in_seq. apply HFG; lia.
Qed.

Lemma map_map_tab {A B : Type} (h : A → B) (n m : nat) (F : nat → nat → A) :
  map (map h) (tab n m F) = tab n m (λ i j, h (F i j)).
Proof.
  unfold tab. rewrite map_map. apply map_ext. intros i. by rewrite map_map.
Qed.

Lemma mapM_map {A B C : Type} (f : B → result C) (g : A → B) (l : list A) :
  mapM f (map g l) = mapM (λ x, f (g x)) l.
Proof. induction l as [|x l IH]; simpl; [done | by rewrite IH]. Qed.

Lemma mapM_zip_maps {A B C D : Type} (f : B → C → result D)
    (F1 : A → B) (F2 : A → C) (l : list A) :
  mapM (λ p, f p.1 p.2) (zip (map F1 l) (map F2 l))
  = mapM (λ x, f (F1 x) (F2 x)) l.
Proof. induction l as [|x l IH]; simpl; [done | by rewrite IH]. Qed.

Lemma mapM_pure_in {A B : Type} (f : A → result B) (h : A → B) (l : list A) :
  (∀ x, In x l → f x = Ok (h x)) → mapM f l = Ok (map h l).
Proof.
  intros Hf. rewrite <- mapM_pure. apply mapM_ext_in.
  intros x Hx. apply Hf. by apply list_elem_of_In.
Qed.

(** Broadcasting and exact zipping of two tensors tabulated over one list. *)
Lemma tf_broadcast_maps {A B C D : Type} (f : B → C → result D)
    (F1 : A → B) (F2 : A → C) (h : A → D) (l : list A) :
  (∀ x, In x l → f (F1 x) (F2 x) = Ok (h x)) →
  tf_broadcast f (map F1 l) (map F2 l) = Ok (map h l).
Proof.
  intros Hf. unfold tf_broadcast. rewrite decide_True by by rewrite !length_map.
  rewrite mapM_zip_maps. by apply mapM_pure_in.
Qed.

Lemma zip_exact_maps {A B C D : Type} (f : B → C → result D)
    (F1 : A → B) (F2 : A → C) (h : A → D) (l : list A) :
  (∀ x, In x l → f (F1 x) (F2 x) = Ok (h x)) →
  zip_exact f (map F1 l) (map F2 l) = Ok (map h l).
Proof.
  intros Hf. unfold zip_exact. rewrite decide_True by by rewrite !length_map.
  rewrite mapM_zip_maps. by apply mapM_pure_in.
Qed.

Lemma tf_map2_1_maps {A B C D : Type} (g : B → C → D)
    (F1 : A → B) (F2 : A → C) (l : list A) :
  tf_map2_1 g (map F1 l) (map F2 l) = Ok (map (λ x, g (F1 x) (F2 x)) l).
Proof. unfold tf_map2_1. by apply tf_broadcast_maps. Qed.

Lemma tf_map2_1_stretch {B C D : Type} (g : B → C → D) (s : B) (ys : list C) :
  tf_map2_1 g [s] ys = Ok (map (g s) ys).
Proof.
  unfold tf_map2_1, tf_broadcast. destruct (decide _) as [Hlen|Hlen].
  - destruct ys as [|y [|y' ys]]; try done.
  - by rewrite mapM_pure.
Qed.

Lemma tf_map2_2_tab {B C D : Type} (g : B → C → D) (n m : nat)
    (F1 : nat → nat → B) (F2 : nat → nat → C) :
  tf_map2_2 g (tab n m F1) (tab n m F2) = Ok (tab n m (λ i j, g (F1 i j) (F2 i j))).
Proof.
  unfold tf_map2_2, tab. apply tf_broadcast_maps.
  intros i _. apply tf_map2_1_maps.
Qed.

Lemma tf_map2_2_column {B C D : Type} (g : B → C → D) (n m : nat)
    (V : nat → B) (F2 : nat → nat → C) :
  tf_map2_2 g (map (λ s, [s]) (map V (seq 0 n))) (tab n m F2)
  = Ok (tab n m (λ i j, g (V i) (F2 i j))).
Proof.
  unfold tf_map2_2, tab. rewrite map_map. apply tf_broadcast_maps.
  intros i _. rewrite tf_map2_1_stretch. by rewrite map_map.
Qed.

Lemma tf_map2_3_tab {B C D : Type} (g : B → C → D) (n m : nat)
    (F1 : nat → nat → list B) (F2 : nat → nat → list C) :
  (∀ i j, (i < n)%nat → (j < m)%nat → length (F1 i j) = length (F2 i j)) →
  tf_map2_3 g (tab n m F1) (tab n m F2)
  = Ok (tab n m (λ i j, zip_with g (F1 i j) (F2 i j))).
Proof.
  intros Hlen. unfold tf_map2_3, tab. apply tf_broadcast_maps.
  intros i Hi%in_seq. apply tf_broadcast_maps.
  intros j Hj%in_seq. apply tf_map2_1_same. apply Hlen; lia.
Qed.

Lemma tf_concat_axis2_tab {A : Type} (n m : nat) (F1 F2 : nat → nat → list A) :
  tf_concat_axis2 (tab n m F1) (tab n m F2)
  = Ok (tab n m (λ i j, F1 i j ++ F2 i j)).
Proof.
  unfold tf_concat_axis2, tab. apply zip_exact_maps.
  intros i _. unfold tf_concat_axis1. by apply zip_exact_maps.
Qed.

Lemma tf_gather_nth {A : Type} (d : A) (params : list A) (i : Z) :
  0 <= i < Z.of_nat (length params) →
  tf_gather params i = Ok (nth (Z.to_nat i) params d).
Proof.
  intros Hi. unfold tf_gather.
  replace (0 <=? i) with true by (symmetry; apply Z.leb_le; lia).
  replace (i <? Z.of_nat (length params)) with true
    by (symmetry; apply Z.ltb_lt; lia).
  simpl. destruct (lookup_lt_is_Some_2 params (Z.to_nat i)) as [x Hx]; [lia |].
  by rewrite Hx, (nth_lookup_Some _ _ _ _ Hx).
Qed.

Lemma tf_gather2_tab {A : Type} (d : A) (params : list A) (n m : nat)
    (F : nat → nat → Z) :
  (∀ i j, (i < n)%nat → (j < m)%nat → 0 <= F i j < Z.of_nat (length params)) →
  tf_gather2 params (tab n m F)
  = Ok (tab n m (λ i j, nth (Z.to_nat (F i j)) params d)).
Proof.
  intros Hrange. unfold tf_gather2, tab. rewrite mapM_map.
  apply mapM_pure_in. intros i Hi%in_seq. rewrite mapM_map.
  apply mapM_pure_in. intros j Hj%in_seq. apply tf_gather_nth. apply Hrange; lia.
Qed.

Lemma replicate_as_map {A : Type} (n : nat) (x : A) :
  replicate n x = map (λ _, x) (seq 0 n).
Proof.
  generalize 0%nat. induction n as [|n IH]; intros k; simpl; [done |].
  by rewrite <- IH.
Qed.

Lemma imap_map_seq {A B : Type} (f : nat → A → B) (g : nat → A) (n : nat) :
  imap f (map g (seq 0 n)) = map (λ i, f i (g i)) (seq 0 n).
Proof.
  apply list_eq. intros i. rewrite list_lookup_imap, !list_lookup_fmap.
  destruct (seq 0 n !! i) as [k|] eqn:Hk; simpl; [| done].
  apply lookup_seq in Hk as [-> _]. done.
Qed.

Lemma nth_map_seq {A : Type} (F : nat → A) (n i : nat) (d : A) :
  (i < n)%nat → nth i (map F (seq 0 n)) d = F i.
Proof.
  intros Hi. apply nth_lookup_Some.
  by rewrite list_lookup_fmap, lookup_seq_lt.
Qed.

Lemma ncols_tab {A : Type} (n m : nat) (F : nat → nat → A) :
  (0 < n)%nat → ncols (tab n m F) = m.
Proof.
  destruct n as [|n]; [lia |]. intros _. unfold tab. simpl.
  by rewrite length_map, length_seq.
Qed.

Lemma tf_squeeze2_singletons {A B : Type} (f : A → B) (out : list (list A)) :
  tf_squeeze2 (map (map (λ x, [f x])) out) = Ok (map (map f) out).
Proof.
  unfold tf_squeeze2. rewrite mapM_map. apply mapM_pure_in.
  intros row _. rewrite mapM_map. by apply mapM_pure_in.
Qed.

Lemma tf_sequence_mask_tab (L : nat → Z) (n m : nat) :
  tf_sequence_mask (map L (seq 0 n)) m = tab n m (λ i j, Z.of_nat j <? L i).
Proof. unfold tf_sequence_mask, tab. by rewrite map_map. Qed.

Lemma tiled_as_tab {A : Type} (F : nat → A) (n m : nat) :
  map (λ e, replicate m e) (map F (seq 0 n)) = tab n m (λ i _, F i).
Proof.
  unfold tab. rewrite map_map. apply map_ext. intros i.
  apply replicate_as_map.
Qed.

Lemma replicate_as_tab {A : Type} (x : A) (n m : nat) :
  replicate n (replicate m x) = tab n m (λ _ _, x).
Proof. unfold tab. by rewrite !replicate_as_map. Qed.

Lemma tf_concat_zero_column (n m : nat) (F : nat → nat → xreal) :
  tf_concat_axis1 (replicate n [Fin 0]) (tab n m F)
  = Ok (map (λ i, Fin 0 :: map (F i) (seq 0 m)) (seq 0 n)).
Proof.
  rewrite replicate_as_map. unfold tf_concat_axis1, tab.
  by apply zip_exact_maps.
Qed.

Section AntecedentScoresProof.
Context (ffnn : tensor3 → tensor3).
Context (distance_bins : Z → Z).
Context (dropout : nat → nat → nat → xreal → xreal).

Lemma tf_dropout_tab (n m : nat) (F : nat → nat → vec) :
  tf_dropout dropout (tab n m F) = tab n m (λ i j, imap (dropout i j) (F i j)).
Proof.
  unfold tf_dropout, tab. rewrite imap_map_seq. apply map_ext. intros i.
  by rewrite imap_map_seq.
Qed.

Lemma tf_broadcast_nil {A B C : Type} (f : A → B → result C) :
  tf_broadcast f [] [] = Ok [].
Proof. done. Qed.

Lemma zip_exact_nil {A B C : Type} (f : A → B → result C) :
  zip_exact f [] [] = Ok [].
Proof. done. Qed.

Lemma tf_concat_list_one {A : Type} (t : list (list (list A))) :
  tf_concat_list_axis2 [t] = Ok t.
Proof. done. Qed.

Lemma tf_concat_list_cons {A : Type} (n m : nat)
    (F : nat → nat → list A) (G : nat → nat → list A)
    (ts : list (list (list (list A)))) :
  ts ≠ [] →
  tf_concat_list_axis2 ts = Ok (tab n m G) →
  tf_concat_list_axis2 (tab n m F :: ts) = Ok (tab n m (λ i j, F i j ++ G i j)).
Proof.
  intros Hts Hrest. destruct ts as [|t ts]; [done |].
  cbn [tf_concat_list_axis2] in *. rewrite Hrest. cbn [bind].
  apply tf_concat_axis2_tab.
Qed.

(** The feature tensor: entry [(i, j)] is the feature vector of mention [i]
    and its candidate in slot [j], after dropout. *)
Lemma pair_feature_emb_tab (p : scoring_params) (n m : nat)
    (Aij : nat → nat → Z) (SP : nat → Z) (genre_emb : vec) :
  (∀ i j, (i < n)%nat → (j < m)%nat → 0 <= Aij i j < Z.of_nat n) →
  use_metadata p = true ∨ use_features p = true →
  (use_features p = true →
   length (mention_distance_emb p) = 10%nat ∧ ∀ z, 0 <= distance_bins z < 10) →
  pair_feature_emb distance_bins dropout p n m (tab n m Aij)
    (map SP (seq 0 n)) genre_emb
  = Ok (tab n m (λ i j,
          imap (dropout i j)
            (pair_features distance_bins p (map SP (seq 0 n)) genre_emb i (Aij i j)))).
Proof.
  intros Hrange Hflags Hbins. unfold pair_feature_emb, pair_features.
  assert (∀ i j, (i < n)%nat → (j < m)%nat → (Z.to_nat (Aij i j) < n)%nat) as Hidx.
  { intros i j Hi Hj. specialize (Hrange i j Hi Hj). lia. }
  assert ((if use_metadata p then
             antecedent_speaker_ids ←! tf_gather2 (map SP (seq 0 n)) (tab n m Aij);
             same_speaker ←! tf_map2_2 (λ a b : Z, bool_decide (a = b))
                               (map (λ s, [s]) (map SP (seq 0 n)))
                               antecedent_speaker_ids;
             Ok [map (map (λ b : bool,
                             if b then snd (same_speaker_emb p)
                             else fst (same_speaker_emb p))) same_speaker;
                 replicate n (replicate m genre_emb)]
           else Ok [])
          = Ok (if use_metadata p then
                  [tab n m (λ i j,
                      if bool_decide (nth i (map SP (seq 0 n)) 0
                                      = nth (Z.to_nat (Aij i j)) (map SP (seq 0 n)) 0)
                      then snd (same_speaker_emb p) else fst (same_speaker_emb p));
                   tab n m (λ _ _, genre_emb)]
                else [])) as ->.
  { destruct (use_metadata p); [| done].
    rewrite (tf_gather2_tab 0)
      by (intros; rewrite length_map, length_seq; by apply Hrange).
    cbn [bind]. rewrite tf_map2_2_column. cbn [bind].
    rewrite map_map_tab, replicate_as_tab. do 2 f_equal.
    apply tab_ext. intros i j Hi Hj. by rewrite (nth_map_seq SP n i 0 Hi). }
  assert ((if use_features p then
             mention_distance ←! tf_map2_2 Z.sub
                                   (map (λ t, [t]) (map Z.of_nat (seq 0 n)))
                                   (tab n m Aij);
             mention_distance_emb ←!
               tf_gather2 (mention_distance_emb p)
                 (map (map distance_bins) mention_distance);
             Ok [mention_distance_emb]
           else Ok [])
          = Ok (if use_features p then
                  [tab n m (λ i j,
                      nth (Z.to_nat (distance_bins (Z.of_nat i - Aij i j)))
                        (mention_distance_emb p) [])]
                else [])) as ->.
  { destruct (use_features p); [| done]. destruct Hbins as [Hlen Hb]; [done |].
    rewrite tf_map2_2_column. cbn [bind]. rewrite map_map_tab.
    rewrite (tf_gather2_tab ([] : vec)) by (intros; rewrite Hlen; apply Hb).
    done. }
  cbn [bind].
  destruct (use_metadata p), (use_features p); cbn [app].
  - erewrite tf_concat_list_cons; [| done |].
    2: { erewrite tf_concat_list_cons; [done | done |]. apply tf_concat_list_one. }
    cbn [bind]. rewrite tf_dropout_tab. f_equal. apply tab_ext.
    intros i j _ _. by rewrite app_assoc.
  - erewrite tf_concat_list_cons; [| done | apply tf_concat_list_one].
    cbn [bind]. rewrite tf_dropout_tab. f_equal. apply tab_ext.
    intros i j _ _. by rewrite app_nil_r.
  - rewrite tf_concat_list_one. cbn [bind]. by rewrite tf_dropout_tab.
  - by destruct Hflags.
Qed.

(** The scores for inputs tabulated by index: [n > 0] mentions, [m] slots. *)
Lemma get_antecedent_scores_tab (p : scoring_params) (n m d : nat)
    (EMB : nat → vec) (MS : nat → R) (Aij : nat → nat → Z) (L SP : nat → Z)
    (genre_emb : vec) :
  (0 < n)%nat →
  (∀ i, (i < n)%nat → length (EMB i) = d) →
  (∀ i j, (i < n)%nat → (j < m)%nat → 0 <= Aij i j < Z.of_nat n) →
  use_metadata p = true ∨ use_features p = true →
  (use_features p = true →
   length (mention_distance_emb p) = 10%nat ∧ ∀ z, 0 <= distance_bins z < 10) →
  (∀ t, has_shape t n m →
        ∃ out : list (list R),
          has_shape out n m ∧ ffnn t = map (map (λ x, [Fin x])) out) →
  ∃ out : list (list R),
    has_shape out n m
    ∧ ffnn (tab n m (λ i j,
              pair_emb_entry distance_bins dropout p (map EMB (seq 0 n))
                (map SP (seq 0 n)) genre_emb i j (Aij i j)))
      = map (map (λ x, [Fin x])) out
    ∧ get_antecedent_scores ffnn distance_bins dropout p
        (map EMB (seq 0 n)) (map (λ i, Fin (MS i)) (seq 0 n))
        (tab n m Aij) (map L (seq 0 n)) (map SP (seq 0 n)) genre_emb
      = Ok (map (λ i,
               Fin 0 :: map (λ j,
                          if Z.of_nat j <? L i then
                            Fin (nth j (nth i out []) 0%R + MS i
                                 + MS (Z.to_nat (Aij i j)))%R
                          else NegInf) (seq 0 m)) (seq 0 n)).
Proof.
  intros Hn Hemb Hrange Hflags Hbins Hffnn.
  destruct (Hffnn (tab n m (λ i j,
              pair_emb_entry distance_bins dropout p (map EMB (seq 0 n))
                (map SP (seq 0 n)) genre_emb i j (Aij i j))))
    as (out & Hout & Hffnn_out); [apply tab_shape |].
  exists out. split; [done |]. split; [done |].
  assert (∀ i j, (i < n)%nat → (j < m)%nat → (Z.to_nat (Aij i j) < n)%nat) as Hidx.
  { intros i j Hi Hj. specialize (Hrange i j Hi Hj). lia. }
  unfold get_antecedent_scores.
  rewrite (ncols_tab n m Aij Hn), !length_map, !length_seq.
  rewrite pair_feature_emb_tab by done. cbn [bind].
  rewrite (tf_gather2_tab ([] : vec))
    by (intros; rewrite length_map, length_seq; by apply Hrange).
  cbn [bind]. rewrite tiled_as_tab.
  rewrite tf_map2_3_tab.
  2: { intros i j Hi Hj. rewrite nth_map_seq by by apply Hidx.
       rewrite !Hemb; [done | done | by apply Hidx]. }
  cbn [bind].
  erewrite tf_concat_list_cons; [| done |].
  2: { erewrite tf_concat_list_cons; [done | done |].
       erewrite tf_concat_list_cons; [done | done |].
       apply tf_concat_list_one. }
  cbn [bind].
  erewrite (tab_ext n m _); [rewrite Hffnn_out |].
  2: { intros i j Hi Hj. unfold pair_emb_entry.
       by rewrite (nth_map_seq EMB n i [] Hi). }
  rewrite tf_squeeze2_singletons. cbn [bind].
  rewrite (matrix_as_tab 0%R out n m Hout) at 1.
  rewrite map_map_tab, tf_sequence_mask_tab, map_map_tab, tf_map2_2_tab.
  cbn [bind].
  rewrite (tf_gather2_tab NaN)
    by (intros; rewrite length_map, length_seq; by apply Hrange).
  cbn [bind]. rewrite tf_map2_2_column. cbn [bind].
  rewrite tf_map2_2_tab. cbn [bind].
  rewrite tf_concat_zero_column. f_equal.
  apply map_ext_in. intros i Hi%in_seq. f_equal.
  apply map_ext_in. intros j Hj%in_seq.
  rewrite (nth_map_seq (λ k, Fin (MS k)) n _ NaN) by (apply Hidx; lia).
  destruct (Z.of_nat j <? L i).
  - rewrite xlog_cast_true. simpl. f_equal. lra.
  - by rewrite xlog_cast_false.
Qed.

(** C6.  For mentions with real scores and a feed-forward network with real
    outputs, the score row of mention [i] has width [max_antecedents + 1]:
    column 0 is the constant 0 of the "no antecedent" slot, unmasked, and
    column [j + 1] is, for [j] below the candidate count of [i], the network
    output on [target embedding, candidate embedding, elementwise product,
    feature embeddings] plus the score of [i] plus the score of the candidate,
    and [-inf] from the log of the sequence mask for the other [j]. *)
Theorem get_antecedent_scores_spec (p : scoring_params) (n m d : nat)
    (mention_emb : list vec) (ms : list R) (antecedents : list (list Z))
    (antecedents_len mention_speaker_ids : list Z) (genre_emb : vec) :
  length mention_emb = n →
  Forall (λ e, length e = d) mention_emb →
  length ms = n →
  has_shape antecedents n m →
  Forall (Forall (λ a, 0 <= a < Z.of_nat n)) antecedents →
  length antecedents_len = n →
  length mention_speaker_ids = n →
  use_metadata p = true ∨ use_features p = true →
  (use_features p = true →
   length (mention_distance_emb p) = 10%nat ∧ ∀ z, 0 <= distance_bins z < 10) →
  (∀ t, has_shape t n m →
        ∃ out : list (list R),
          has_shape out n m ∧ ffnn t = map (map (λ x, [Fin x])) out) →
  ∃ out : list (list R),
    has_shape out n m
    ∧ ffnn (tab n m (λ i j,
              pair_emb_entry distance_bins dropout p mention_emb
                mention_speaker_ids genre_emb i j (nth j (nth i antecedents []) 0)))
      = map (map (λ x, [Fin x])) out
    ∧ get_antecedent_scores ffnn distance_bins dropout p mention_emb (map Fin ms)
        antecedents antecedents_len mention_speaker_ids genre_emb
      = Ok (map (λ i,
               Fin 0 :: map (antecedent_score_entry out ms antecedents
                               antecedents_len i) (seq 0 m))
              (seq 0 n))
    ∧ has_shape
        (map (λ i,
           Fin 0 :: map (antecedent_score_entry out ms antecedents
                           antecedents_len i) (seq 0 m))
          (seq 0 n)) n (S m).
Proof.
  intros Hemb Hd Hms Hants Hrange Hlen Hsp Hflags Hbins Hffnn.
  assert (∀ out : list (list R),
            has_shape
              (map (λ i,
                 Fin 0 :: map (antecedent_score_entry out ms antecedents
                                 antecedents_len i) (seq 0 m))
                (seq 0 n)) n (S m)) as Hshape.
  { intros out. split; [by rewrite length_map, length_seq |].
    apply Forall_fmap, Forall_forall. intros i _. simpl.
    by rewrite length_map, length_seq. }
  destruct n as [|n'].
  { destruct (Hffnn []) as (out & Hout & Hffnn_out); [by split |].
    exists out. split; [done |]. split; [done |]. split; [| done].
    apply nil_length_inv in Hemb, Hms, Hlen, Hsp. destruct Hants as [Ha _].
    apply nil_length_inv in Ha. subst.
    destruct Hout as [Hout _]. apply nil_length_inv in Hout. subst out.
    unfold get_antecedent_scores, pair_feature_emb.
    destruct Hflags as [Hf|Hf]; rewrite Hf;
      destruct (use_metadata p), (use_features p); try done;
      cbn;
      repeat (try unfold tf_map2_2, tf_map2_3, tf_concat_axis2, tf_concat_axis1;
              first [rewrite tf_broadcast_nil | rewrite zip_exact_nil
                    | rewrite Hffnn_out]; cbn);
      done. }
  remember (S n') as n eqn:Hn.
  destruct (get_antecedent_scores_tab p n m d
              (λ i, nth i mention_emb []) (λ i, nth i ms 0%R)
              (λ i j, nth j (nth i antecedents []) 0)
              (λ i, nth i antecedents_len 0) (λ i, nth i mention_speaker_ids 0)
              genre_emb) as (out & Hout & Hffnn_out & Hscores);
    try done.
  - lia.
  - intros i Hi. destruct (lookup_lt_is_Some_2 mention_emb i) as [e He]; [lia |].
    rewrite (nth_lookup_Some _ _ _ _ He).
    by apply (Forall_lookup_1 _ _ _ _ Hd He).
  - intros i j Hi Hj. destruct Hants as [Han Ham].
    destruct (lookup_lt_is_Some_2 antecedents i) as [row Hrow]; [lia |].
    rewrite (nth_lookup_Some _ _ _ _ Hrow).
    pose proof (Forall_lookup_1 _ _ _ _ Ham Hrow) as Hrowlen. simpl in Hrowlen.
    destruct (lookup_lt_is_Some_2 row j) as [a Ha]; [lia |].
    rewrite (nth_lookup_Some _ _ _ _ Ha).
    pose proof (Forall_lookup_1 _ _ _ _ Hrange Hrow) as Hr. simpl in Hr.
    by apply (Forall_lookup_1 _ _ _ _ Hr Ha).
  - assert (map (λ i, nth i mention_emb []) (seq 0 n) = mention_emb) as Hemb_eq
      by (rewrite <- Hemb; symmetry; apply list_as_map_seq).
    assert (map (λ i, nth i mention_speaker_ids 0) (seq 0 n) = mention_speaker_ids)
      as Hsp_eq by (rewrite <- Hsp; symmetry; apply list_as_map_seq).
    assert (map (λ i, nth i antecedents_len 0) (seq 0 n) = antecedents_len)
      as Hlen_eq by (rewrite <- Hlen; symmetry; apply list_as_map_seq).
    assert (map (λ i, Fin (nth i ms 0%R)) (seq 0 n) = map Fin ms) as Hms_eq.
    { rewrite <- Hms. transitivity (map Fin (map (λ i, nth i ms 0%R)
                                                 (seq 0 (length ms)))).
      - by rewrite map_map.
      - by rewrite <- list_as_map_seq. }
    rewrite Hemb_eq, Hsp_eq in Hffnn_out.
    rewrite Hemb_eq, Hsp_eq, Hlen_eq, Hms_eq in Hscores.
    rewrite <- (matrix_as_tab 0 antecedents n m Hants) in Hscores.
    exists out. split; [done |]. split; [done |]. split; [| done].
    exact Hscores.
Qed.
End AntecedentScoresProof.

Lemma get_antecedent_scores_spec_witness :
  ∃ out : list (list R),
    has_shape out 2 1
    ∧ ffnn_zero (tab 2 1 (λ i j,
                   pair_emb_entry clip_bins no_dropout toy_params
                     [[Fin 1]; [Fin 2]] [0; 0] [Fin 0] i j
                     (nth j (nth i [[0]; [0]] []) 0)))
      = map (map (λ x, [Fin x])) out
    ∧ get_antecedent_scores ffnn_zero clip_bins no_dropout toy_params
        [[Fin 1]; [Fin 2]] (map Fin [1%R; 1%R]) [[0]; [0]] [0; 1] [0; 0] [Fin 0]
      = Ok (map (λ i,
               Fin 0 :: map (antecedent_score_entry out [1%R; 1%R] [[0]; [0]]
                               [0; 1] i) (seq 0 1))
              (seq 0 2))
    ∧ has_shape
        (map (λ i,
           Fin 0 :: map (antecedent_score_entry out [1%R; 1%R] [[0]; [0]]
                           [0; 1] i) (seq 0 1))
          (seq 0 2)) 2 2.
Proof.
  apply (get_antecedent_scores_spec ffnn_zero clip_bins no_dropout toy_params
           2 1 1).
  - reflexivity.
  - repeat constructor.
  - reflexivity.
  - split; [reflexivity | repeat constructor].
  - repeat constructor; simpl; lia.
  - reflexivity.
  - reflexivity.
  - left. reflexivity.
  - intros _. split; [reflexivity |]. intros z. unfold clip_bins. lia.
  - intros t Ht. exists (map (map (λ _, 0%R)) t). split.
    + destruct Ht as [Hn Hm]. split; [by rewrite length_map |].
      apply Forall_fmap. eapply Forall_impl; [exact Hm |].
      intros row Hrow. simpl. by rewrite length_map.
    + unfold ffnn_zero. rewrite map_map. apply map_ext. intros row.
      by rewrite map_map.
Defined.

(** * Further properties *)

(** ** More on decoding *)

Section ArgmaxFacts.
Context {score : Type} (gt : score → score → bool).

(** The slot [np.argmax] chooses beats every slot before it. *)
Lemma argmax_from_first (l : list score) :
  (∀ x y, gt x y = true → gt y x = false) →
  (∀ x y z, gt x y = false → gt y z = false → gt x z = false) →
  ∀ best besti i, (besti < i)%nat →
    argmax_from gt best besti i l = besti
    ∨ ∃ k v, argmax_from gt best besti i l = (i + k)%nat
             ∧ l !! k = Some v
             ∧ gt v best = true
             ∧ ∀ j y, (j < k)%nat → l !! j = Some y → gt v y = true.
Proof.
  intros Hasym Htrans.
  assert (∀ v x b, gt v x = true → gt x b = true → gt v b = true) as Hstrict.
  { intros v x b Hvx Hxb. destruct (gt v b) eqn:Hvb; [done |].
    rewrite (Htrans v b x Hvb (Hasym _ _ Hxb)) in Hvx. done. }
  assert (∀ v x b, gt v b = true → gt x b = false → gt v x = true) as Hmix.
  { intros v x b Hvb Hxb. destruct (gt v x) eqn:Hvx; [done |].
    rewrite (Htrans v x b Hvx Hxb) in Hvb. done. }
  induction l as [|x l IH]; intros best besti i Hlt; simpl; [by left |].
  destruct (gt x best) eqn:Hx.
  - right. destruct (IH x i (S i)) as [Hr|(k & v & Hr & Hv & Hvx & Hbefore)];
      [lia | |].
    + exists 0%nat, x. rewrite Hr. split; [lia |]. split; [done |].
      split; [done |]. intros j y Hj. lia.
    + exists (S k), v. rewrite Hr. split; [lia |]. split; [done |].
      split; [by eapply Hstrict |].
      intros [|j] y Hj Hy; simpl in Hy.
      * by injection Hy as <-.
      * apply (Hbefore j); [lia | done].
  - destruct (IH best besti (S i)) as [Hr|(k & v & Hr & Hv & Hvb & Hbefore)];
      [lia | by left |].
    right. exists (S k), v. rewrite Hr. split; [lia |]. split; [done |].
    split; [done |].
    intros [|j] y Hj Hy; simpl in Hy.
    + injection Hy as <-. by eapply Hmix.
    + apply (Hbefore j); [lia | done].
Qed.

Lemma np_argmax_axis1_rows (m : list (list score)) (ks : list Z) :
  np_argmax_axis1 gt m = Ok ks →
  Forall2 (λ row k, np_argmax gt row = Ok k) m ks.
Proof.
  revert ks. induction m as [|row m IH]; intros ks; simpl.
  - intros [= <-]. constructor.
  - intros (k & Hk & (ks' & Hks' & [= <-])%bind_Ok)%bind_Ok.
    constructor; [done | by apply IH].
Qed.

Lemma np_index_nonneg {A : Type} (a : list A) (i : Z) (x : A) :
  0 <= i → np_index a i = Ok x → a !! Z.to_nat i = Some x.
Proof.
  intros Hi. unfold np_index. cbv zeta.
  destruct (Z.ltb_spec i 0); [lia |].
  destruct (_ && _); [| done]. destruct (a !! Z.to_nat i); [| done].
  by intros [= <-].
Qed.

(** Whenever [get_predicted_antecedents] returns, it has one entry per row
    of scores, the greedy choice for that row. *)
Lemma get_predicted_antecedents_greedy (antecedents : list (list Z))
    (antecedent_scores : list (list score)) (preds : list Z) :
  get_predicted_antecedents gt antecedents antecedent_scores = Ok preds →
  length preds = length antecedent_scores
  ∧ ∀ (i : nat) p, preds !! i = Some p →
      greedy_choice gt antecedents antecedent_scores i p.
Proof.
  unfold get_predicted_antecedents.
  intros (ks & Hks%np_argmax_axis1_rows & Hloop)%bind_Ok.
  pose proof (Forall2_length _ _ _ Hks) as Hlen.
  apply (for_enumerate_inv_ok _
           (λ i acc, length acc = i
                     ∧ ∀ (j : nat) p, acc !! j = Some p →
                         greedy_choice gt antecedents antecedent_scores j p))
    in Hloop as [Hl Hall].
  - simpl in Hl. rewrite length_map in Hl. split; [lia | done].
  - split; [done |]. intros j p. by rewrite lookup_nil.
  - intros j idx acc acc' Hidx [Hacc Hinv] Hbody. simpl in *.
    apply list_lookup_fmap_Some in Hidx as (k & -> & Hk).
    destruct (Forall2_lookup_r _ _ _ _ _ Hks Hk) as (row & Hrow & Hmax).
    pose proof (np_argmax_bound gt _ _ Hmax) as Hbound.
    assert (∃ p, acc' = acc ++ [p]
                 ∧ greedy_choice gt antecedents antecedent_scores j p)
      as (p & -> & Hp).
    { unfold predicted_antecedents_body in Hbody.
      destruct (k - 1 <? 0) eqn:Hneg.
      - apply Z.ltb_lt in Hneg. injection Hbody as <-. exists (-1).
        split; [done |]. exists row, k. split; [done |]. split; [done |].
        left. lia.
      - apply Z.ltb_ge in Hneg. apply bind_Ok in Hbody as (a & Ha & [= <-]).
        exists a. split; [done |]. exists row, k. split; [done |].
        split; [done |]. right. split; [lia |]. unfold np_index2 in Ha.
        destruct (antecedents !! j) as [arow|]; [| done].
        exists arow. split; [done |]. by apply np_index_nonneg. }
    split; [rewrite length_app; simpl; lia |].
    intros j' p' [Hj'|[Hge Hj']]%lookup_app_Some; [by apply Hinv |].
    apply list_lookup_singleton_Some in Hj' as [Hj' <-].
    by replace j' with j by lia.
Qed.

(** X1.  For a comparison that is the strict part of a total preorder, the
    antecedent [get_predicted_antecedents] returns for a mention is read at
    the first slot of its score row that holds a maximal score: no score of
    the row exceeds it and it exceeds every score before it; in particular
    the mention gets [-1] when no score exceeds the score of slot 0. *)
Theorem predicted_antecedent_first_maximum (antecedents : list (list Z))
    (antecedent_scores : list (list score)) (preds : list Z) :
  (∀ x, gt x x = false) →
  (∀ x y, gt x y = true → gt y x = false) →
  (∀ x y z, gt x y = false → gt y z = false → gt x z = false) →
  get_predicted_antecedents gt antecedents antecedent_scores = Ok preds →
  ∀ (i : nat) p row,
    preds !! i = Some p → antecedent_scores !! i = Some row →
    (∃ (k : nat) v,
       row !! k = Some v
       ∧ (∀ y, y ∈ row → gt y v = false)
       ∧ (∀ (j : nat) y, (j < k)%nat → row !! j = Some y → gt v y = true)
       ∧ ((k = 0%nat ∧ p = -1)
          ∨ ((0 < k)%nat ∧ ∃ arow, antecedents !! i = Some arow
                                   ∧ arow !! (k - 1)%nat = Some p)))
    ∧ (∀ s0, row !! 0%nat = Some s0 → (∀ y, y ∈ row → gt y s0 = false) → p = -1).
Proof.
  intros Hrefl Hasym Htrans Hpreds i p row Hp Hrow.
  destruct (get_predicted_antecedents_greedy _ _ _ Hpreds) as [_ Hgreedy].
  destruct (Hgreedy i p Hp) as (row' & kz & Hrow' & Hmax & Hchoice).
  assert (row' = row) as -> by congruence.
  destruct (np_argmax_maximal gt row kz Hrefl Hasym Htrans Hmax)
    as (v & Hv & Hall).
  assert (∀ (j : nat) y, (j < Z.to_nat kz)%nat → row !! j = Some y → gt v y = true)
    as Hfirst.
  { destruct row as [|x l]; [done |]. simpl in Hmax. injection Hmax as <-.
    rewrite Nat2Z.id in *.
    destruct (argmax_from_first l Hasym Htrans x 0%nat 1%nat)
      as [Hr|(k & v' & Hr & Hv' & Hvx & Hbefore)]; [lia | |].
    - rewrite Hr. intros j y Hj. lia.
    - rewrite Hr in *. simpl in Hv. assert (v' = v) as -> by congruence.
      intros [|j] y Hj Hy; simpl in Hy.
      + by injection Hy as <-.
      + apply (Hbefore j); [lia | done]. }
  assert ((Z.to_nat kz = 0%nat ∧ p = -1)
          ∨ ((0 < Z.to_nat kz)%nat
             ∧ ∃ arow, antecedents !! i = Some arow
                       ∧ arow !! (Z.to_nat kz - 1)%nat = Some p)) as Hk.
  { destruct Hchoice as [[-> ->]|[Hpos (arow & Harow & Ha)]]; [by left |].
    right. split; [lia |]. exists arow. split; [done |].
    by replace (Z.to_nat kz - 1)%nat with (Z.to_nat (kz - 1)) by lia. }
  split.
  - exists (Z.to_nat kz), v. done.
  - intros s0 Hs0 Hmax0. destruct Hk as [[_ ->]|[Hpos _]]; [done |].
    specialize (Hmax0 v (list_elem_of_lookup_2 _ _ _ Hv)).
    by rewrite (Hfirst 0%nat s0 Hpos Hs0) in Hmax0.
Qed.
End ArgmaxFacts.

(** ** More on clustering *)


Lemma predicted_clusters_body_Ok (ms me : list Z) (i : nat) (p : Z)
    (st st' : clustering) :
  predicted_clusters_body ms me i p st = Ok st' →
  (p < 0 ∧ st' = st)
  ∨ (0 <= p < Z.of_nat i
     ∧ ∃ ant mention l,
         zip ms me !! Z.to_nat p = Some ant
         ∧ zip ms me !! i = Some mention
         ∧ predicted_clusters (snd (antecedent_cluster st ant))
             !! fst (antecedent_cluster st ant) = Some l
         ∧ st' = Clustering
                   (<[mention := fst (antecedent_cluster st ant)]>
                      (mention_to_predicted (snd (antecedent_cluster st ant))))
                   (<[fst (antecedent_cluster st ant) := l ++ [mention]]>
                      (predicted_clusters (snd (antecedent_cluster st ant))))).
Proof.
  unfold predicted_clusters_body.
  destruct (Z.ltb_spec p 0) as [Hneg|Hnonneg]; [intros [= <-]; by left |].
  destruct (Z.gtb_spec (Z.of_nat i) p) as [Hlt|Hge]; simpl; [| done].
  intros (s & Hs & (e & He & (s' & Hs' & (e' & He' & Hrest)%bind_Ok)%bind_Ok)
                     %bind_Ok)%bind_Ok.
  apply bind_Ok in Hrest as (clusters & Happ & [= <-]).
  right. split; [lia |].
  apply np_index_nonneg in Hs, He, Hs', He'; try lia.
  rewrite Nat2Z.id in Hs', He'.
  exists (s, e), (s', e').
  unfold cluster_append in Happ.
  destruct (predicted_clusters (snd (antecedent_cluster st (s, e)))
              !! fst (antecedent_cluster st (s, e))) as [l|] eqn:Hl; [| done].
  injection Happ as <-. exists l.
  split; [apply lookup_zip_with_Some; eauto |].
  split; [apply lookup_zip_with_Some; eauto |]. done.
Qed.

Lemma StronglySorted_snoc (js : list nat) (i : nat) :
  StronglySorted lt js → Forall (λ j, (j < i)%nat) js →
  StronglySorted lt (js ++ [i]).
Proof.
  induction 1 as [|j js Hs IH Hall]; intros Hlt; simpl.
  - repeat constructor.
  - apply Forall_cons in Hlt as [Hj Hlt]. constructor; [by apply IH |].
    apply Forall_app. split; [done | by repeat constructor].
Qed.

Lemma antecedent_chain_mono (M : list span) (preds : list Z) (i : nat)
    (js : list nat) (l : list span) :
  antecedent_chain M preds i js l → antecedent_chain M preds (S i) js l.
Proof.
  intros (Hl & Hs & Hlt & Hlink). split; [done |]. split; [done |].
  split; [| done]. eapply Forall_impl; [exact Hlt |]. simpl. lia.
Qed.

Lemma antecedent_chain_snoc (M : list span) (preds : list Z) (i : nat)
    (js : list nat) (l : list span) (p : Z) (ant mention : span) :
  antecedent_chain M preds i js l →
  preds !! i = Some p → 0 <= p < Z.of_nat i →
  M !! Z.to_nat p = Some ant → M !! i = Some mention → ant ∈ l →
  antecedent_chain M preds (S i) (js ++ [i]) (l ++ [mention]).
Proof.
  intros (Hl & Hs & Hlt & Hlink) Hp Hrange Hant Hmention Hin.
  pose proof (Forall2_length _ _ _ Hl) as Hlen.
  split; [apply Forall2_app; [done | by repeat constructor] |].
  split; [by apply StronglySorted_snoc |].
  split.
  { apply Forall_app. split.
    - eapply Forall_impl; [exact Hlt |]. simpl. lia.
    - repeat constructor. }
  intros k j Hk [Hj|[Hge Hj]]%lookup_app_Some.
  - destruct (Hlink k j Hk Hj) as (q & y & Hq & Hqr & Hy & Hyin).
    exists q, y. split; [done |]. split; [done |]. split; [done |].
    apply lookup_lt_Some in Hj.
    rewrite take_app_le by lia. done.
  - apply list_lookup_singleton_Some in Hj as [Hk' <-].
    exists p, ant. split; [done |]. split; [done |]. split; [done |].
    replace k with (length l) by lia. by rewrite take_app_length.
Qed.

Lemma decoded_upto_skip (M : list span) (preds : list Z) (i : nat)
    (st : clustering) :
  decoded_upto M preds i st → decoded_upto M preds (S i) st.
Proof.
  intros (Hdict & Hkeys & Hchains). split; [done |]. split; [done |].
  intros c l Hl. destruct (Hchains c l Hl) as (Hlen & js & Hjs).
  split; [done |]. exists js. by apply antecedent_chain_mono.
Qed.

Lemma decoded_upto_step (M : list span) (preds : list Z) (i : nat) (p : Z)
    (st : clustering) (ant mention : span) (l : list span) :
  decoded_upto M preds i st →
  preds !! i = Some p → 0 <= p < Z.of_nat i →
  M !! Z.to_nat p = Some ant → M !! i = Some mention →
  predicted_clusters (snd (antecedent_cluster st ant))
    !! fst (antecedent_cluster st ant) = Some l →
  decoded_upto M preds (S i)
    (Clustering
       (<[mention := fst (antecedent_cluster st ant)]>
          (mention_to_predicted (snd (antecedent_cluster st ant))))
       (<[fst (antecedent_cluster st ant) := l ++ [mention]]>
          (predicted_clusters (snd (antecedent_cluster st ant))))).
Proof.
  intros (Hdict & Hkeys & Hchains) Hp Hrange Hant Hmention.
  set (c := fst (antecedent_cluster st ant)).
  set (st1 := snd (antecedent_cluster st ant)).
  intros Hl.
  assert ((∀ x c', mention_to_predicted st1 !! x = Some c'
                   → in_cluster (predicted_clusters st1) x c')
          ∧ (∀ x, x ∈ concat (predicted_clusters st1)
                  → is_Some (mention_to_predicted st1 !! x))
          ∧ (∀ c' l', predicted_clusters st1 !! c' = Some l' →
               (c' ≠ c → (2 ≤ length l')%nat)
               ∧ ∃ js, antecedent_chain M preds i js l')
          ∧ ant ∈ l) as (Hdict1 & Hkeys1 & Hchains1 & Hin).
  { subst c st1. unfold antecedent_cluster in *.
    destruct (mention_to_predicted st !! ant) as [c0|] eqn:Hc0; simpl in *.
    - split; [done |]. split; [done |]. split.
      + intros c' l' Hl'. destruct (Hchains c' l' Hl') as [? ?]. done.
      + destruct (Hdict ant c0 Hc0) as (l0 & Hl0 & Hin0). congruence.
    - rewrite lookup_app_r in Hl by done. rewrite Nat.sub_diag in Hl.
      injection Hl as <-.
      split.
      { intros x c'. destruct (decide (x = ant)) as [->|Hne].
        - rewrite lookup_insert_eq. intros [= <-]. exists [ant].
          split; [| by apply list_elem_of_singleton].
          rewrite lookup_app_r by done. by rewrite Nat.sub_diag.
        - rewrite lookup_insert_ne by done. intros Hx.
          destruct (Hdict x c' Hx) as (l' & Hl' & Hin').
          exists l'. split; [| done]. by apply lookup_app_l_Some. }
      split.
      { intros x. rewrite concat_app. simpl.
        intros [Hx|Hx]%elem_of_app.
        - destruct (decide (x = ant)) as [->|Hne].
          + rewrite lookup_insert_eq. eauto.
          + rewrite lookup_insert_ne by done. by apply Hkeys.
        - apply list_elem_of_singleton in Hx as ->.
          rewrite lookup_insert_eq. eauto. }
      split; [| by apply list_elem_of_singleton].
      intros c' l' [Hl'|[Hge Hl']]%lookup_app_Some.
      + destruct (Hchains c' l' Hl') as [? ?]. done.
      + apply list_lookup_singleton_Some in Hl' as [Hc' <-].
        split; [intros Hne; lia |].
        exists [Z.to_nat p]. split; [by repeat constructor |].
        split; [repeat constructor |].
        split; [repeat constructor; lia |].
        intros [|[|k]] j Hk Hj; simpl in Hj; first [lia | done]. }
  clearbody c st1.
  pose proof (lookup_lt_Some _ _ _ Hl) as Hc.
  split; [| split]; simpl.
  - intros x c'. destruct (decide (x = mention)) as [->|Hne].
    + rewrite lookup_insert_eq. intros [= <-]. exists (l ++ [mention]).
      split; [by apply list_lookup_insert_eq |].
      apply elem_of_app. right. by apply list_elem_of_singleton.
    + rewrite lookup_insert_ne by done. intros Hx.
      destruct (Hdict1 x c' Hx) as (l' & Hl' & Hin').
      destruct (decide (c' = c)) as [->|Hcne].
      * assert (l' = l) as -> by congruence. exists (l ++ [mention]).
        split; [by apply list_lookup_insert_eq |].
        apply elem_of_app. by left.
      * exists l'. split; [| done]. by rewrite list_lookup_insert_ne.
  - intros x Hx. rewrite (concat_insert_snoc _ _ _ _ Hl) in Hx.
    apply elem_of_cons in Hx as [->|Hx].
    + rewrite lookup_insert_eq. eauto.
    + destruct (decide (x = mention)) as [->|Hne].
      * rewrite lookup_insert_eq. eauto.
      * rewrite lookup_insert_ne by done. by apply Hkeys1.
  - intros c' l'. destruct (decide (c' = c)) as [->|Hcne].
    + rewrite list_lookup_insert_eq by done. intros [= <-].
      destruct (Hchains1 c l Hl) as [_ (js & Hjs)].
      split.
      * rewrite length_app. simpl.
        destruct l; [by apply elem_of_nil in Hin | simpl; lia].
      * exists (js ++ [i]). by eapply antecedent_chain_snoc.
    + rewrite list_lookup_insert_ne by done. intros Hl'.
      destruct (Hchains1 c' l' Hl') as [Hlen (js & Hjs)].
      split; [by apply Hlen |]. exists js. by apply antecedent_chain_mono.
Qed.

Lemma predicted_clusters_loop_decoded (ms me preds : list Z) (st : clustering) :
  predicted_clusters_loop ms me preds = Ok st →
  decoded_upto (zip ms me) preds (length preds) st.
Proof.
  unfold predicted_clusters_loop. intros Hloop.
  apply (for_enumerate_inv_ok _ (λ i st, decoded_upto (zip ms me) preds i st))
    in Hloop; [done | |].
  - split; [| split]; simpl.
    + intros x c. by rewrite lookup_empty.
    + intros x Hx. by apply elem_of_nil in Hx.
    + intros c l. by rewrite lookup_nil.
  - intros i p st0 st1 Hp Hinv Hbody. simpl in *.
    apply predicted_clusters_body_Ok in Hbody
      as [[_ ->]|[Hrange (ant & mention & l & Hant & Hmention & Hl & ->)]].
    + by apply decoded_upto_skip.
    + by eapply decoded_upto_step.
Qed.

Lemma get_predicted_clusters_Ok (ms me preds : list Z)
    (clusters : list (list span)) (m2p : gmap span (list span)) :
  get_predicted_clusters ms me preds = Ok (clusters, m2p) →
  ∃ st, predicted_clusters_loop ms me preds = Ok st
        ∧ clusters = predicted_clusters st
        ∧ m2p = (λ c, default [] (predicted_clusters st !! c))
                  <$> mention_to_predicted st.
Proof.
  unfold get_predicted_clusters.
  intros (st & Hst & (m & Hm & [= <- <-])%bind_Ok)%bind_Ok.
  exists st. split; [done |]. split; [done |].
  unfold resolve_clusters in Hm. destruct (decide _); [| done]. by injection Hm as <-.
Qed.

(** X2.  Whatever the mention spans are (also with a span that occurs
    twice), when [get_predicted_clusters] returns, every cluster has at
    least two members, every member is the span of a mention, the dict maps
    a span to a returned cluster that contains it, and the keys of the dict
    are exactly the members of the clusters. *)
Theorem predicted_clusters_consistent (ms me preds : list Z)
    (clusters : list (list span)) (m2p : gmap span (list span)) :
  get_predicted_clusters ms me preds = Ok (clusters, m2p) →
  Forall (λ l, (2 ≤ length l)%nat) clusters
  ∧ (∀ x, x ∈ concat clusters → x ∈ zip ms me)
  ∧ (∀ x l, m2p !! x = Some l → x ∈ l ∧ l ∈ clusters)
  ∧ (∀ x, x ∈ concat clusters ↔ is_Some (m2p !! x)).
Proof.
  intros (st & Hloop & -> & ->)%get_predicted_clusters_Ok.
  destruct (predicted_clusters_loop_decoded _ _ _ _ Hloop)
    as (Hdict & Hkeys & Hchains).
  split; [| split; [| split]].
  - apply Forall_lookup. intros c l Hl. by destruct (Hchains c l Hl).
  - intros x (l & Hx & Hl)%elem_of_concat.
    apply list_elem_of_lookup in Hl as [c Hl].
    destruct (Hchains c l Hl) as [_ (js & Hjs & _)].
    apply list_elem_of_lookup in Hx as [k Hk].
    destruct (Forall2_lookup_r _ _ _ _ _ Hjs Hk) as (j & _ & Hj).
    by eapply list_elem_of_lookup_2.
  - intros x l. rewrite lookup_fmap.
    destruct (mention_to_predicted st !! x) as [c|] eqn:Hc; [| done].
    simpl. intros [= <-]. destruct (Hdict x c Hc) as (l & Hl & Hin).
    rewrite Hl. simpl. split; [done |]. by eapply list_elem_of_lookup_2.
  - intros x. rewrite lookup_fmap, fmap_is_Some. split; [by apply Hkeys |].
    intros [c Hc]. apply in_cluster_concat. exists c. by apply Hdict.
Qed.

Lemma predicted_clusters_consistent_witness :
  Forall (λ l : list span, (2 ≤ length l)%nat) [[(0, 0); (2, 3); (2, 3)]]
  ∧ (∀ x : span, x ∈ concat [[(0, 0); (2, 3); (2, 3)]]
                 → x ∈ zip [0; 2; 2] [0; 3; 3])
  ∧ (∀ (x : span) l,
       ({[ (0, 0) := [(0, 0); (2, 3); (2, 3)];
           (2, 3) := [(0, 0); (2, 3); (2, 3)] ]} : gmap span (list span)) !! x
       = Some l → x ∈ l ∧ l ∈ [[(0, 0); (2, 3); (2, 3)]])
  ∧ (∀ x : span,
       x ∈ concat [[(0, 0); (2, 3); (2, 3)]]
       ↔ is_Some (({[ (0, 0) := [(0, 0); (2, 3); (2, 3)];
                      (2, 3) := [(0, 0); (2, 3); (2, 3)] ]}
                     : gmap span (list span)) !! x)).
Proof.
  apply (predicted_clusters_consistent [0; 2; 2] [0; 3; 3] [-1; 0; 1]).
  vm_compute. reflexivity.
Defined.

(** X3.  Whenever [get_predicted_clusters] returns, every cluster lists its
    mentions in document order, and every mention after the first of a
    cluster is there because its predicted antecedent is an earlier mention
    whose span is already among the members before it. *)
Theorem predicted_clusters_document_order (ms me preds : list Z)
    (clusters : list (list span)) (m2p : gmap span (list span)) :
  get_predicted_clusters ms me preds = Ok (clusters, m2p) →
  Forall (λ l, ∃ js, antecedent_chain (zip ms me) preds (length preds) js l)
    clusters.
Proof.
  intros (st & Hloop & -> & ->)%get_predicted_clusters_Ok.
  destruct (predicted_clusters_loop_decoded _ _ _ _ Hloop) as (_ & _ & Hchains).
  apply Forall_lookup. intros c l Hl. by destruct (Hchains c l Hl).
Qed.

Lemma predicted_clusters_document_order_witness :
  Forall (λ l, ∃ js, antecedent_chain (zip [0; 2; 5; 7] [0; 3; 5; 8])
                       [-1; -1; 0; 1] 4 js l)
    [[(0, 0); (5, 5)]; [(2, 3); (7, 8)]].
Proof.
  apply (predicted_clusters_document_order [0; 2; 5; 7] [0; 3; 5; 8]
           [-1; -1; 0; 1] _
           {[ (0, 0) := [(0, 0); (5, 5)]; (5, 5) := [(0, 0); (5, 5)];
              (2, 3) := [(2, 3); (7, 8)]; (7, 8) := [(2, 3); (7, 8)] ]}).
  vm_compute. reflexivity.
Defined.

Lemma for_enumerate_app {A S : Type} (body : nat → A → S → result S)
    (l1 l2 : list A) :
  ∀ (i : nat) (s : S),
    for_enumerate body i (l1 ++ l2) s
    = bind (for_enumerate body i l1 s) (for_enumerate body (i + length l1) l2).
Proof.
  induction l1 as [|x l1 IH]; intros i s; simpl.
  - by rewrite Nat.add_0_r.
  - destruct (body i x s) as [s1|e]; simpl; [| done].
    rewrite IH. by rewrite Nat.add_succ_r.
Qed.

(** X4.  The first mention [i] whose predicted antecedent [p] is not a
    usable earlier mention decides how [get_predicted_clusters] fails: with
    [p >= i] the assertion fails, before any mention array is read; with
    [p < i] and mention [i] beyond the shorter of the two mention arrays the
    read raises [IndexError]. *)
Theorem get_predicted_clusters_failure (ms me preds : list Z) (i : nat) (p : Z) :
  preds !! i = Some p → 0 <= p →
  (∀ (j : nat) q, (j < i)%nat → preds !! j = Some q →
     q < 0 ∨ (q < Z.of_nat j ∧ (j < length (zip ms me))%nat)) →
  (Z.of_nat i <= p → get_predicted_clusters ms me preds = Raise AssertionError)
  ∧ (p < Z.of_nat i → (length (zip ms me) ≤ i)%nat →
     get_predicted_clusters ms me preds = Raise IndexError).
Proof.
  intros Hp Hnonneg Hbefore.
  unfold get_predicted_clusters, predicted_clusters_loop.
  rewrite <- (take_drop_middle _ _ _ Hp), for_enumerate_app. simpl.
  pose proof (lookup_lt_Some _ _ _ Hp) as Hi.
  rewrite length_take, Nat.min_l by lia.
  destruct (for_enumerate_inv (predicted_clusters_body ms me)
              (λ _ st, ids_in_range st) (take i preds) 0%nat (Clustering ∅ []))
    as (st & -> & Hids).
  { unfold ids_in_range. simpl. apply map_Forall_empty. }
  { intros j q st Hq Hids. simpl in *.
    apply lookup_take_Some in Hq as [Hq Hj].
    destruct (Hbefore j q Hj Hq) as [Hneg|[Hlt Hlen]].
    { exists st. by rewrite predicted_clusters_body_skip. }
    destruct (decide (q < 0)) as [Hneg|Hge].
    { exists st. by rewrite predicted_clusters_body_skip. }
    destruct (lookup_lt_is_Some_2 (zip ms me) (Z.to_nat q)) as [ant Hant]; [lia |].
    destruct (lookup_lt_is_Some_2 (zip ms me) j) as [mention Hmention]; [lia |].
    destruct (predicted_clusters_body_step ms me j q st ant mention)
      as (l & Hl & ->); [lia | done | done | done |].
    eexists. split; [done |].
    apply ids_in_range_step; [| done].
    by apply antecedent_cluster_ids. }
  simpl. split.
  - intros Hge.
    assert (predicted_clusters_body ms me i p st = Raise AssertionError) as ->;
      [| done].
    unfold predicted_clusters_body.
    destruct (Z.ltb_spec p 0) as [Hneg|_]; [lia |].
    destruct (Z.gtb_spec (Z.of_nat i) p) as [Hlt|_]; [lia | done].
  - intros Hlt Hlen.
    assert (predicted_clusters_body ms me i p st = Raise IndexError) as ->;
      [| done].
    unfold predicted_clusters_body.
    destruct (Z.ltb_spec p 0) as [Hneg|_]; [lia |].
    destruct (Z.gtb_spec (Z.of_nat i) p) as [_|Hge]; [| lia].
    cbn [negb]. rewrite length_zip_with in Hlen.
    destruct (np_index ms p) as [s|e] eqn:Hs;
      [| by rewrite (np_index_raises _ _ _ Hs)].
    destruct (np_index me p) as [e0|e] eqn:He;
      [| by rewrite (np_index_raises _ _ _ He)].
    cbn [bind].
    destruct (np_index ms (Z.of_nat i)) as [s'|e] eqn:Hs';
      [| by rewrite (np_index_raises _ _ _ Hs')].
    destruct (np_index me (Z.of_nat i)) as [e'|e] eqn:He';
      [| by rewrite (np_index_raises _ _ _ He')].
    apply np_index_nonneg in Hs', He'; try lia.
    apply lookup_lt_Some in Hs', He'. lia.
Qed.

Lemma get_predicted_clusters_failure_witness :
  (2 <= 5 → get_predicted_clusters [0; 2; 5] [0; 3; 5] [-1; 0; 5]
            = Raise AssertionError)
  ∧ (5 < 2 → (length (zip [0; 2; 5] [0; 3; 5]) ≤ 2)%nat →
     get_predicted_clusters [0; 2; 5] [0; 3; 5] [-1; 0; 5] = Raise IndexError).
Proof.
  apply (get_predicted_clusters_failure [0; 2; 5] [0; 3; 5] [-1; 0; 5] 2 5).
  - reflexivity.
  - lia.
  - intros [|[|j]] q Hj Hq; simpl in *; [| | lia].
    + injection Hq as <-. left. lia.
    + injection Hq as <-. right. split; [lia | lia].
Defined.

Lemma for_enumerate_all_skip (ms me : list Z) (preds : list Z) :
  Forall (λ p, p < 0) preds →
  ∀ i st, for_enumerate (predicted_clusters_body ms me) i preds st = Ok st.
Proof.
  induction 1 as [|p preds Hp _ IH]; intros i st; simpl; [done |].
  rewrite predicted_clusters_body_skip by done. simpl. apply IH.
Qed.

(** X5.  [get_predicted_clusters] returns no cluster and the empty dict when
    no mention has a predicted antecedent, whatever the mention arrays hold
    (they are not read); and when it returns no cluster, no mention had a
    predicted antecedent. *)
Theorem get_predicted_clusters_empty (ms me preds : list Z) :
  (Forall (λ p, p < 0) preds → get_predicted_clusters ms me preds = Ok ([], ∅))
  ∧ (∀ m2p, get_predicted_clusters ms me preds = Ok ([], m2p) →
            Forall (λ p, p < 0) preds ∧ m2p = ∅).
Proof.
  split.
  - intros Hall. unfold get_predicted_clusters, predicted_clusters_loop.
    rewrite for_enumerate_all_skip by done. simpl.
    unfold resolve_clusters. rewrite decide_True by apply map_Forall_empty.
    simpl. by rewrite fmap_empty.
  - intros m2p (st & Hloop & Hcl & ->)%get_predicted_clusters_Ok.
    pose proof (predicted_clusters_loop_decoded _ _ _ _ Hloop)
      as (Hdict & _ & _).
    split.
    + assert ((∃ (j : nat) q, (j < 0 + length preds)%nat
                              ∧ preds !! j = Some q ∧ 0 <= q)
              → predicted_clusters st ≠ []) as Hfinal.
      { apply (for_enumerate_inv_ok (predicted_clusters_body ms me)
                 (λ i st, (∃ (j : nat) q, (j < i)%nat
                                          ∧ preds !! j = Some q ∧ 0 <= q)
                          → predicted_clusters st ≠ [])
                 preds 0%nat (Clustering ∅ []) st); [| | exact Hloop].
        - intros (j & q & Hj & _). lia.
        - intros i q st0 st1 Hq Hinv Hbody. simpl in *.
          apply predicted_clusters_body_Ok in Hbody
            as [[Hneg ->]|[Hrange (ant & mention & l & _ & _ & Hl & ->)]].
          + intros (j & q' & Hj & Hq' & Hge). apply Hinv. exists j, q'.
            split; [| done].
            destruct (decide (j = i)) as [->|]; [| lia].
            assert (q' = q) by congruence. lia.
          + intros _ Hnil. cbn [predicted_clusters] in Hnil.
            apply (f_equal length) in Hnil. rewrite length_insert in Hnil.
            apply lookup_lt_Some in Hl. unfold span in *. simpl in Hnil. lia. }
      apply Forall_lookup. intros j q Hq.
      destruct (decide (q < 0)) as [|Hge]; [done |].
      exfalso. apply Hfinal; [| done]. exists j, q.
      pose proof (lookup_lt_Some _ _ _ Hq) as Hj. simpl. split; [lia |].
      split; [done | lia].
    + apply map_eq. intros x. rewrite lookup_fmap, lookup_empty.
      destruct (mention_to_predicted st !! x) as [c|] eqn:Hc; [| done].
      destruct (Hdict x c Hc) as (l & Hl & _). rewrite <- Hcl in Hl.
      by rewrite lookup_nil in Hl.
Qed.

(** ** Gold cluster ids of repeated spans *)

(** The dict of [enumerate] maps a key to its last position. *)
Lemma enumerate_map_last {K : Type} `{Countable K} (l : list K) (x : K) (k : nat) :
  enumerate_map l !! x = Some k ↔ last_position l x k.
Proof.
  revert k. induction l as [|y l IH] using rev_ind; intros k.
  - unfold enumerate_map, last_position. simpl.
    rewrite lookup_empty, lookup_nil. split; [done | by intros [? _]].
  - rewrite enumerate_map_snoc. destruct (decide (x = y)) as [->|Hne].
    + rewrite lookup_insert_eq. split.
      * intros [= <-]. split.
        -- by rewrite lookup_app_r, Nat.sub_diag by lia.
        -- intros k' Hk' Hx. apply lookup_lt_Some in Hx.
           rewrite length_app in Hx. simpl in Hx. lia.
      * intros [Hk Hlast]. f_equal.
        pose proof (lookup_lt_Some _ _ _ Hk) as Hlt.
        rewrite length_app in Hlt. simpl in Hlt.
        destruct (decide (k = length l)) as [|Hk']; [done |].
        exfalso. apply (Hlast (length l)); [lia |].
        by rewrite lookup_app_r, Nat.sub_diag by lia.
    + rewrite lookup_insert_ne by done. rewrite IH. split.
      * intros [Hk Hlast]. split; [by apply lookup_app_l_Some |].
        intros k' Hk' [Hx|[_ Hx]]%lookup_app_Some; [by eapply Hlast |].
        by apply list_lookup_singleton_Some in Hx as [_ ?].
      * intros [Hk Hlast]. split.
        -- apply lookup_app_Some in Hk as [Hk|[_ Hk]]; [done |].
           by apply list_lookup_singleton_Some in Hk as [_ ?].
        -- intros k' Hk' Hx. apply (Hlast k' Hk'). by apply lookup_app_l_Some.
Qed.

Lemma last_position_exists {A : Type} `{EqDecision A} (l : list A) (x : A) :
  x ∈ l → ∃ k, last_position l x k.
Proof.
  induction l as [|y l IH] using rev_ind; [by intros ?%elem_of_nil |].
  intros Hx. destruct (decide (x = y)) as [->|Hne].
  - exists (length l). split.
    + by rewrite lookup_app_r, Nat.sub_diag by lia.
    + intros k' Hk' Hy. apply lookup_lt_Some in Hy.
      rewrite length_app in Hy. simpl in Hy. lia.
  - apply elem_of_app in Hx as [Hx|Hx%list_elem_of_singleton]; [| done].
    destruct (IH Hx) as (k & Hk & Hlast). exists k.
    split; [by apply lookup_app_l_Some |].
    intros k' Hk' [Hy|[_ Hy]]%lookup_app_Some; [by eapply Hlast |].
    by apply list_lookup_singleton_Some in Hy as [_ ?].
Qed.

Lemma last_position_unique {A : Type} (l : list A) (x : A) (k1 k2 : nat) :
  last_position l x k1 → last_position l x k2 → k1 = k2.
Proof.
  intros [H1 L1] [H2 L2].
  destruct (Nat.lt_trichotomy k1 k2) as [Hlt|[Heq|Hgt]]; [| done |].
  - by destruct (L1 k2 Hlt).
  - by destruct (L2 k1 Hgt).
Qed.

(** Clusters that list [x] at the same places have the same last cluster
    of [x]. *)
Lemma last_cluster_same (x : span) (P Q : list (list span)) (c : nat) :
  Forall2 (λ l l', x ∈ l ↔ x ∈ l') P Q →
  last_cluster P x c → last_cluster Q x c.
Proof.
  intros HPQ (cl & Hcl & Hx & Hlast).
  destruct (Forall2_lookup_l _ _ _ _ _ HPQ Hcl) as (cl' & Hcl' & Hiff).
  exists cl'. split; [done |]. split; [by apply Hiff |].
  intros c' l' Hc' Hl' Hx'.
  destruct (Forall2_lookup_r _ _ _ _ _ HPQ Hl') as (l & Hl & Hiff').
  apply (Hlast c' l Hc' Hl). by apply Hiff'.
Qed.

Lemma ids_written_open (gm : list span) (done : list (list span)) (ids : list Z) :
  ids_written gm done ids → ids_written gm (done ++ [[]]) ids.
Proof.
  intros [Hlen Hall]. split; [done |]. intros k x Hk.
  destruct (Hall k x Hk) as [Hlast Hother]. split; [| done].
  intros Hpos. destruct (Hlast Hpos) as [Hc Hnone]. split.
  - intros c (cl & Hcl & Hx & Hlater). apply Hc.
    apply lookup_app_Some in Hcl as [Hcl|[_ Hcl]].
    + exists cl. split; [done |]. split; [done |].
      intros c' cl' Hc' Hcl'. apply (Hlater c' cl' Hc').
      by apply lookup_app_l_Some.
    + apply list_lookup_singleton_Some in Hcl as [_ <-].
      by apply elem_of_nil in Hx.
  - intros Hx. apply Hnone. intros Hin. apply Hx.
    rewrite concat_app. apply elem_of_app. by left.
Qed.

Lemma ids_written_assign (gm : list span) (done : list (list span))
    (cl : list span) (y : span) (ids : list Z) :
  y ∈ gm →
  ids_written gm (done ++ [cl]) ids →
  ∃ ids', assign_cluster_id (enumerate_map gm) (length done) y ids = Ok ids'
          ∧ ids_written gm (done ++ [cl ++ [y]]) ids'.
Proof.
  intros Hy [Hlen Hall].
  destruct (last_position_exists gm y Hy) as (ky & Hky).
  pose proof (proj2 (enumerate_map_last gm y ky) Hky) as Hmap.
  unfold assign_cluster_id. rewrite Hmap. eexists. split; [done |].
  split; [by rewrite length_insert |].
  intros k x Hk. destruct (decide (k = ky)) as [->|Hne].
  - assert (x = y) as -> by (destruct Hky as [Hky _]; congruence).
    rewrite list_lookup_insert_eq
      by (rewrite Hlen; by eapply lookup_lt_Some).
    split; [| done]. intros _. split.
    + intros c (l & Hl & Hx & Hlater).
      destruct (decide (c = length done)) as [->|Hc]; [done |].
      exfalso. pose proof (lookup_lt_Some _ _ _ Hl) as Hlt.
      rewrite length_app in Hlt. simpl in Hlt.
      apply (Hlater (length done) (cl ++ [y])); [lia | |].
      * by rewrite lookup_app_r, Nat.sub_diag by lia.
      * apply elem_of_app. right. by apply list_elem_of_singleton.
    + intros Hnot. exfalso. apply Hnot. rewrite concat_app. simpl.
      rewrite app_nil_r. apply elem_of_app. right.
      apply elem_of_app. right. by apply list_elem_of_singleton.
  - rewrite list_lookup_insert_ne by done.
    destruct (Hall k x Hk) as [Hlast Hother]. split; [| done].
    intros Hpos.
    assert (x ≠ y) as Hxy.
    { intros ->. apply Hne. by eapply last_position_unique. }
    assert (Forall2 (λ l l', x ∈ l ↔ x ∈ l') (done ++ [cl ++ [y]]) (done ++ [cl]))
      as Hsame.
    { apply Forall2_app; [by apply Forall_Forall2_diag, Forall_forall |].
      repeat constructor.
      - intros [?|?%list_elem_of_singleton]%elem_of_app; done.
      - intros ?. apply elem_of_app. by left. }
    destruct (Hlast Hpos) as [Hc Hnone]. split.
    + intros c Hcl. apply Hc. by eapply last_cluster_same.
    + intros Hnot. apply Hnone. intros Hin. apply Hnot.
      rewrite concat_app in *. simpl in *. rewrite app_nil_r in *.
      apply elem_of_app in Hin as [Hin|Hin]; apply elem_of_app; [by left |].
      right. apply elem_of_app. by left.
Qed.

Lemma gold_cluster_ids_written (clusters : list (list span)) :
  ∃ ids,
    gold_cluster_ids clusters = Ok (sorted (flatten clusters), ids)
    ∧ ids_written (sorted (flatten clusters)) clusters ids.
Proof.
  unfold gold_cluster_ids.
  set (gm := sorted (flatten clusters)).
  destruct (for_enumerate_inv
              (λ cluster_id cluster ids,
                 for_each (assign_cluster_id (enumerate_map gm) cluster_id)
                   cluster ids)
              (λ c ids, ids_written gm (take c clusters) ids)
              clusters 0%nat (replicate (length gm) 0))
    as (ids & Hids & Hinv).
  - split; [by rewrite length_replicate |]. simpl. intros k x Hk.
    assert (replicate (length gm) 0 !! k = Some 0) as Hzero.
    { apply lookup_replicate_2. by eapply lookup_lt_Some. }
    split; [| done]. intros _. split; [| done].
    intros c (cl & Hcl & _). rewrite take_0 in Hcl. by rewrite lookup_nil in Hcl.
  - intros c cl ids Hcl Hinv. simpl in *. unfold for_each.
    pose proof (lookup_lt_Some _ _ _ Hcl) as Hc.
    destruct (for_enumerate_inv
                (λ _, assign_cluster_id (enumerate_map gm) c)
                (λ j ids, ids_written gm (take c clusters ++ [take j cl]) ids)
                cl 0%nat ids) as (ids' & Hids' & Hinv').
    + simpl. by apply ids_written_open.
    + intros j y ids0 Hy Hinv0. simpl in *.
      destruct (ids_written_assign gm (take c clusters) (take j cl) y ids0)
        as (ids1 & Hids1 & Hinv1); [| done |].
      * unfold gm. rewrite sorted_Permutation. apply elem_of_concat.
        exists cl. split; by eapply list_elem_of_lookup_2.
      * rewrite length_take, Nat.min_l in Hids1 by lia.
        exists ids1. split; [done |]. by rewrite (take_S_r _ _ _ Hy).
    + exists ids'. split; [done |]. simpl in Hinv'.
      rewrite firstn_all in Hinv'. by rewrite (take_S_r _ _ _ Hcl).
  - exists ids. simpl in *. rewrite Hids. simpl. split; [done |].
    by rewrite firstn_all in Hinv.
Qed.

(** X6.  [gold_cluster_ids] never fails, also when a span is listed in
    several clusters or twice in one: the array has one id per listed span;
    the last position of a span in the sorted gold mentions holds the
    position of the last cluster that lists it, and every earlier position
    of a repeated span keeps the initial 0. *)
Theorem gold_cluster_ids_repeated (clusters : list (list span)) :
  ∃ gm ids,
    gold_cluster_ids clusters = Ok (gm, ids)
    ∧ gm ≡ₚ flatten clusters
    ∧ length ids = length (flatten clusters)
    ∧ (∀ (k : nat) x, last_position gm x k →
         ∃ c, last_cluster clusters x c ∧ ids !! k = Some (Z.of_nat c))
    ∧ (∀ (k k' : nat) x, gm !! k = Some x → gm !! k' = Some x → (k < k')%nat →
         ids !! k = Some 0).
Proof.
  destruct (gold_cluster_ids_written clusters) as (ids & Hids & Hlen & Hall).
  exists (sorted (flatten clusters)), ids.
  split; [done |]. split; [apply sorted_Permutation |].
  split; [by rewrite Hlen, sorted_Permutation |]. split.
  - intros k x Hpos. destruct (Hall k x (proj1 Hpos)) as [Hlast _].
    destruct (Hlast Hpos) as [Hc _].
    assert (x ∈ flatten clusters) as Hx.
    { rewrite <- (sorted_Permutation (flatten clusters)).
      eapply list_elem_of_lookup_2. exact (proj1 Hpos). }
    assert (∃ c, last_cluster clusters x c) as [c Hlc]; [| by eauto].
    clear -Hx. unfold flatten in Hx.
    induction clusters as [|cl clusters IH] using rev_ind;
      [by apply elem_of_nil in Hx |].
    rewrite concat_app in Hx. simpl in Hx. rewrite app_nil_r in Hx.
    destruct (decide (x ∈ cl)) as [Hin|Hnotin].
    + exists (length clusters), cl.
      split; [by rewrite lookup_app_r, Nat.sub_diag by lia |].
      split; [done |]. intros c' cl' Hc' Hcl'.
      apply lookup_lt_Some in Hcl'. rewrite length_app in Hcl'.
      simpl in Hcl'. lia.
    + apply elem_of_app in Hx as [Hx|Hx]; [| done].
      destruct (IH Hx) as (c & l & Hl & Hxl & Hlater). exists c, l.
      split; [by apply lookup_app_l_Some |]. split; [done |].
      intros c' cl' Hc' [Hcl'|[_ Hcl']]%lookup_app_Some; [by eapply Hlater |].
      by apply list_lookup_singleton_Some in Hcl' as [_ <-].
  - intros k k' x Hk Hk' Hlt. destruct (Hall k x Hk) as [_ Hother].
    apply Hother. intros [_ Hlast]. by apply (Hlast k' Hlt).
Qed.

(** ** The untruncated tuple *)

Lemma mapM_Forall2 {A B : Type} (f : A → result B) (l : list A) (l' : list B) :
  mapM f l = Ok l' → Forall2 (λ x y, f x = Ok y) l l'.
Proof.
  revert l'. induction l as [|x l IH]; intros l'; simpl.
  - intros [= <-]. constructor.
  - intros (y & Hy & (ys & Hys & [= <-])%bind_Ok)%bind_Ok.
    constructor; [done | by apply IH].
Qed.

Lemma foldl_max_le (l : list Z) (x : Z) :
  x <= foldl Z.max x l ∧ ∀ y, y ∈ l → y <= foldl Z.max x l.
Proof.
  revert x. induction l as [|z l IH]; intros x; simpl.
  - split; [lia | by intros y ?%elem_of_nil].
  - destruct (IH (Z.max x z)) as [Hx Hl]. split; [lia |].
    intros y [->|Hy]%elem_of_cons; [lia | by apply Hl].
Qed.

Lemma foldl_max_elem (l : list Z) (x : Z) :
  foldl Z.max x l = x ∨ foldl Z.max x l ∈ l.
Proof.
  revert x. induction l as [|z l IH]; intros x; simpl; [by left |].
  destruct (IH (Z.max x z)) as [->|Hin]; [| right; by right].
  destruct (Z.max_spec x z) as [[_ ->]|[_ ->]]; [right; by left | by left].
Qed.

(** [max] returns an element that no element exceeds. *)
Lemma py_max_spec (l : list Z) (m : Z) :
  py_max l = Ok m → m ∈ l ∧ ∀ y, y ∈ l → y <= m.
Proof.
  destruct l as [|x l]; simpl; [done |]. intros [= <-].
  destruct (foldl_max_le l x) as [Hx Hl]. split.
  - destruct (foldl_max_elem l x) as [->|Hin]; [by left | by right].
  - intros y [->|Hy]%elem_of_cons; [done | by apply Hl].
Qed.

Lemma pad_to_length {A : Type} (n : nat) (x : A) (l : list A) :
  (length l ≤ n)%nat → length (pad_to n x l) = n.
Proof. intros Hle. unfold pad_to. rewrite length_app, length_replicate. lia. Qed.

Section TensorizeFacts.
Context {E : Type}.
Context (embedder : embedder_arg → list E).
Context (char_dict : Ascii.ascii → result Z).
Context (lower : string → string).
Context (set_order : list string → list string).

(** The statements of [tensorize_example] before the truncation, one by
    one, for a call that returns. *)
Lemma tensorize_full_inv (cfg : model_config) (ex : example) (training : bool)
    (t : tensors E) :
  tensorize_full embedder char_dict lower set_order cfg ex training = Ok t →
  ∃ (L mw mf : Z) (longest : list Z),
    py_sum (map (λ s : list string, Z.of_nat (length s)) (ex_sentences ex))
    = Z.of_nat (length (flatten (ex_speakers ex)))
    ∧ py_max (map (λ s : list string, Z.of_nat (length s)) (ex_sentences ex)) = Ok L
    ∧ mapM (λ s : list string, py_max (map string_length s)) (ex_sentences ex)
      = Ok longest
    ∧ py_max longest = Ok mw
    ∧ py_max (filter_widths cfg) = Ok mf
    ∧ mapM (λ sentence : list string,
              rows ←! mapM (λ word : string,
                              ids ←! mapM char_dict (String.list_ascii_of_string word);
                              if Z.of_nat (length ids) <=? Z.max mw mf
                              then Ok (pad_to (Z.to_nat (Z.max mw mf)) 0 ids)
                              else Raise ValueError)
                       sentence;
              Ok (pad_to (Z.to_nat L)
                    (replicate (Z.to_nat (Z.max mw mf)) 0) rows))
         (cased_sentences cfg lower ex)
      = Ok (char_index t)
    ∧ mapM (λ s, index_of s (set_order (flatten (ex_speakers ex))))
        (flatten (ex_speakers ex)) = Ok (speaker_ids t)
    ∧ genres cfg !! String.substring 0 2 (ex_doc_key ex) = Some (genre t)
    ∧ word_emb t
      = (if decide (emb_format cfg = "std_emb")
         then embedder (EmbSentences (cased_sentences cfg lower ex))
         else embedder (EmbDocKey (ex_doc_key ex))).
Proof.
  unfold tensorize_full, cased_sentences. intros Ht.
  apply bind_Ok in Ht as ([gm ids] & Hgold & Ht). simpl in Ht.
  destruct (Z.eqb_spec
              (py_sum (map (λ s : list string, Z.of_nat (length s)) (ex_sentences ex)))
              (Z.of_nat (length (flatten (ex_speakers ex))))) as [Hsum|];
    [| done].
  simpl in Ht.
  apply bind_Ok in Ht as (L & HL & Ht).
  apply bind_Ok in Ht as (longest & Hlongest & Ht).
  apply bind_Ok in Ht as (mw & Hmw & Ht).
  apply bind_Ok in Ht as (mf & Hmf & Ht).
  apply bind_Ok in Ht as (ci & Hci & Ht).
  apply bind_Ok in Ht as (sp & Hsp & Ht).
  destruct (genres cfg !! _) as [g|] eqn:Hg; [| done].
  injection Ht as <-. simpl. exists L, mw, mf, longest. done.
Qed.

Lemma cased_sentences_lengths (cfg : model_config) (ex : example) :
  Forall2 (λ s s' : list string, length s' = length s)
    (ex_sentences ex) (cased_sentences cfg lower ex).
Proof.
  unfold cased_sentences. destruct (emb_lowercase cfg).
  - apply Forall2_fmap_r, Forall_Forall2_diag, Forall_forall.
    intros s _. simpl. by rewrite length_map.
  - by apply Forall_Forall2_diag, Forall_forall.
Qed.

(** The dimensions of [char_index] and the way its rows are made. *)
Lemma char_index_rows (cfg : model_config) (ex : example) (training : bool)
    (t : tensors E) :
  tensorize_full embedder char_dict lower set_order cfg ex training = Ok t →
  ∃ (L W : nat) (longest : list Z),
    py_max (map (λ s : list string, Z.of_nat (length s)) (ex_sentences ex))
    = Ok (Z.of_nat L)
    ∧ Forall2 (λ (s : list string) m, py_max (map string_length s) = Ok m)
        (ex_sentences ex) longest
    ∧ (∃ mw mf, py_max longest = Ok mw ∧ py_max (filter_widths cfg) = Ok mf
                ∧ Z.of_nat W = Z.max mw mf)
    ∧ Forall2
        (λ (s : list string) rows,
           ∃ rs, Forall2
                   (λ (w : string) row,
                      ∃ ids, mapM char_dict (String.list_ascii_of_string w) = Ok ids
                             ∧ (length ids ≤ W)%nat
                             ∧ row = pad_to W 0 ids)
                   s rs
                 ∧ rows = pad_to L (replicate W 0) rs)
        (cased_sentences cfg lower ex) (char_index t).
Proof.
  intros (Lz & mw & mf & longest & _ & HL & Hlongest & Hmw & Hmf & Hci & _)
         %tensorize_full_inv.
  apply mapM_Forall2 in Hlongest.
  assert (0 <= Lz) as HLz.
  { apply py_max_spec in HL as [(s & -> & _)%list_elem_of_fmap _]. lia. }
  assert (0 <= mw) as Hmw0.
  { pose proof (py_max_spec _ _ Hmw) as [Hin _].
    apply list_elem_of_lookup in Hin as [i Hi].
    destruct (Forall2_lookup_r _ _ _ _ _ Hlongest Hi) as (s & _ & Hs).
    apply py_max_spec in Hs as [(w & -> & _)%list_elem_of_fmap _].
    unfold string_length. lia. }
  exists (Z.to_nat Lz), (Z.to_nat (Z.max mw mf)), longest.
  rewrite !Z2Nat.id by lia.
  split; [done |]. split; [done |]. split; [by exists mw, mf |].
  apply mapM_Forall2 in Hci. eapply Forall2_impl; [exact Hci |].
  intros s rows (rs & Hrs & [= <-])%bind_Ok. exists rs. split; [| done].
  apply mapM_Forall2 in Hrs. eapply Forall2_impl; [exact Hrs |].
  intros w row (ids & Hids & Hrow)%bind_Ok. exists ids. split; [done |].
  destruct (Z.leb_spec (Z.of_nat (length ids)) (Z.max mw mf)) as [Hle|];
    [| done].
  injection Hrow as <-. split; [lia | done].
Qed.

Lemma char_index_has_shape (cfg : model_config) (ex : example) (L W : nat)
    (ci : list (list (list Z))) :
  (∀ s, s ∈ ex_sentences ex → (length s ≤ L)%nat) →
  Forall2
    (λ (s : list string) rows,
       ∃ rs, Forall2
               (λ (w : string) row,
                  ∃ ids, mapM char_dict (String.list_ascii_of_string w) = Ok ids
                         ∧ (length ids ≤ W)%nat
                         ∧ row = pad_to W 0 ids)
               s rs
             ∧ rows = pad_to L (replicate W 0) rs)
    (cased_sentences cfg lower ex) ci →
  has_shape3 ci (length (ex_sentences ex)) L W.
Proof.
  intros Hlen Hrows.
  pose proof (cased_sentences_lengths cfg ex) as Hcased.
  split.
  - rewrite <- (Forall2_length _ _ _ Hrows).
    by rewrite <- (Forall2_length _ _ _ Hcased).
  - apply Forall_lookup. intros i rows Hi.
    destruct (Forall2_lookup_r _ _ _ _ _ Hrows Hi)
      as (s' & Hs' & rs & Hrs & ->).
    destruct (Forall2_lookup_r _ _ _ _ _ Hcased Hs') as (s & Hs & Hlens).
    pose proof (Hlen s (list_elem_of_lookup_2 _ _ _ Hs)) as HsL.
    pose proof (Forall2_length _ _ _ Hrs) as Hrslen.
    split; [apply pad_to_length; lia |].
    unfold pad_to. apply Forall_app. split.
    + apply Forall_lookup. intros j row Hj.
      destruct (Forall2_lookup_r _ _ _ _ _ Hrs Hj)
        as (w & _ & ids & _ & Hle & ->).
      by apply pad_to_length.
    + apply Forall_replicate. by rewrite length_replicate.
Qed.

Lemma py_max_lengths (sentences : list (list string)) (L : nat) :
  py_max (map (λ s : list string, Z.of_nat (length s)) sentences) = Ok (Z.of_nat L) →
  (∃ s, s ∈ sentences ∧ length s = L)
  ∧ ∀ s, s ∈ sentences → (length s ≤ L)%nat.
Proof.
  intros [(s0 & Hs0 & Hs0in)%list_elem_of_fmap HLmax]%py_max_spec. split.
  - exists s0. split; [done | lia].
  - intros s Hs. assert (Z.of_nat (length s) <= Z.of_nat L); [| lia].
    apply HLmax. apply list_elem_of_fmap. by exists s.
Qed.

(** X7.  The untruncated [char_index] is a rectangular block: one slab per
    sentence, as many rows per slab as the longest sentence has words, and
    rows as wide as the longest word or the widest filter, whichever is
    larger.  A document for which this is returned has no empty sentence. *)
Theorem char_index_shape (cfg : model_config) (ex : example) (training : bool)
    (t : tensors E) :
  tensorize_full embedder char_dict lower set_order cfg ex training = Ok t →
  ∃ L W : nat,
    has_shape3 (char_index t) (length (ex_sentences ex)) L W
    ∧ (∃ s, s ∈ ex_sentences ex ∧ length s = L)
    ∧ (∀ s, s ∈ ex_sentences ex → (0 < length s ≤ L)%nat)
    ∧ (∀ s w, s ∈ ex_sentences ex → w ∈ s → (String.length w ≤ W)%nat)
    ∧ (∀ f, f ∈ filter_widths cfg → f <= Z.of_nat W)
    ∧ ((∃ s w, s ∈ ex_sentences ex ∧ w ∈ s ∧ String.length w = W)
       ∨ Z.of_nat W ∈ filter_widths cfg).
Proof.
  intros (L & W & longest & HL & Hlongest & (mw & mf & Hmw & Hmf & HW) & Hrows)
         %char_index_rows.
  apply py_max_lengths in HL as [Hattained Hlen].
  apply py_max_spec in Hmw as [Hmwin Hmwmax].
  apply py_max_spec in Hmf as [Hmfin Hmfmax].
  assert (∀ s, s ∈ ex_sentences ex →
            ∃ m, m ∈ longest ∧ py_max (map string_length s) = Ok m) as Hm.
  { intros s [i Hi]%list_elem_of_lookup.
    destruct (Forall2_lookup_l _ _ _ _ _ Hlongest Hi) as (m & Hmi & Hs).
    exists m. split; [by eapply list_elem_of_lookup_2 | done]. }
  exists L, W. split; [| split; [| split; [| split; [| split]]]].
  - by eapply char_index_has_shape.
  - done.
  - intros s Hs. split; [| by apply Hlen].
    destruct (Hm s Hs) as (m & _ & Hmax).
    destruct s; [done | simpl; lia].
  - intros s w Hs Hw. destruct (Hm s Hs) as (m & Hmin & Hmax).
    apply py_max_spec in Hmax as [_ Hmax].
    assert (string_length w <= m) as Hwm.
    { apply Hmax. apply list_elem_of_fmap. by exists w. }
    pose proof (Hmwmax m Hmin). unfold string_length in Hwm. lia.
  - intros f Hf. pose proof (Hmfmax f Hf). lia.
  - destruct (Z.max_spec mw mf) as [[_ Heq]|[_ Heq]]; rewrite Heq in HW.
    + right. by rewrite HW.
    + left. apply list_elem_of_lookup in Hmwin as [i Hi].
      destruct (Forall2_lookup_r _ _ _ _ _ Hlongest Hi) as (s & Hs & Hmax).
      apply py_max_spec in Hmax as [(w & Hw & Hwin)%list_elem_of_fmap _].
      exists s, w. split; [by eapply list_elem_of_lookup_2 |].
      split; [done |]. unfold string_length in Hw. lia.
Qed.

(** X8.  Row [j] of slab [i] of the untruncated [char_index] holds the
    character ids of word [j] of sentence [i] (lowercased when the
    configuration says so) followed by zeros, and every row after the last
    word of the sentence is all zeros. *)
Theorem char_index_rows_padded (cfg : model_config) (ex : example)
    (training : bool) (t : tensors E) :
  tensorize_full embedder char_dict lower set_order cfg ex training = Ok t →
  ∃ L W : nat,
    has_shape3 (char_index t) (length (ex_sentences ex)) L W
    ∧ ∀ (i : nat) s, cased_sentences cfg lower ex !! i = Some s →
        ∃ rows,
          char_index t !! i = Some rows
          ∧ (∀ (j : nat) w, s !! j = Some w →
               ∃ ids, mapM char_dict (String.list_ascii_of_string w) = Ok ids
                      ∧ rows !! j = Some (ids ++ replicate (W - length ids) 0))
          ∧ (∀ j : nat, (length s ≤ j < L)%nat →
               rows !! j = Some (replicate W 0)).
Proof.
  intros (L & W & longest & HL & _ & _ & Hrows)%char_index_rows.
  apply py_max_lengths in HL as [_ Hlen].
  exists L, W. split; [by eapply char_index_has_shape |].
  intros i s Hs.
  destruct (Forall2_lookup_l _ _ _ _ _ Hrows Hs) as (rows & Hi & rs & Hrs & ->).
  exists (pad_to L (replicate W 0) rs). split; [done |].
  pose proof (Forall2_length _ _ _ Hrs) as Hrslen. unfold pad_to. split.
  - intros j w Hw.
    destruct (Forall2_lookup_l _ _ _ _ _ Hrs Hw) as (row & Hj & ids & Hids & _ & ->).
    exists ids. split; [done |]. by apply lookup_app_l_Some.
  - intros j Hj. rewrite lookup_app_r by lia.
    apply lookup_replicate_2. lia.
Qed.
End TensorizeFacts.

Lemma index_of_spec (s : string) (l : list string) (k : Z) :
  index_of s l = Ok k →
  0 <= k < Z.of_nat (length l) ∧ l !! Z.to_nat k = Some s.
Proof.
  revert k. induction l as [|x l IH]; intros k; simpl; [done |].
  destruct (decide (x = s)) as [->|Hne].
  - intros [= <-]. split; [lia | done].
  - intros (k' & Hk' & [= <-])%bind_Ok. destruct (IH k' Hk') as [Hr Hl].
    split; [lia |]. by replace (Z.to_nat (k' + 1)) with (S (Z.to_nat k')) by lia.
Qed.

Lemma mapM_raise {A B : Type} (f : A → result B) (l : list A) (e : exn) :
  (∀ x e', f x = Raise e' → e' = e) →
  (∃ x e', x ∈ l ∧ f x = Raise e') →
  mapM f l = Raise e.
Proof.
  intros Honly. induction l as [|x l IH]; intros (y & e' & Hy & Hf).
  - by apply elem_of_nil in Hy.
  - simpl. destruct (f x) as [b|e0] eqn:Hx; simpl.
    + apply elem_of_cons in Hy as [->|Hy]; [congruence |].
      rewrite IH by eauto. done.
    + by rewrite (Honly x e0 Hx).
Qed.

Lemma py_max_raises (l : list Z) (e : exn) : py_max l = Raise e → e = ValueError.
Proof. destruct l; simpl; [by intros [= <-] | done]. Qed.

Lemma py_sum_app (l1 l2 : list Z) : py_sum (l1 ++ l2) = py_sum l1 + py_sum l2.
Proof. unfold py_sum. induction l1 as [|x l1 IH]; simpl; lia. Qed.

Lemma py_sum_nonneg (l : list Z) : Forall (λ x, 0 <= x) l → 0 <= py_sum l.
Proof. unfold py_sum. induction 1; simpl; lia. Qed.

(** A slice between two non-negative bounds. *)
Lemma py_slice_nonneg {A : Type} (l : list A) (lo n : Z) :
  0 <= lo → 0 <= n →
  py_slice l lo (lo + n) = take (Z.to_nat n) (drop (Z.to_nat lo) l).
Proof.
  intros Hlo Hn. unfold py_slice, slice_bound.
  destruct (Z.ltb_spec lo 0); [lia |]. destruct (Z.ltb_spec (lo + n) 0); [lia |].
  destruct (decide (Z.of_nat (length l) <= lo)) as [Hout|Hin].
  - rewrite !drop_ge by lia. by rewrite !take_nil.
  - rewrite (Z.min_l lo) by lia.
    destruct (Z.min_spec (lo + n) (Z.of_nat (length l))) as [[Hc ->]|[Hc ->]].
    + f_equal. lia.
    + rewrite !take_ge; [done | |]; rewrite length_drop; lia.
Qed.

Lemma np_mask_length {A : Type} (a a' : list A) (mask : list bool) :
  np_mask a mask = Ok a' →
  length a' = length (filter (λ b, b = true) mask).
Proof.
  unfold np_mask. destruct (decide _) as [Hlen|]; [| done]. intros [= <-].
  rewrite length_map. revert mask Hlen.
  induction a as [|x a IH]; intros [|b mask] Hlen; simpl in *; try done.
  rewrite !filter_cons. simpl. destruct b; simpl.
  - f_equal. apply IH. lia.
  - apply IH. lia.
Qed.

Section TensorizeOutcome.
Context {E : Type}.
Context (embedder : embedder_arg → list E).
Context (char_dict : Ascii.ascii → result Z).
Context (lower : string → string).
Context (set_order : list string → list string).

(** X9.  In the untruncated tuple there is one speaker id per word of the
    document; the id of a word is a position of its speaker in the
    enumeration of the set of speakers, and two words have the same id
    exactly when they have the same speaker. *)
Theorem speaker_ids_spec (cfg : model_config) (ex : example) (training : bool)
    (t : tensors E) :
  tensorize_full embedder char_dict lower set_order cfg ex training = Ok t →
  py_sum (text_len t) = Z.of_nat (length (speaker_ids t))
  ∧ length (speaker_ids t) = length (flatten (ex_speakers ex))
  ∧ (∀ (i : nat) a, flatten (ex_speakers ex) !! i = Some a →
       ∃ k, speaker_ids t !! i = Some k
            ∧ 0 <= k
            ∧ set_order (flatten (ex_speakers ex)) !! Z.to_nat k = Some a)
  ∧ (∀ (i j : nat) a b ki kj,
       flatten (ex_speakers ex) !! i = Some a →
       flatten (ex_speakers ex) !! j = Some b →
       speaker_ids t !! i = Some ki → speaker_ids t !! j = Some kj →
       (ki = kj ↔ a = b)).
Proof.
  intros Ht.
  pose proof (tensorize_full_fields _ _ _ _ _ _ _ _ Ht)
    as (_ & _ & _ & _ & _ & _ & Htl & _ & _).
  apply tensorize_full_inv in Ht
    as (_ & _ & _ & _ & Hsum & _ & _ & _ & _ & _ & Hsp & _ & _).
  pose proof (mapM_length _ _ _ Hsp) as Hlen.
  apply mapM_Forall2 in Hsp.
  assert (∀ (i : nat) a, flatten (ex_speakers ex) !! i = Some a →
            ∃ k, speaker_ids t !! i = Some k
                 ∧ index_of a (set_order (flatten (ex_speakers ex))) = Ok k)
    as Hid.
  { intros i a Ha. destruct (Forall2_lookup_l _ _ _ _ _ Hsp Ha) as (k & Hk & Hidx).
    by exists k. }
  split; [by rewrite Htl, Hsum, Hlen |]. split; [done |]. split.
  - intros i a Ha. destruct (Hid i a Ha) as (k & Hk & Hidx).
    apply index_of_spec in Hidx as [Hr Hl]. exists k.
    split; [done |]. split; [lia | done].
  - intros i j a b ki kj Ha Hb Hki Hkj.
    destruct (Hid i a Ha) as (ki' & Hki' & Hia).
    destruct (Hid j b Hb) as (kj' & Hkj' & Hjb).
    assert (ki' = ki) as -> by congruence.
    assert (kj' = kj) as -> by congruence.
    split.
    + intros ->. apply index_of_spec in Hia as [_ Hia], Hjb as [_ Hjb]. congruence.
    + intros ->. congruence.
Qed.

(** X10.  How [tensorize_example] rejects a document, whatever its clusters
    are: a number of words other than the number of speakers fails the
    assertion; with matching numbers, a document of no sentence, a sentence
    of no word or an empty list of filter widths raises [ValueError], the
    maximum of an empty sequence. *)
Theorem tensorize_example_rejects (cfg : model_config) (r : Z) (ex : example)
    (training : bool) :
  let num_words :=
    py_sum (map (λ s : list string, Z.of_nat (length s)) (ex_sentences ex)) in
  (num_words ≠ Z.of_nat (length (flatten (ex_speakers ex))) →
   tensorize_example embedder char_dict lower set_order cfg r ex training
   = Raise AssertionError)
  ∧ (num_words = Z.of_nat (length (flatten (ex_speakers ex))) →
     ex_sentences ex = [] ∨ [] ∈ ex_sentences ex ∨ filter_widths cfg = [] →
     tensorize_example embedder char_dict lower set_order cfg r ex training
     = Raise ValueError).
Proof.
  intros num_words. unfold tensorize_example, tensorize_full.
  destruct (gold_cluster_ids_written (ex_clusters ex)) as (ids & -> & _).
  cbn [bind fst snd]. fold num_words.
  split.
  - intros Hne. by destruct (Z.eqb_spec num_words
                               (Z.of_nat (length (flatten (ex_speakers ex))))).
  - intros Heq Hbad.
    destruct (Z.eqb_spec num_words
                (Z.of_nat (length (flatten (ex_speakers ex))))); [| done].
    cbn [negb].
    destruct (py_max (map (λ s : list string, Z.of_nat (length s))
                        (ex_sentences ex))) as [L|e0] eqn:HL;
      [| by rewrite (py_max_raises _ _ HL)].
    cbn [bind].
    destruct (mapM (λ s : list string, py_max (map string_length s))
                (ex_sentences ex)) as [longest|e0] eqn:Hlongest.
    2: { destruct (decide ([] ∈ ex_sentences ex)) as [Hin|Hnotin].
         - rewrite (mapM_raise _ _ ValueError) in Hlongest.
           + by injection Hlongest as <-.
           + intros x e'. apply py_max_raises.
           + exists [], ValueError. done.
         - assert (e0 = ValueError) as ->; [| done].
           clear -Hlongest. induction (ex_sentences ex) as [|s l IH];
             simpl in Hlongest; [done |].
           destruct (py_max (map string_length s)) eqn:Hs; simpl in Hlongest.
           + destruct (mapM _ l); simpl in Hlongest; [done |].
             apply IH. congruence.
           + injection Hlongest as <-. by apply py_max_raises in Hs. }
    cbn [bind].
    destruct (py_max longest) as [mw|e0] eqn:Hmw;
      [| by rewrite (py_max_raises _ _ Hmw)].
    cbn [bind].
    destruct (py_max (filter_widths cfg)) as [mf|e0] eqn:Hmf;
      [| by rewrite (py_max_raises _ _ Hmf)].
    exfalso. destruct Hbad as [Hnil|[Hin|Hnil]].
    + by rewrite Hnil in HL.
    + apply mapM_Forall2 in Hlongest.
      apply list_elem_of_lookup in Hin as [i Hi].
      by destruct (Forall2_lookup_l _ _ _ _ _ Hlongest Hi) as (m & _ & Hm).
    + by rewrite Hnil in Hmf.
Qed.

(** X11.  Every tuple [tensorize_example] returns, truncated or not, is
    consistent: it has one speaker id per word of the sentences it keeps,
    and [gold_starts], [gold_ends] and [cluster_ids] have the same length.
    The bound on the sentences is non-negative and so is the drawn offset. *)
Theorem tensorize_example_consistent (cfg : model_config) (r : Z) (ex : example)
    (training : bool) (t : tensors E) :
  0 <= max_training_sentences cfg → 0 <= r →
  tensorize_example embedder char_dict lower set_order cfg r ex training = Ok t →
  py_sum (text_len t) = Z.of_nat (length (speaker_ids t))
  ∧ length (gold_ends t) = length (gold_starts t)
  ∧ length (cluster_ids t) = length (gold_starts t).
Proof.
  intros HM Hr. unfold tensorize_example.
  intros (t0 & Ht0 & Ht)%bind_Ok.
  pose proof (tensorize_full_fields _ _ _ _ _ _ _ _ Ht0)
    as (gm & ids & Hgold & Hcids & Hgs & Hge & Htl & _ & _).
  apply gold_cluster_ids_length in Hgold.
  pose proof (tensorize_full_inv _ _ _ _ _ _ _ _ Ht0)
    as (_ & _ & _ & _ & Hsum & _ & _ & _ & _ & _ & Hsp & _ & _).
  apply mapM_length in Hsp.
  assert (py_sum (text_len t0) = Z.of_nat (length (speaker_ids t0))) as Hwords
    by (by rewrite Htl, Hsum, Hsp).
  assert (Forall (λ x, 0 <= x) (text_len t0)) as Hpos.
  { rewrite Htl. apply Forall_fmap, Forall_forall. intros s _. simpl. lia. }
  destruct (training && _).
  2: { injection Ht as <-. split; [done |].
       rewrite Hgs, Hge, Hcids, !length_map. done. }
  unfold truncate_example in Ht.
  destruct (negb (_ >? _)); [done |].
  destruct (negb (bool_decide _)); [done |].
  apply bind_Ok in Ht as (gs & Hgs' & Ht).
  apply bind_Ok in Ht as (ge & Hge' & Ht).
  apply bind_Ok in Ht as (cids & Hcids' & Ht).
  injection Ht as <-. cbn [text_len speaker_ids gold_starts gold_ends cluster_ids].
  apply np_mask_length in Hgs', Hge', Hcids'.
  split; [| rewrite !length_map; split; congruence].
  set (M := max_training_sentences cfg) in *.
  assert (py_slice (text_len t0) 0 r = take (Z.to_nat r) (text_len t0)) as ->.
  { pose proof (py_slice_nonneg (text_len t0) 0 r ltac:(lia) Hr) as Hs.
    rewrite Z.add_0_l in Hs. by rewrite Hs. }
  rewrite !(py_slice_nonneg (text_len t0)) by lia.
  set (wo := py_sum (take (Z.to_nat r) (text_len t0))).
  set (nw := py_sum (take (Z.to_nat M) (drop (Z.to_nat r) (text_len t0)))).
  assert (0 <= wo) as Hwo by (apply py_sum_nonneg; by apply Forall_take).
  assert (0 <= nw) as Hnw by (apply py_sum_nonneg; by apply Forall_take, Forall_drop).
  assert (py_sum (text_len t0)
          = wo + nw
            + py_sum (drop (Z.to_nat M) (drop (Z.to_nat r) (text_len t0))))
    as Hsplit.
  { unfold wo, nw. by rewrite <- !py_sum_app, <- app_assoc, !take_drop. }
  assert (0 <= py_sum (drop (Z.to_nat M) (drop (Z.to_nat r) (text_len t0))))
    as Hrest.
  { apply py_sum_nonneg. by apply Forall_drop, Forall_drop. }
  rewrite py_slice_inner_length by lia. lia.
Qed.
End TensorizeOutcome.

(** ** The sign of the loss *)

(** The sums of exponentials of a row and of its gold-labelled scores. *)
Lemma gold_row_sums (row : list xreal) (labels : list bool) :
  Forall is_score row →
  ∃ S G : R,
    xsum (map xexp row) = Fin S
    ∧ xsum (map xexp (gold_scores_of row labels)) = Fin G
    ∧ (0 <= G <= S)%R
    ∧ ((∃ (j : nat) s, row !! j = Some (Fin s)) → (0 < S)%R)
    ∧ ((∃ (j : nat) s, row !! j = Some (Fin s) ∧ labels !! j = Some true)
       → (0 < G)%R)
    ∧ ((∀ (j : nat) s, row !! j = Some (Fin s) → labels !! j ≠ Some true)
       → G = 0%R).
Proof.
  intros Hrow. revert labels.
  induction Hrow as [|x row Hx _ IH]; intros labels.
  - exists 0%R, 0%R. unfold gold_scores_of. simpl.
    split; [done |]. split; [done |]. split; [lra |].
    split; [by intros (j & s & Hj) |]. split; [by intros (j & s & Hj & _) | done].
  - destruct labels as [|b labels].
    + destruct (IH []) as (S & G & HS & _ & [HG0 HGS] & HSpos & _).
      unfold gold_scores_of. rewrite zip_with_nil_r. simpl. rewrite HS.
      destruct x as [|v| |]; try done; simpl.
      * exists (0 + S)%R, 0%R. split; [done |]. split; [done |].
        split; [lra |]. split.
        -- intros (j & s & Hj). destruct j as [|j]; [done |]. simpl in Hj.
           assert (0 < S)%R by (apply HSpos; eauto). lra.
        -- split; [by intros (j & s & _ & Hj) | done].
      * pose proof (exp_pos v).
        exists (exp v + S)%R, 0%R. split; [done |]. split; [done |].
        split; [lra |]. split; [intros _; lra |].
        split; [by intros (j & s & _ & Hj) | done].
    + destruct (IH labels) as (S & G & HS & HG & [HG0 HGS] & HSpos & HGpos & HGzero).
      unfold gold_scores_of in *. cbn [map zip_with zip xsum foldr].
      rewrite filter_cons. cbn [snd].
      fold (xsum (map xexp row)). rewrite HS.
      destruct b.
      * rewrite decide_True by done. cbn [map fst xsum foldr].
        fold (xsum (map xexp (map fst (filter (λ p : xreal * bool, p.2 = true)
                                         (zip row labels))))).
        rewrite HG. destruct x as [|v| |]; try done; simpl.
        -- exists (0 + S)%R, (0 + G)%R. split; [done |]. split; [done |].
           split; [lra |]. split; [| split].
           ++ intros (j & s & Hj). destruct j as [|j]; [done |]. simpl in Hj.
              assert (0 < S)%R by (apply HSpos; eauto). lra.
           ++ intros (j & s & Hj & Hl). destruct j as [|j]; [done |].
              simpl in Hj, Hl. assert (0 < G)%R by (apply HGpos; eauto). lra.
           ++ intros Hnone. rewrite HGzero; [lra |].
              intros j s Hj. apply (Hnone (Datatypes.S j) s Hj).
        -- pose proof (exp_pos v).
           exists (exp v + S)%R, (exp v + G)%R. split; [done |]. split; [done |].
           split; [lra |]. split; [intros _; lra |]. split; [intros _; lra |].
           intros Hnone. by destruct (Hnone 0%nat v eq_refl).
      * rewrite decide_False by done. rewrite HG.
        assert (∀ e : R, (0 <= e)%R →
                  (0 <= G <= e + S)%R
                  ∧ ((∃ (j : nat) s, (x :: row) !! j = Some (Fin s)
                                     ∧ (false :: labels) !! j = Some true)
                     → (0 < G)%R)
                  ∧ ((∀ (j : nat) s, (x :: row) !! j = Some (Fin s)
                                     → (false :: labels) !! j ≠ Some true)
                     → G = 0%R)) as Hgold.
        { intros e He. split; [lra |]. split.
          - intros (j & s & Hj & Hl). destruct j as [|j]; [done |].
            simpl in Hj, Hl. apply HGpos. eauto.
          - intros Hnone. apply HGzero. intros j s Hj. apply (Hnone (Datatypes.S j) s Hj). }
        destruct x as [|v| |]; try done; simpl.
        -- exists (0 + S)%R, G. split; [done |]. split; [done |].
           destruct (Hgold 0%R ltac:(lra)) as (? & ? & ?).
           split; [done |]. split; [| done].
           intros (j & s & Hj). destruct j as [|j]; [done |]. simpl in Hj.
           assert (0 < S)%R by (apply HSpos; eauto). lra.
        -- pose proof (exp_pos v).
           exists (exp v + S)%R, G. split; [done |]. split; [done |].
           destruct (Hgold (exp v) ltac:(lra)) as (? & ? & ?).
           split; [done |]. split; [intros _; lra | done].
Qed.

Lemma softmax_loss_rows (n m : nat) (antecedent_scores : tensor2)
    (antecedent_labels : list (list bool)) :
  has_shape antecedent_scores n m →
  has_shape antecedent_labels n m →
  Forall (Forall is_score) antecedent_scores →
  softmax_loss antecedent_scores antecedent_labels
  = Ok (zip_with (λ row labels,
                    xsub (reduce_logsumexp row)
                      (reduce_logsumexp (gold_scores_of row labels)))
          antecedent_scores antecedent_labels).
Proof.
  intros Hs Hl Hscore.
  pose proof (has_shape_rows _ _ _ _ Hs Hl) as Hrows.
  unfold softmax_loss. rewrite tf_map2_2_same.
  2: { apply Forall2_fmap_r. eapply Forall2_impl; [exact Hrows |].
       intros r1 r2 Hr. simpl. by rewrite length_map. }
  simpl. rewrite tf_map2_1_same.
  2: { rewrite !length_map, length_zip_with, length_map.
       apply Forall2_length in Hrows. lia. }
  f_equal. clear Hs Hl. revert Hscore.
  induction Hrows as [|row labels ss ls Hr _ IH]; intros Hscore; [done |].
  apply Forall_cons in Hscore as [Hrow Hscore]. simpl.
  rewrite gold_row_logsumexp by done. f_equal. by apply IH.
Qed.

(** X12.  On scores that are real numbers or [-inf], the loss of a mention
    is a non-negative real number when one of its gold-labelled slots has a
    real score, and it is [+inf] when the row has a real score but no
    gold-labelled slot with a real score. *)
Theorem softmax_loss_sign (n m : nat) (antecedent_scores : tensor2)
    (antecedent_labels : list (list bool)) :
  has_shape antecedent_scores n m →
  has_shape antecedent_labels n m →
  Forall (Forall is_score) antecedent_scores →
  ∃ loss,
    softmax_loss antecedent_scores antecedent_labels = Ok loss
    ∧ ∀ (i : nat) row labels,
        antecedent_scores !! i = Some row →
        antecedent_labels !! i = Some labels →
        ((∃ (j : nat) s, row !! j = Some (Fin s) ∧ labels !! j = Some true) →
         ∃ r, loss !! i = Some (Fin r) ∧ (0 <= r)%R)
        ∧ ((∃ (j : nat) s, row !! j = Some (Fin s)) →
           (∀ (j : nat) s, row !! j = Some (Fin s) → labels !! j ≠ Some true) →
           loss !! i = Some PosInf).
Proof.
  intros Hs Hl Hscore. eexists. split; [by eapply softmax_loss_rows |].
  intros i row labels Hrow Hlab.
  assert (zip_with (λ row labels,
                      xsub (reduce_logsumexp row)
                        (reduce_logsumexp (gold_scores_of row labels)))
            antecedent_scores antecedent_labels !! i
          = Some (xsub (reduce_logsumexp row)
                    (reduce_logsumexp (gold_scores_of row labels)))) as ->.
  { apply lookup_zip_with_Some. by exists row, labels. }
  pose proof (Forall_lookup_1 _ _ _ _ Hscore Hrow) as Hrowscore.
  destruct (gold_row_sums row labels Hrowscore)
    as (S & G & HS & HG & [HG0 HGS] & HSpos & HGpos & HGzero).
  unfold reduce_logsumexp. rewrite HS, HG. split.
  - intros Hgold. specialize (HGpos Hgold).
    assert (0 < S)%R as HS0 by lra. simpl.
    destruct (Rlt_dec 0 S) as [_|]; [| done].
    destruct (Rlt_dec 0 G) as [_|]; [| done].
    simpl. eexists. split; [done |].
    destruct (Rle_lt_or_eq_dec G S HGS) as [Hlt| ->]; [| lra].
    pose proof (ln_increasing G S HGpos Hlt). lra.
  - intros Hfin Hnone. specialize (HSpos Hfin). rewrite (HGzero Hnone). simpl.
    destruct (Rlt_dec 0 S) as [_|]; [| done].
    destruct (Rlt_dec 0 0) as [Hlt|_]; [exfalso; lra |]. done.
Qed.

(** ** The graph *)

(** X13.  With both feature switches off the list of feature embeddings is
    empty, and [get_antecedent_scores] raises the [ValueError] of the
    concatenation of no tensor, for every input. *)
Theorem get_antecedent_scores_no_features (ffnn : tensor3 → tensor3)
    (distance_bins : Z → Z) (dropout : nat → nat → nat → xreal → xreal)
    (p : scoring_params) (mention_emb : list vec) (mention_scores : list xreal)
    (antecedents : list (list Z)) (antecedents_len : list Z)
    (mention_speaker_ids : list Z) (genre_emb : vec) :
  use_metadata p = false → use_features p = false →
  get_antecedent_scores ffnn distance_bins dropout p mention_emb mention_scores
    antecedents antecedents_len mention_speaker_ids genre_emb
  = Raise ValueError.
Proof.
  intros Hm Hf. unfold get_antecedent_scores, pair_feature_emb.
  by rewrite Hm, Hf.
Qed.

Lemma get_antecedent_scores_no_features_witness :
  get_antecedent_scores ffnn_zero clip_bins no_dropout
    (ScoringParams false false ([Fin 0], [Fin 1]) (replicate 10 [Fin 0]))
    [[Fin 0]; [Fin 0]] [Fin 0; Fin 0] [[0]; [0]] [0; 1] [0; 0] [Fin 0]
  = Raise ValueError.
Proof.
  apply (get_antecedent_scores_no_features ffnn_zero clip_bins no_dropout
           (ScoringParams false false ([Fin 0], [Fin 1]) (replicate 10 [Fin 0])));
    reflexivity.
Defined.

Lemma tf_gather_Ok {A : Type} (params : list A) (i : Z) (x : A) :
  tf_gather params i = Ok x → 0 <= i ∧ params !! Z.to_nat i = Some x.
Proof.
  unfold tf_gather. destruct (Z.leb_spec 0 i); [| done].
  destruct (_ <? _); simpl; [| done].
  destruct (params !! Z.to_nat i); [| done]. by intros [= <-].
Qed.

Section GraphFacts.
Context {E : Type}.
Context (get_mention_emb : tensors E → list Z → list Z → list vec).
Context (get_mention_scores : list vec → tensor2).
Context (spans : list Z → Z → list Z * list Z).
Context (extract_mentions : list xreal → list Z → list Z → Z → list Z).
Context (mention_budget : Z → Z).

(** X14.  Without gold mentions, the mention set keeps the four arrays
    aligned: entry [k] of the starts, ends, embeddings and scores is read
    from the candidate that [extract_mentions] put at position [k], and
    every array has one entry per extracted index. *)
Theorem mention_module_aligned (g : graph_config) (t : tensors E) (m : mentions) :
  mention_module get_mention_emb get_mention_scores spans extract_mentions
    mention_budget false g t = Ok m →
  let candidates :=
    spans (flattened_sentence_indices (text_len t)) (max_mention_width g) in
  let candidate_emb := get_mention_emb t (fst candidates) (snd candidates) in
  let indices :=
    extract_mentions (candidate_mention_scores m) (fst candidates)
      (snd candidates) (mention_budget (py_sum (text_len t))) in
  Forall2 (λ v s, v = [s]) (get_mention_scores candidate_emb)
    (candidate_mention_scores m)
  ∧ length (mention_starts m) = length indices
  ∧ length (mention_ends m) = length indices
  ∧ length (mention_emb m) = length indices
  ∧ length (mention_scores m) = length indices
  ∧ ∀ (k : nat) idx, indices !! k = Some idx →
      0 <= idx
      ∧ mention_starts m !! k = fst candidates !! Z.to_nat idx
      ∧ mention_ends m !! k = snd candidates !! Z.to_nat idx
      ∧ mention_emb m !! k = candidate_emb !! Z.to_nat idx
      ∧ mention_scores m !! k = candidate_mention_scores m !! Z.to_nat idx
      ∧ is_Some (mention_starts m !! k).
Proof.
  unfold mention_module.
  intros (cms & Hcms & (ms & Hms & (me & Hme & (emb & Hemb &
            (sc & Hsc & [= <-])%bind_Ok)%bind_Ok)%bind_Ok)%bind_Ok)%bind_Ok.
  cbn [candidate_mention_scores mention_starts mention_ends mention_emb
       mention_scores].
  split.
  { unfold tf_squeeze1 in Hcms. apply mapM_Forall2 in Hcms.
    eapply Forall2_impl; [exact Hcms |]. intros v s Hv.
    destruct v as [|x [|y v]]; try done. by injection Hv as <-. }
  rewrite (mapM_length _ _ _ Hms), (mapM_length _ _ _ Hme),
    (mapM_length _ _ _ Hemb), (mapM_length _ _ _ Hsc).
  do 4 (split; [done |]).
  apply mapM_Forall2 in Hms, Hme, Hemb, Hsc.
  intros k idx Hk.
  destruct (Forall2_lookup_l _ _ _ _ _ Hms Hk) as (s & Hs & [Hidx Hs']%tf_gather_Ok).
  destruct (Forall2_lookup_l _ _ _ _ _ Hme Hk) as (e & He & [_ He']%tf_gather_Ok).
  destruct (Forall2_lookup_l _ _ _ _ _ Hemb Hk) as (v & Hv & [_ Hv']%tf_gather_Ok).
  destruct (Forall2_lookup_l _ _ _ _ _ Hsc Hk) as (x & Hx & [_ Hx']%tf_gather_Ok).
  split; [done |]. rewrite Hs, He, Hv, Hx. eauto 10.
Qed.
End GraphFacts.

(** ** Flattening by sentence *)

Lemma mask_row_take {A : Type} (len : Z) (row : list A) :
  ∀ s : nat,
    map fst (filter (λ p : A * bool, p.2 = true)
               (zip row (map (λ j : nat, Z.of_nat j <? len) (seq s (length row)))))
    = take (Z.to_nat len - s) row.
Proof.
  induction row as [|x row IH]; intros s; simpl; [by rewrite take_nil |].
  rewrite filter_cons. simpl. destruct (Z.ltb_spec (Z.of_nat s) len) as [Hlt|Hge].
  - rewrite decide_True by done. simpl. rewrite IH.
    by replace (Z.to_nat len - s)%nat with (S (Z.to_nat len - S s)) by lia.
  - rewrite decide_False by done. rewrite IH.
    replace (Z.to_nat len - s)%nat with 0%nat by lia.
    by replace (Z.to_nat len - S s)%nat with 0%nat by lia.
Qed.

Lemma tf_gather_lookup {A : Type} (params : list A) (i : nat) (x : A) :
  params !! i = Some x → tf_gather params (Z.of_nat i) = Ok x.
Proof.
  intros Hx. pose proof (lookup_lt_Some _ _ _ Hx) as Hlt. unfold tf_gather.
  destruct (Z.leb_spec 0 (Z.of_nat i)); [| lia].
  destruct (Z.ltb_spec (Z.of_nat i) (Z.of_nat (length params))); [| lia].
  simpl. by rewrite Nat2Z.id, Hx.
Qed.

(** On a mask of the size of the tensor, gathering the positions of the
    mask keeps the entries the mask holds at. *)
Lemma tf_boolean_mask_same_length {A : Type} (x : list A) (mask : list bool) :
  length x = length mask →
  tf_boolean_mask x mask
  = Ok (map fst (filter (λ p : A * bool, p.2 = true) (zip x mask))).
Proof.
  unfold tf_boolean_mask, mask_positions.
  assert (∀ (suf pre : list A) (m : list bool),
            length suf = length m →
            mapM (tf_gather (pre ++ suf))
              (map (λ p : nat * bool, Z.of_nat (fst p))
                 (filter (λ p : nat * bool, snd p = true)
                    (zip (seq (length pre) (length m)) m)))
            = Ok (map fst (filter (λ p : A * bool, p.2 = true) (zip suf m))))
    as Hgen.
  { induction suf as [|a suf IH]; intros pre [|b m] Hlen; simpl in *; try done.
    rewrite !filter_cons. simpl.
    specialize (IH (pre ++ [a]) m).
    rewrite length_app, Nat.add_1_r, <- app_assoc in IH. simpl in IH.
    destruct b; simpl.
    - rewrite (tf_gather_lookup _ _ a)
        by (by rewrite lookup_app_r, Nat.sub_diag by lia).
      simpl. rewrite IH by lia. done.
    - apply IH. lia. }
  intros Hlen. apply (Hgen x [] mask Hlen).
Qed.

Lemma flatten_rows {A : Type} (L : nat) (text_len : list Z) (emb : list (list A)) :
  Forall2 (λ (len : Z) (row : list A), length row = L) text_len emb →
  length (concat emb) = length (text_len_mask text_len L)
  ∧ map fst (filter (λ p : A * bool, p.2 = true)
               (zip (concat emb) (text_len_mask text_len L)))
    = concat (zip_with (λ len row, take (Z.to_nat len) row) text_len emb).
Proof.
  unfold text_len_mask, tf_sequence_mask.
  induction 1 as [|len row text_len emb Hrow _ [IHlen IH]]; simpl; [done |].
  assert (length row = length (map (λ j : nat, Z.of_nat j <? len) (seq 0 L)))
    as Hmask by (by rewrite length_map, length_seq).
  split.
  - rewrite !length_app. congruence.
  - rewrite zip_with_app by done. rewrite filter_app, map_app, IH.
    f_equal. rewrite <- Hrow, mask_row_take. by rewrite Nat.sub_0_r.
Qed.

Lemma tiled_rows_take (L : nat) (text_len : list Z) :
  Forall (λ len, len <= Z.of_nat L) text_len →
  ∀ s : nat,
    zip_with (λ len (row : list Z), take (Z.to_nat len) row) text_len
      (map (λ i, replicate L (Z.of_nat i)) (seq s (length text_len)))
    = imap (λ i len, replicate (Z.to_nat len) (Z.of_nat (s + i))) text_len.
Proof.
  induction 1 as [|len text_len Hlen _ IH]; intros s; simpl; [done |].
  f_equal.
  - rewrite take_replicate, Nat.add_0_r. f_equal. lia.
  - rewrite IH. apply imap_ext. intros i x _. simpl. do 2 f_equal. lia.
Qed.

(** X15.  On a tensor of one row of [L] entries per sentence,
    [flatten_emb_by_sentence] with the mask of [text_len] returns the first
    [text_len[i]] entries of every row [i], one sentence after the other;
    applied to the tiled sentence numbers it gives the sentence number of
    every word. *)
Theorem flatten_emb_by_sentence_spec {A : Type} (emb : list (list A))
    (text_len : list Z) (L : nat) :
  has_shape emb (length text_len) L →
  flatten_emb_by_sentence emb (text_len_mask text_len L)
  = Ok (concat (zip_with (λ len row, take (Z.to_nat len) row) text_len emb))
  ∧ (Forall (λ len, len <= Z.of_nat L) text_len →
     flatten_emb_by_sentence (sentence_indices (length text_len) L)
       (text_len_mask text_len L)
     = Ok (flattened_sentence_indices text_len)).
Proof.
  assert (∀ (B : Type) (e : list (list B)),
            has_shape e (length text_len) L →
            flatten_emb_by_sentence e (text_len_mask text_len L)
            = Ok (concat (zip_with (λ len row, take (Z.to_nat len) row)
                            text_len e)))
    as Hgen.
  { intros B e [Hn Hrows].
    destruct (flatten_rows L text_len e) as [Hlen Hflat].
    { apply Forall2_same_length_lookup_2; [done |].
      intros i len row _ Hrow. by eapply (Forall_lookup_1 _ _ _ _ Hrows). }
    unfold flatten_emb_by_sentence.
    by rewrite tf_boolean_mask_same_length, Hflat. }
  intros Hshape. split; [by apply Hgen |].
  intros Hle. rewrite Hgen.
  - unfold sentence_indices, flattened_sentence_indices.
    by rewrite tiled_rows_take.
  - unfold sentence_indices. split; [by rewrite length_map, length_seq |].
    apply Forall_fmap, Forall_forall. intros i _. simpl.
    by rewrite length_replicate.
Qed.

Lemma flatten_emb_by_sentence_spec_witness :
  flatten_emb_by_sentence [[1; 2; 0]; [3; 0; 0]; [4; 5; 6]]
    (text_len_mask [2; 1; 3] 3)
  = Ok (concat (zip_with (λ len row, take (Z.to_nat len) row) [2; 1; 3]
                  [[1; 2; 0]; [3; 0; 0]; [4; 5; 6]]))
  ∧ (Forall (λ len, len <= 3) [2; 1; 3] →
     flatten_emb_by_sentence (sentence_indices 3 3) (text_len_mask [2; 1; 3] 3)
     = Ok (flattened_sentence_indices [2; 1; 3])).
Proof.
  apply (flatten_emb_by_sentence_spec [[1; 2; 0]; [3; 0; 0]; [4; 5; 6]]
           [2; 1; 3] 3).
  split; [reflexivity | repeat constructor].
Defined.

(** ** [CharConnector], character by character *)

Lemma list_ascii_of_string_app (a b : string) :
  String.list_ascii_of_string (String.append a b)
  = String.list_ascii_of_string a ++ String.list_ascii_of_string b.
Proof. induction a as [|c a IH]; simpl; [done | by rewrite IH]. Qed.

(** X16.  The string [CharConnector] returns for a sample is made of the
    characters of the pieces of the sample, in order: nothing is put between
    two pieces and no character is dropped; its length is the sum of the
    lengths of the pieces. *)
Theorem char_connector_chars (batch : list (list string)) :
  map String.list_ascii_of_string (char_connector_call batch)
  = map (λ sample, concat (map String.list_ascii_of_string sample)) batch
  ∧ map String.length (char_connector_call batch)
    = map (λ sample, foldr Nat.add 0%nat (map String.length sample)) batch.
Proof.
  unfold char_connector_call.
  assert (∀ sample : list string,
            String.list_ascii_of_string (String.concat EmptyString sample)
            = concat (map String.list_ascii_of_string sample)) as Hchars.
  { intros sample. rewrite concat_empty_sep.
    induction sample as [|w sample IH]; simpl; [done |].
    by rewrite list_ascii_of_string_app, IH. }
  split.
  - rewrite map_map. apply map_ext. intros sample. apply Hchars.
  - rewrite map_map. apply map_ext. intros sample.
    rewrite <- (String.string_of_list_ascii_of_string (String.concat EmptyString sample)).
    rewrite Hchars. clear.
    induction sample as [|w sample IH]; simpl; [done |].
    rewrite <- IH. clear.
    assert (∀ l1 l2 : list Ascii.ascii,
              String.length (String.string_of_list_ascii (l1 ++ l2))
              = (String.length (String.string_of_list_ascii l1)
                 + String.length (String.string_of_list_ascii l2))%nat) as Happ.
    { induction l1 as [|c l1 IH]; intros l2; simpl; [done | by rewrite IH]. }
    rewrite Happ. by rewrite String.string_of_list_ascii_of_string.
Qed.

(** ** [__call__] *)

Lemma gold_cluster_ids_mentions (clusters : list (list span)) (gm : list span)
    (ids : list Z) :
  gold_cluster_ids clusters = Ok (gm, ids) → gm = sorted (flatten clusters).
Proof.
  unfold gold_cluster_ids. by intros (ids' & _ & [= <- _])%bind_Ok.
Qed.

Lemma zip_fst_snd {A B : Type} (l : list (A * B)) :
  zip (map fst l) (map snd l) = l.
Proof. induction l as [|[a b] l IH]; simpl; [done | by rewrite IH]. Qed.

Section CallFacts.
Context {E : Type}.
Context (embedder : embedder_arg → list E).
Context (char_dict : Ascii.ascii → result Z).
Context (lower : string → string).
Context (set_order : list string → list string).
Context (get_mention_emb : tensors E → list Z → list Z → list vec).
Context (get_mention_scores : list vec → tensor2).
Context (spans : list Z → Z → list Z * list Z).
Context (extract_mentions : list xreal → list Z → list Z → Z → list Z).
Context (mention_budget : Z → Z).
Context (get_antecedents :
  list Z → list Z → list Z → list Z → list Z → Z
  → list (list Z) * list (list bool) * list Z).
Context (ffnn : tensor3 → tensor3).
Context (distance_bins : Z → Z).
Context (dropout : nat → nat → nat → xreal → xreal).

(** X17.  [__call__] takes four arguments when the model trains on gold
    mentions and three otherwise, any other call is a [ValueError]; and in
    the gold-mention mode every span of every cluster it returns is one of
    the gold spans it was called with, and every cluster has at least two
    spans. *)
Theorem call_gold_spans (cfg : model_config) (g : graph_config) :
  (∀ sentences speakers doc_key,
     train_on_gold cfg = true →
     call embedder char_dict lower set_order get_mention_emb get_mention_scores
       spans extract_mentions mention_budget get_antecedents ffnn distance_bins
       dropout cfg g (Args3 sentences speakers doc_key) = Raise ValueError)
  ∧ (∀ sentences speakers doc_key clusters,
       train_on_gold cfg = false →
       call embedder char_dict lower set_order get_mention_emb get_mention_scores
         spans extract_mentions mention_budget get_antecedents ffnn distance_bins
         dropout cfg g (Args4 sentences speakers doc_key clusters)
       = Raise ValueError)
  ∧ (∀ sentences speakers doc_key clusters out,
       train_on_gold cfg = true →
       call embedder char_dict lower set_order get_mention_emb get_mention_scores
         spans extract_mentions mention_budget get_antecedents ffnn distance_bins
         dropout cfg g (Args4 sentences speakers doc_key clusters) = Ok out →
       ∃ predicted m2p,
         out = ([predicted], [m2p])
         ∧ Forall (λ l, (2 ≤ length l)%nat) predicted
         ∧ ∀ x, x ∈ concat predicted → x ∈ flatten clusters).
Proof.
  split; [| split].
  - intros sentences speakers doc_key Hgold. unfold call. by rewrite Hgold.
  - intros sentences speakers doc_key clusters Hgold. unfold call. by rewrite Hgold.
  - intros sentences speakers doc_key clusters out Hgold. unfold call.
    rewrite Hgold. cbn [call_batch bind].
    intros (t & Ht & (p & Hp & (res & Hres & [= <-])%bind_Ok)%bind_Ok)%bind_Ok.
    unfold tensorize_example in Ht. apply bind_Ok in Ht as (t0 & Ht0 & Ht).
    cbn [andb] in Ht. injection Ht as <-.
    apply tensorize_full_fields in Ht0
      as (gm & ids & Hids & _ & Hgs & Hge & _ & _ & _).
    cbn [ex_clusters] in Hids. apply gold_cluster_ids_mentions in Hids as ->.
    unfold get_predictions_and_loss in Hp.
    apply bind_Ok in Hp as (genre_emb & _ & (m & Hm & Hp)%bind_Ok).
    cbn [mention_module] in Hm. injection Hm as <-.
    unfold antecedent_module in Hp.
    apply bind_Ok in Hp as (sp & _ & (scores & _ & (loss & _ & [= <-])%bind_Ok)
                                       %bind_Ok).
    cbn [fst snd mention_starts mention_ends] in Hres.
    unfold decode in Hres. apply bind_Ok in Hres as (preds & _ & Hres).
    destruct res as [predicted m2p]. exists predicted, m2p. split; [done |].
    apply get_predicted_clusters_Ok in Hres as (st & Hloop & -> & _).
    apply predicted_clusters_loop_decoded in Hloop as (_ & _ & Hchains).
    split.
    + apply Forall_lookup. intros c l Hl. by destruct (Hchains c l Hl).
    + intros x (l & Hx & Hl)%elem_of_concat.
      apply list_elem_of_lookup in Hl as [c Hl].
      destruct (Hchains c l Hl) as [_ (js & Hjs & _)].
      apply list_elem_of_lookup in Hx as [k Hk].
      destruct (Forall2_lookup_r _ _ _ _ _ Hjs Hk) as (j & _ & Hj).
      rewrite Hgs, Hge, zip_fst_snd in Hj.
      rewrite <- (sorted_Permutation (flatten clusters)).
      by eapply list_elem_of_lookup_2.
Qed.
End CallFacts.

Lemma call_john_he :
  call embed_unit char_code (λ w, w) remove_dups embed_zero no_scores no_spans
    no_extraction (λ n, n) earlier_candidate ffnn_zero clip_bins no_dropout
    john_he_config toy_graph
    (Args4 [["John"; "arrived"]; ["He"; "smiled"]] [["A"; "A"]; ["A"; "A"]]
       "bc/john_he" [[(0, 0); (2, 2)]])
  = Ok ([[[(0, 0); (2, 2)]]],
        [{[ (0, 0) := [(0, 0); (2, 2)]; (2, 2) := [(0, 0); (2, 2)] ]}]).
Proof.
  unfold call. cbn [call_batch john_he_config train_on_gold bind].
  match goal with
  | |- context [tensorize_example ?a ?b ?c ?d ?cfg ?r ?ex ?tr] =>
      assert (tensorize_example a b c d cfg r ex tr = Ok john_he_tensors) as ->
        by (vm_compute; reflexivity)
  end.
  cbn [bind]. unfold get_predictions_and_loss.
  assert (tf_gather (genre_embeddings toy_graph)
            (Z.of_nat (genre john_he_tensors)) = Ok [Fin 0]) as -> by reflexivity.
  cbn [bind mention_module]. unfold antecedent_module.
  cbn [mention_starts mention_ends mention_emb mention_scores
       candidate_mention_scores].
  assert (mapM (tf_gather (speaker_ids john_he_tensors)) (gold_starts john_he_tensors)
          = Ok [0; 0]) as -> by reflexivity.
  cbn [bind].
  match goal with
  | |- context [get_antecedent_scores ?f ?b ?d ?p ?e ?ms ?a ?al ?sp ?ge] =>
      assert (get_antecedent_scores f b d p e ms a al sp ge
              = Ok [[Fin 0; NegInf]; [Fin 0; Fin (0 + 1 + 1)]]) as ->
  end.
  { destruct (get_antecedent_scores_tab ffnn_zero clip_bins no_dropout toy_params
                2 1 1 (λ _, [Fin 0]) (λ _, 1%R) (λ _ _, 0) (λ i, Z.of_nat i)
                (λ _, 0) [Fin 0]) as (out & [Hn Hm] & Hffnn & Hscores).
    - lia.
    - done.
    - intros; lia.
    - left. reflexivity.
    - intros _. split; [reflexivity |]. intros z. unfold clip_bins. lia.
    - intros t Ht. exists (map (map (λ _, 0%R)) t). split.
      + destruct Ht as [Hn Hm]. split; [by rewrite length_map |].
        apply Forall_fmap. eapply Forall_impl; [exact Hm |].
        intros row Hrow. simpl. by rewrite length_map.
      + unfold ffnn_zero. rewrite map_map. apply map_ext. intros row.
        by rewrite map_map.
    - destruct out as [|[|a [|? ?]] [|[|b [|? ?]] [|? ?]]];
        try done; try (by repeat (apply Forall_cons in Hm as [? Hm])).
      all: try (apply Forall_cons in Hm as [? Hm]; try done;
                apply Forall_cons in Hm as [? Hm]; done).
      cbv [ffnn_zero tab map seq] in Hffnn.
      injection Hffnn as Ha Hb. subst a b.
      exact Hscores. }
  cbn [bind]. unfold document_loss.
  rewrite (softmax_loss_rows 2 2);
    [| split; [reflexivity | repeat constructor]
     | split; [reflexivity | repeat constructor]
     | repeat constructor].
  cbn [bind fst snd]. unfold decode, get_predicted_antecedents.
  assert (np_argmax_axis1 xreal_gt [[Fin 0; NegInf]; [Fin 0; Fin (0 + 1 + 1)]]
          = Ok [0; 1]) as ->.
  { cbn. unfold xreal_gt, xle.
    destruct (Rle_dec (0 + 1 + 1) 0) as [Hle|_]; [exfalso; lra | done]. }
  vm_compute. reflexivity.
Qed.

Lemma call_gold_spans_witness :
  ∃ predicted m2p,
    ([[[(0, 0); (2, 2)]]],
     [({[ (0, 0) := [(0, 0); (2, 2)]; (2, 2) := [(0, 0); (2, 2)] ]}
         : gmap span (list span))])
    = ([predicted], [m2p])
    ∧ Forall (λ l : list span, (2 ≤ length l)%nat) predicted
    ∧ ∀ x : span, x ∈ concat predicted → x ∈ flatten [[(0, 0); (2, 2)]].
Proof.
  apply (proj2 (proj2 (call_gold_spans embed_unit char_code (λ w, w) remove_dups
                         embed_zero no_scores no_spans no_extraction (λ n, n)
                         earlier_candidate ffnn_zero clip_bins no_dropout
                         john_he_config toy_graph))
           [["John"; "arrived"]; ["He"; "smiled"]] [["A"; "A"]; ["A"; "A"]]
           "bc/john_he" [[(0, 0); (2, 2)]]).
  - reflexivity.
  - exact call_john_he.
Defined.

(** ** The outcome of the truncation *)

(** X18.  [truncate_example] fails its first assertion when the document
    has no more sentences than the bound, its second when [gold_ends] and
    [gold_starts] differ in length, raises [IndexError] from the boolean mask
    when [cluster_ids] has another length than the gold arrays, and returns
    in every other case, whatever offset is drawn. *)
Theorem truncate_example_outcome {E : Type} (cfg : model_config) (r : Z)
    (t : tensors E) :
  (Z.of_nat (length (word_emb t)) <= max_training_sentences cfg →
   truncate_example cfg r t = Raise AssertionError)
  ∧ (max_training_sentences cfg < Z.of_nat (length (word_emb t)) →
     (length (gold_ends t) ≠ length (gold_starts t) →
      truncate_example cfg r t = Raise AssertionError)
     ∧ (length (gold_ends t) = length (gold_starts t) →
        (length (cluster_ids t) ≠ length (gold_starts t) →
         truncate_example cfg r t = Raise IndexError)
        ∧ (length (cluster_ids t) = length (gold_starts t) →
           ∃ t', truncate_example cfg r t = Ok t'))).
Proof.
  unfold truncate_example. split.
  - intros Hle.
    destruct (Z.gtb_spec (Z.of_nat (length (word_emb t)))
                (max_training_sentences cfg)); [lia | done].
  - intros Hlt.
    destruct (Z.gtb_spec (Z.of_nat (length (word_emb t)))
                (max_training_sentences cfg)); [| lia].
    cbn [negb]. split.
    + intros Hne. by rewrite bool_decide_eq_false_2.
    + intros Heq. rewrite bool_decide_eq_true_2 by done. cbn [negb]. split.
      * intros Hne. unfold np_mask.
        rewrite !decide_True by (rewrite length_zip_with; lia).
        cbn [bind]. rewrite decide_False; [done |].
        rewrite length_zip_with. lia.
      * intros Hids. unfold np_mask.
        rewrite !decide_True by (rewrite length_zip_with; lia).
        cbn [bind]. by eexists.
Qed.

(** X19.  Every gold span the truncation keeps overlaps the kept words: in
    the returned tuple a gold span ends at or after word 0 and starts before
    the number of words of the kept sentences. *)
Theorem truncate_example_overlap {E : Type} (cfg : model_config) (r : Z)
    (t t' : tensors E) :
  truncate_example cfg r t = Ok t' →
  length (gold_starts t') = length (gold_ends t')
  ∧ ∀ (k : nat) s e,
      gold_starts t' !! k = Some s → gold_ends t' !! k = Some e →
      0 <= e ∧ s < py_sum (text_len t').
Proof.
  unfold truncate_example.
  destruct (negb (_ >? _)); [done |].
  destruct (bool_decide _) eqn:Hlen; [| done]. cbn [negb].
  apply bool_decide_eq_true_1 in Hlen.
  intros (gs & Hgs & (ge & Hge & (ids & Hids & [= <-])%bind_Ok)%bind_Ok)%bind_Ok.
  cbn [gold_starts gold_ends text_len].
  set (wo := py_sum (py_slice (text_len t) 0 r)) in *.
  set (nw := py_sum (py_slice (text_len t) r (r + max_training_sentences cfg))) in *.
  pose proof (np_mask_length _ _ _ Hgs) as Hgslen.
  pose proof (np_mask_length _ _ _ Hge) as Hgelen.
  split; [rewrite !length_map; congruence |].
  unfold np_mask in Hgs, Hge.
  rewrite decide_True in Hgs by (rewrite length_zip_with; lia).
  rewrite decide_True in Hge by (rewrite length_zip_with; lia).
  injection Hgs as <-. injection Hge as <-.
  intros k s e Hs He.
  apply list_lookup_fmap_Some in Hs as (s0 & -> & Hs).
  apply list_lookup_fmap_Some in He as (e0 & -> & He).
  assert (∀ (gss gee : list Z) (k : nat) s0 e0,
            length gee = length gss →
            map fst (filter (λ p : Z * bool, p.2 = true)
                       (zip gss (zip_with (λ e s, (e >=? wo) && (s <? wo + nw))
                                   gee gss))) !! k = Some s0 →
            map fst (filter (λ p : Z * bool, p.2 = true)
                       (zip gee (zip_with (λ e s, (e >=? wo) && (s <? wo + nw))
                                   gee gss))) !! k = Some e0 →
            wo <= e0 ∧ s0 < wo + nw) as Hkept.
  { clear. intros gss. induction gss as [|s gss IH]; intros [|e gee] k s0 e0 Hl;
      simpl in *; try done.
    rewrite !filter_cons. simpl.
    destruct ((e >=? wo) && (s <? wo + nw)) eqn:Hb; simpl.
    - destruct k as [|k]; simpl.
      + intros [= <-] [= <-]. apply andb_true_iff in Hb as [H1 H2]. lia.
      + apply IH. lia.
    - apply IH. lia. }
  destruct (Hkept _ _ k s0 e0 Hlen Hs He). lia.
Qed.

(** ** The genre of a document *)

(** X20.  The genre id that [tensorize_example] computes with the model the
    constructor returns is a position of the first two characters of the
    document key in the list of genres the constructor was given: the last
    one, when a genre is listed twice. *)
Theorem init_genre_id {E : Type} (embedder : embedder_arg → list E)
    (char_dict : Ascii.ascii → result Z) (lower : string → string)
    (set_order : list string → list string) (a : init_args)
    (effects : list tf_effect) (model : coref_model) (ex : example)
    (training : bool) (t : tensors E) :
  init a = (effects, Ok model) →
  tensorize_full embedder char_dict lower set_order (config model) ex training
  = Ok t →
  last_position (arg_genres a) (String.substring 0 2 (ex_doc_key ex)) (genre t)
  ∧ (genre t < length (arg_genres a))%nat.
Proof.
  unfold init. intros Hinit Ht.
  destruct (arg_embedder a) as [dim|]; [| done].
  destruct (negb (bool_decide _)); [done |].
  destruct (_ && _); [done |]. destruct (negb (_ || _)); [done |].
  destruct (bool_decide (arg_optimizer a ∈ ["adam"; "sgd"])); [| done].
  injection Hinit as _ <-. cbn [config] in Ht.
  apply tensorize_full_inv in Ht
    as (_ & _ & _ & _ & _ & _ & _ & _ & _ & _ & _ & Hgenre & _).
  cbn [genres] in Hgenre. apply enumerate_map_last in Hgenre.
  split; [done |]. destruct Hgenre as [Hg _]. by eapply lookup_lt_Some.
Qed.

Lemma init_genre_id_witness :
  last_position ["bc"; "nw"] (String.substring 0 2 (ex_doc_key three_sentences))
    (genre three_tensors)
  ∧ (genre three_tensors < length ["bc"; "nw"])%nat.
Proof.
  apply (init_genre_id embed_unit char_code (λ w, w) remove_dups
           (InitArgs (Some 300) false "std_emb" (Some 128%nat) 8 [3; 4; 5] 2
              ["bc"; "nw"] "adam" true true true 42)
           [CreatePlaceholders; CreateQueue; BuildGraph; CreateGlobalStep;
            ComputeGradients; ApplyGradients "adam"; SetRandomSeed 42;
            CreateSession; RunInitializer; ReadCheckpoint]
           (CorefModel 300
              (ModelConfig false "std_emb" [3; 4; 5] 2
                 (enumerate_map ["bc"; "nw"]) true))
           three_sentences true three_tensors).
  - vm_compute. reflexivity.
  - vm_compute. reflexivity.
Defined.

(** ** Instances *)

Lemma predicted_antecedent_first_maximum_witness :
  (∃ (k : nat) v,
     [0; 3; 3] !! k = Some v
     ∧ (∀ y, y ∈ [0; 3; 3] → (y >? v) = false)
     ∧ (∀ (j : nat) y, (j < k)%nat → [0; 3; 3] !! j = Some y → (v >? y) = true)
     ∧ ((k = 0%nat ∧ 0 = -1)
        ∨ ((0 < k)%nat ∧ ∃ arow, [[0; 0]; [0; 0]] !! 1%nat = Some arow
                                 ∧ arow !! (k - 1)%nat = Some 0)))
  ∧ (∀ s0, [0; 3; 3] !! 0%nat = Some s0 →
           (∀ y, y ∈ [0; 3; 3] → (y >? s0) = false) → 0 = -1).
Proof.
  apply (predicted_antecedent_first_maximum Z.gtb [[0; 0]; [0; 0]]
           [[0; 0; 0]; [0; 3; 3]] [-1; 0]).
  - intros x. destruct (Z.gtb_spec x x); [lia | done].
  - intros x y. destruct (Z.gtb_spec x y), (Z.gtb_spec y x); try done. lia.
  - intros x y z.
    destruct (Z.gtb_spec x y), (Z.gtb_spec y z), (Z.gtb_spec x z); try done. lia.
  - reflexivity.
  - reflexivity.
  - reflexivity.
Defined.

Lemma char_index_shape_witness :
  ∃ L W : nat,
    has_shape3 (char_index three_tensors) (length (ex_sentences three_sentences)) L W
    ∧ (∃ s, s ∈ ex_sentences three_sentences ∧ length s = L)
    ∧ (∀ s, s ∈ ex_sentences three_sentences → (0 < length s ≤ L)%nat)
    ∧ (∀ s w, s ∈ ex_sentences three_sentences → w ∈ s → (String.length w ≤ W)%nat)
    ∧ (∀ f, f ∈ filter_widths cap_two → f <= Z.of_nat W)
    ∧ ((∃ s w, s ∈ ex_sentences three_sentences ∧ w ∈ s ∧ String.length w = W)
       ∨ Z.of_nat W ∈ filter_widths cap_two).
Proof.
  apply (char_index_shape embed_unit char_code (λ w, w) remove_dups cap_two
           three_sentences true three_tensors).
  vm_compute. reflexivity.
Defined.

Lemma char_index_rows_padded_witness :
  ∃ L W : nat,
    has_shape3 (char_index three_tensors) (length (ex_sentences three_sentences)) L W
    ∧ ∀ (i : nat) s, cased_sentences cap_two (λ w, w) three_sentences !! i = Some s →
        ∃ rows,
          char_index three_tensors !! i = Some rows
          ∧ (∀ (j : nat) w, s !! j = Some w →
               ∃ ids, mapM char_code (String.list_ascii_of_string w) = Ok ids
                      ∧ rows !! j = Some (ids ++ replicate (W - length ids) 0))
          ∧ (∀ j : nat, (length s ≤ j < L)%nat →
               rows !! j = Some (replicate W 0)).
Proof.
  apply (char_index_rows_padded embed_unit char_code (λ w, w) remove_dups cap_two
           three_sentences true three_tensors).
  vm_compute. reflexivity.
Defined.

Lemma speaker_ids_spec_witness :
  py_sum (text_len three_tensors) = Z.of_nat (length (speaker_ids three_tensors))
  ∧ length (speaker_ids three_tensors)
    = length (flatten (ex_speakers three_sentences))
  ∧ (∀ (i : nat) a, flatten (ex_speakers three_sentences) !! i = Some a →
       ∃ k, speaker_ids three_tensors !! i = Some k
            ∧ 0 <= k
            ∧ remove_dups (flatten (ex_speakers three_sentences)) !! Z.to_nat k
              = Some a)
  ∧ (∀ (i j : nat) a b ki kj,
       flatten (ex_speakers three_sentences) !! i = Some a →
       flatten (ex_speakers three_sentences) !! j = Some b →
       speaker_ids three_tensors !! i = Some ki →
       speaker_ids three_tensors !! j = Some kj →
       (ki = kj ↔ a = b)).
Proof.
  apply (speaker_ids_spec embed_unit char_code (λ w, w) remove_dups cap_two
           three_sentences true three_tensors).
  vm_compute. reflexivity.
Defined.

Lemma tensorize_example_rejects_witness :
  tensorize_example embed_unit char_code (λ w, w) remove_dups cap_two 0
    (MkExample [["a"; "b"]] [["A"]] "bc/x" []) true
  = Raise AssertionError
  ∧ tensorize_example embed_unit char_code (λ w, w) remove_dups cap_two 0
      (MkExample [["a"]; []] [["A"]; []] "bc/x" []) true
    = Raise ValueError.
Proof.
  split.
  - apply (proj1 (tensorize_example_rejects embed_unit char_code (λ w, w)
                    remove_dups cap_two 0
                    (MkExample [["a"; "b"]] [["A"]] "bc/x" []) true)).
    vm_compute. discriminate.
  - apply (proj2 (tensorize_example_rejects embed_unit char_code (λ w, w)
                    remove_dups cap_two 0
                    (MkExample [["a"]; []] [["A"]; []] "bc/x" []) true)).
    + reflexivity.
    + right. left. right. left.
Defined.

Lemma tensorize_example_consistent_witness :
  py_sum (text_len three_truncated) = Z.of_nat (length (speaker_ids three_truncated))
  ∧ length (gold_ends three_truncated) = length (gold_starts three_truncated)
  ∧ length (cluster_ids three_truncated) = length (gold_starts three_truncated).
Proof.
  apply (tensorize_example_consistent embed_unit char_code (λ w, w) remove_dups
           cap_two 1 three_sentences true three_truncated).
  - vm_compute. discriminate.
  - lia.
  - vm_compute. reflexivity.
Defined.

Lemma softmax_loss_sign_witness :
  ∃ loss,
    softmax_loss [[Fin 0; Fin 1]; [Fin 0; NegInf]] [[false; true]; [false; true]]
    = Ok loss
    ∧ ∀ (i : nat) row labels,
        [[Fin 0; Fin 1]; [Fin 0; NegInf]] !! i = Some row →
        [[false; true]; [false; true]] !! i = Some labels →
        ((∃ (j : nat) s, row !! j = Some (Fin s) ∧ labels !! j = Some true) →
         ∃ r, loss !! i = Some (Fin r) ∧ (0 <= r)%R)
        ∧ ((∃ (j : nat) s, row !! j = Some (Fin s)) →
           (∀ (j : nat) s, row !! j = Some (Fin s) → labels !! j ≠ Some true) →
           loss !! i = Some PosInf).
Proof.
  apply (softmax_loss_sign 2 2).
  - split; [reflexivity | repeat constructor].
  - split; [reflexivity | repeat constructor].
  - repeat constructor.
Defined.

Lemma mention_module_aligned_witness :
  let candidates :=
    two_spans (flattened_sentence_indices (text_len john_he_tensors))
      (max_mention_width toy_graph) in
  let candidate_emb :=
    embed_zero john_he_tensors (fst candidates) (snd candidates) in
  let indices :=
    extract_reversed (candidate_mention_scores two_mentions) (fst candidates)
      (snd candidates) (py_sum (text_len john_he_tensors)) in
  Forall2 (λ v s, v = [s]) (score_zero candidate_emb)
    (candidate_mention_scores two_mentions)
  ∧ length (mention_starts two_mentions) = length indices
  ∧ length (mention_ends two_mentions) = length indices
  ∧ length (mention_emb two_mentions) = length indices
  ∧ length (mention_scores two_mentions) = length indices
  ∧ ∀ (k : nat) idx, indices !! k = Some idx →
      0 <= idx
      ∧ mention_starts two_mentions !! k = fst candidates !! Z.to_nat idx
      ∧ mention_ends two_mentions !! k = snd candidates !! Z.to_nat idx
      ∧ mention_emb two_mentions !! k = candidate_emb !! Z.to_nat idx
      ∧ mention_scores two_mentions !! k
        = candidate_mention_scores two_mentions !! Z.to_nat idx
      ∧ is_Some (mention_starts two_mentions !! k).
Proof.
  apply (mention_module_aligned embed_zero score_zero two_spans extract_reversed
           (λ n, n) toy_graph john_he_tensors two_mentions).
  reflexivity.
Defined.

Lemma truncate_example_overlap_witness :
  length (gold_starts three_truncated) = length (gold_ends three_truncated)
  ∧ ∀ (k : nat) s e,
      gold_starts three_truncated !! k = Some s →
      gold_ends three_truncated !! k = Some e →
      0 <= e ∧ s < py_sum (text_len three_truncated).
Proof.
  apply (truncate_example_overlap cap_two 1 three_tensors three_truncated).
  vm_compute. reflexivity.
Defined.
